(** * vic_collage_creator.py: a shallow embedding and its properties

    The script resolves the token ids a wallet owns, downloads one image per
    token into [vics/], and pastes the scaled images on a grid canvas saved
    under [output/].

    Python values are modelled as the script uses them: [int] as [Z], [float]
    as an IEEE-754 binary64 value ([spec_float] at precision 53), [str] as
    [string], lists as [list]; the file system is a finite map from paths to
    files together with the set of directories; exceptions are a result
    type, and statements are functions in a state-and-exception monad. *)

From Stdlib Require Import ZArith Lia Bool Ascii String.
From Stdlib Require Import Floats.SpecFloat.
From stdpp Require Import gmap strings list fin_maps sorting pretty.

Local Open Scope Z_scope.
#[local] Set Warnings "-register-all".


(** ** Exceptions and results *)

Inductive exn :=
  | FileNotFoundError
  | FileExistsError
  | IsADirectoryError
  | JSONDecodeError
  | ZeroDivisionError
  | OverflowError
  | ValueError
  | AttributeError
  | SystemExit (code : Z)
  | OtherError (msg : string).

(** [str(e)] as the handlers of the script interpolate it. *)
Definition exn_str (e : exn) : string :=
  match e with
  | FileNotFoundError => "No such file or directory"
  | FileExistsError => "File exists"
  | IsADirectoryError => "Is a directory"
  | JSONDecodeError => "JSONDecodeError"
  | ZeroDivisionError => "float division by zero"
  | OverflowError => "int too large to convert to float"
  | ValueError => "ValueError"
  | AttributeError => "AttributeError"
  | SystemExit c => pretty c
  | OtherError msg => msg
  end.

(** [except Exception] catches everything but [SystemExit]. *)
Definition is_Exception (e : exn) : bool :=
  match e with SystemExit _ => false | _ => true end.

Inductive res (A : Type) :=
  | Ok (a : A)
  | Raise (e : exn).
Arguments Ok {A} a.
Arguments Raise {A} e.

Definition res_bind {A B} (r : res A) (k : A → res B) : res B :=
  match r with Ok a => k a | Raise e => Raise e end.

(** ** Python floats: binary64 *)

Module Float64.

Definition prec : Z := 53.
Definition emax : Z := 1024.

(** A [spec_float] is a Python float when its mantissa and exponent are in
    canonical binary64 form. *)
Definition is_binary64 (x : spec_float) : Prop := valid_binary prec emax x = true.

Definition is_nan (x : spec_float) : bool :=
  match x with S754_nan => true | _ => false end.

Definition is_zero (x : spec_float) : bool :=
  match x with S754_zero _ => true | _ => false end.

(** [float(n)]: round to nearest even, [OverflowError] past the range. *)
Definition of_int (n : Z) : res spec_float :=
  match binary_normalize prec emax n 0 false with
  | S754_infinity _ => Raise OverflowError
  | x => Ok x
  end.

(** [a / b] on two ints: the correctly rounded quotient. *)
Definition int_truediv (a b : Z) : res spec_float :=
  if b =? 0 then Raise ZeroDivisionError
  else if a =? 0 then Ok (S754_zero (b <? 0))
  else
    let '(q, e, l) := SFdiv_core_binary prec emax (Z.abs a) 0 (Z.abs b) 0 in
    match binary_round_aux prec emax (xorb (a <? 0) (b <? 0)) q e l with
    | S754_infinity _ => Raise OverflowError
    | x => Ok x
    end.

(** [x / y] on two floats. *)
Definition truediv (x y : spec_float) : res spec_float :=
  if is_zero y then Raise ZeroDivisionError else Ok (SFdiv prec emax x y).

(** [n / y] and [n * y] with an int on the left: the int is converted first. *)
Definition int_div_float (n : Z) (y : spec_float) : res spec_float :=
  res_bind (of_int n) (λ x, truediv x y).

Definition int_mul_float (n : Z) (y : spec_float) : res spec_float :=
  res_bind (of_int n) (λ x, Ok (SFmul prec emax x y)).

Definition sub (x y : spec_float) : spec_float := SFsub prec emax x y.

(** [math.sqrt(n)] on an int. *)
Definition math_sqrt (n : Z) : res spec_float :=
  res_bind (of_int n) (λ x,
    match x with
    | S754_finite true _ _ => Raise ValueError
    | _ => Ok (SFsqrt prec emax x)
    end).

(** [int(x)]: truncation toward zero. *)
Definition to_int (x : spec_float) : res Z :=
  match x with
  | S754_nan => Raise ValueError
  | S754_infinity _ => Raise OverflowError
  | S754_zero _ => Ok 0
  | S754_finite s m e => Ok (cond_Zopp s (Z.shiftl (Z.pos m) e))
  end.

(** [math.ceil(x)]. *)
Definition math_ceil (x : spec_float) : res Z :=
  match x with
  | S754_nan => Raise ValueError
  | S754_infinity _ => Raise OverflowError
  | S754_zero _ => Ok 0
  | S754_finite s m e => Ok (- Z.shiftl (cond_Zopp (negb s) (Z.pos m)) e)
  end.

Definition leb (x y : spec_float) : bool := SFleb x y.

(** A decimal literal [num / 10^k], correctly rounded as the Python
    tokenizer does. *)
Definition literal (num : Z) (k : nat) : spec_float :=
  match int_truediv num (10 ^ Z.of_nat k) with
  | Ok x => x
  | Raise _ => S754_nan
  end.

(** [format(x, '.pf')]: the decimal with [p] fraction digits nearest to the
    exact value of [x], ties to even. *)
Definition round_half_even (num den : Z) : Z :=
  let q := num / den in
  let r := num mod den in
  match 2 * r ?= den with
  | Lt => q
  | Gt => q + 1
  | Eq => if Z.even q then q else q + 1
  end.

Fixpoint pad_left (n : nat) (s : string) : string :=
  match n with
  | O => s
  | S n' => if decide (String.length s ≤ n')%nat then pad_left n' ("0" +:+ s) else s
  end.

Definition format_f (p : nat) (x : spec_float) : string :=
  let digits (sgn : bool) (r : Z) :=
    let whole := pretty (r / 10 ^ Z.of_nat p) in
    let frac := pad_left p (pretty (r mod 10 ^ Z.of_nat p)) in
    (if sgn then "-" else "") +:+
    (match p with O => whole | S _ => whole +:+ "." +:+ frac end) in
  match x with
  | S754_nan => "nan"
  | S754_infinity s => if s then "-inf" else "inf"
  | S754_zero s => digits s 0
  | S754_finite s m e =>
      let scaled := Z.pos m * 10 ^ Z.of_nat p in
      digits s (if 0 <=? e then scaled * 2 ^ e else round_half_even scaled (2 ^ (- e)))
  end.

End Float64.

(** ** Values of the run: JSON, images, files *)

(** What [json.load] returns. A [dict] is its list of items. *)
Inductive json :=
  | JNone
  | JBool (b : bool)
  | JInt (n : Z)
  | JFloat (x : spec_float)
  | JStr (s : string)
  | JList (l : list json)
  | JDict (items : list (string * json)).

(** [d.get(key)]: the value, [None] when the key is absent; anything but a
    dict has no [get]. *)
Definition dict_get (d : json) (key : string) : res json :=
  match d with
  | JDict items =>
      Ok (match list_find (λ kv, kv.1 = key) items with
          | Some (_, (_, v)) => v
          | None => JNone
          end)
  | _ => Raise AttributeError
  end.

Definition rgb : Type := Z * Z * Z.

(** A PIL image is the pixels decoded from a file, a resized image, or a
    canvas with what was drawn on it. *)
Inductive image :=
  | Bitmap (id : Z) (w h : Z)
  | Resized (src : image) (w h : Z)
  | Collage (w h : Z) (fill : rgb) (ops : list draw_op)
with draw_op :=
  | Paste (im : image) (x y : Z)
  | Text (x y : Z) (s : string) (fill : rgb).

Definition img_width (im : image) : Z :=
  match im with Bitmap _ w _ | Resized _ w _ | Collage w _ _ _ => w end.
Definition img_height (im : image) : Z :=
  match im with Bitmap _ _ h | Resized _ _ h | Collage _ h _ _ => h end.

Inductive file :=
  | ImageFile (im : image)
  | OtherFile (text : string).

Record fsys := Fsys {
  dirs : gset string;
  files : gmap string file
}.

(** One HTTP exchange as the downloader sees it: a status line followed by
    the body; a status line after which reading the body fails; or no answer
    at all. The failures are the exceptions of the HTTP client (timeout,
    connection reset, DNS failure), all of them subclasses of [Exception]. *)
Inductive http_result :=
  | Response (status : Z) (body : file)
  | ReadError (status : Z) (msg : string)
  | TransportError (msg : string).

Record VicCollageCreator := Creator {
  api_key : json;
  contract_address : json;
  contract_abi : json;
  vic_base_url : json
}.

(** The calls the script makes to its network libraries: the contract
    call and [session.get]. What a library then puts on the wire (a retry
    after a dropped connection, a redirect) is not the script's. *)
Inductive request :=
  | RpcTokensOfOwner (wallet : string)
  | HttpGet (base : json) (token_id : Z).

(** ** State and the monad of statements *)

Record state := State {
  fs : fsys;
  stdout : list string;
  stderr : list string;
  net : list request;
  ticks : nat;
  progress_counter : Z
}.

Definition Py (A : Type) : Type := state → res A * state.

Definition py_ret {A} (a : A) : Py A := λ st, (Ok a, st).
Definition py_bind {A B} (m : Py A) (k : A → Py B) : Py B :=
  λ st, match m st with
        | (Ok a, st') => k a st'
        | (Raise e, st') => (Raise e, st')
        end.
Definition py_raise {A} (e : exn) : Py A := λ st, (Raise e, st).
Definition py_lift {A} (r : res A) : Py A := λ st, (r, st).

Declare Scope py_scope.
Delimit Scope py_scope with py.
Notation "x <- m ;; k" := (py_bind m (λ x, k))
  (at level 100, m at next level, right associativity) : py_scope.
Notation "m ;;; k" := (py_bind m (λ _, k))
  (at level 100, right associativity) : py_scope.
Local Open Scope py_scope.

(** [try: body except <classes>: handler]; [handler e = None] when [e] is
    not of a caught class. *)
Definition try_except {A} (body : Py A) (handler : exn → option (Py A)) : Py A :=
  λ st, match body st with
        | (Raise e, st') =>
            match handler e with
            | Some h => h st'
            | None => (Raise e, st')
            end
        | r => r
        end.

(** A [for] loop whose body threads an accumulator. *)
Fixpoint for_each {A B} (l : list A) (acc : B) (f : B → A → Py B) : Py B :=
  match l with
  | [] => py_ret acc
  | a :: l' => acc' <- f acc a ;; for_each l' acc' f
  end.

Definition CR : string := String (Ascii.ascii_of_nat 13) EmptyString.
Definition LF : string := String (Ascii.ascii_of_nat 10) EmptyString.

(** The state after [lines] went to standard output. *)
Definition emit (lines : list string) (st : state) : state :=
  State (fs st) (stdout st ++ lines) (stderr st) (net st) (ticks st) (progress_counter st).

Definition print_end (s e : string) : Py unit :=
  λ st, (Ok (), emit [s +:+ e] st).
Definition print (s : string) : Py unit := print_end s LF.

Definition set_fs (f : fsys) : Py unit :=
  λ st, (Ok (), State f (stdout st) (stderr st) (net st) (ticks st) (progress_counter st)).
Definition send (r : request) : Py unit :=
  λ st, (Ok (), State (fs st) (stdout st) (stderr st) (net st ++ [r])
                      (ticks st) (progress_counter st)).
Definition set_counter (n : Z) : Py unit :=
  λ st, (Ok (), State (fs st) (stdout st) (stderr st) (net st) (ticks st) n).
Definition get_state : Py state := λ st, (Ok st, st).

(** ** The operating system *)

Definition startswith (p s : string) : bool := String.prefix p s.

(** [os.path.join(a, b)] on POSIX. *)
Definition os_path_join (a b : string) : string :=
  if startswith "/" b then b
  else if bool_decide (a = "") then b
  else a +:+ "/" +:+ b.

Definition path_exists (f : fsys) (p : string) : bool :=
  bool_decide (p ∈ dirs f) || bool_decide (p ∈ dom (files f)).

Definition os_path_exists (p : string) : Py bool :=
  st <- get_state ;; py_ret (path_exists (fs st) p).

(** [os.makedirs(d, exist_ok=True)] for a one-component relative path. *)
Definition os_makedirs (d : string) : Py unit :=
  st <- get_state ;;
  let f := fs st in
  if bool_decide (d ∈ dirs f) then py_ret ()
  else if bool_decide (d ∈ dom (files f)) then py_raise FileExistsError
  else set_fs (Fsys ({[d]} ∪ dirs f) (files f)).

(** [os.mkdir(d)]. *)
Definition os_mkdir (d : string) : Py unit :=
  st <- get_state ;;
  let f := fs st in
  if path_exists f d then py_raise FileExistsError
  else set_fs (Fsys ({[d]} ∪ dirs f) (files f)).

Definition under (d p : string) : bool := startswith (d +:+ "/") p.

(** [shutil.rmtree(d, ignore_errors=True)]: the directory and everything
    below it; nothing when [d] is not a directory. *)
Definition shutil_rmtree (d : string) : Py unit :=
  st <- get_state ;;
  let f := fs st in
  if bool_decide (d ∈ dirs f) then
    set_fs (Fsys (filter (λ p, p ≠ d ∧ under d p = false) (dirs f))
                 (filter (λ kv, under d kv.1 = false) (files f)))
  else py_ret ().

(** [open(os.path.join(d, name), 'wb').write(content)]: the directory must
    exist and the path must not be a directory. *)
Definition write_file (d name : string) (content : file) : Py unit :=
  st <- get_state ;;
  let f := fs st in
  let path := os_path_join d name in
  if negb (bool_decide (d ∈ dirs f)) then py_raise FileNotFoundError
  else if bool_decide (path ∈ dirs f) then py_raise IsADirectoryError
  else set_fs (Fsys (dirs f) (<[path := content]> (files f))).

(** [Image.open(path)]. *)
Definition Image_open (path : string) : Py image :=
  st <- get_state ;;
  match files (fs st) !! path with
  | Some (ImageFile im) => py_ret im
  | Some (OtherFile _) => py_raise (OtherError "cannot identify image file")
  | None =>
      if bool_decide (path ∈ dirs (fs st)) then py_raise IsADirectoryError
      else py_raise FileNotFoundError
  end.

(** [os.path.splitext(p)[0]]: cut at the last dot of the last component,
    unless that component has only leading dots before it. *)
Fixpoint rfind_from (c : Ascii.ascii) (s : string) (i : nat) (last : option nat) : option nat :=
  match s with
  | EmptyString => last
  | String a s' => rfind_from c s' (S i) (if Ascii.eqb a c then Some i else last)
  end.
Definition rfind (c : Ascii.ascii) (s : string) : option nat := rfind_from c s 0 None.

Fixpoint all_dots (s : string) : bool :=
  match s with
  | EmptyString => true
  | String a s' => Ascii.eqb a "."%char && all_dots s'
  end.

Definition splitext_root (p : string) : string :=
  let first := match rfind "/"%char p with Some i => S i | None => O end in
  match rfind "."%char p with
  | Some dot =>
      if decide (first ≤ dot)%nat then
        if all_dots (String.substring first (dot - first) p) then p
        else String.substring 0 dot p
      else p
  | None => p
  end.

(** [s * n] on a string. *)
Fixpoint str_repeat_nat (s : string) (n : nat) : string :=
  match n with
  | O => ""
  | S n' => s +:+ str_repeat_nat s n'
  end.
Definition str_repeat (s : string) (n : Z) : string := str_repeat_nat s (Z.to_nat n).

(** ** The environment of a run

    What the script obtains from outside: the JSON decoder, the address
    checksum, the contract call, the image host, the order in which the
    event loop resumes the download tasks, the clock and the JPEG encoder:
    [encoded_size] is the size of the file a save writes, and
    [failed_save im existed] is what a save of [im] that the encoder refuses
    leaves at its path, [existed] telling whether the path held a file
    before (Pillow removes a file the save created; a file that was there
    was truncated when the save opened it). *)

Record world := World {
  json_loads : string → res json;
  to_checksum_address : json → res string;
  tokensOfOwner : VicCollageCreator → string → string → res (list Z);
  http_get : json → Z → http_result;
  schedule : list Z → list nat;
  clock : nat → spec_float;
  encoded_size : image → Z;
  failed_save : image → bool → option file
}.

(** The namespace [parser.parse_args()] returns: [nargs='+'] makes the
    wallet list non-empty and [type=float] makes the scale a float. *)
Record Namespace := Args {
  target_wallet_addresses : list string;
  collage_scale : spec_float
}.

Definition default_collage_scale : spec_float := Float64.literal 10 2.

(** ** The script *)

Definition ascii_art : string :=
"
                        ██╗   ██╗██╗ ██████╗
                        ██║   ██║██║██╔════╝
                        ██║   ██║██║██║     
                        ╚██╗ ██╔╝██║██║     
                         ╚████╔╝ ██║╚██████╗
                          ╚═══╝  ╚═╝ ╚═════╝
 ______     ______     __         __         ______     ______     ______    
/\  ___\   /\  __ \   /\ \       /\ \       /\  __ \   /\  ___\   /\  ___\   
\ \ \____  \ \ \/\ \  \ \ \____  \ \ \____  \ \  __ \  \ \ \__ \  \ \  __\   
 \ \_____\  \ \_____\  \ \_____\  \ \_____\  \ \_\ \_\  \ \_____\  \ \_____\ 
  \/_____/   \/_____/   \/_____/   \/_____/   \/_/\/_/   \/_____/   \/_____/ 
    ".

Definition print_ascii_vic : Py unit := print ascii_art.

(** [time.time()]: the next reading of the clock. *)
Definition time_time (W : world) : Py spec_float :=
  λ st, (Ok (clock W (ticks st)),
         State (fs st) (stdout st) (stderr st) (net st) (S (ticks st)) (progress_counter st)).

(** [open(file_path, 'r')] followed by [json.load]. *)
Definition open_and_load (W : world) (file_path : string) : Py json :=
  st <- get_state ;;
  match files (fs st) !! file_path with
  | Some (OtherFile text) => py_lift (json_loads W text)
  | Some (ImageFile _) => py_raise (OtherError "UnicodeDecodeError")
  | None =>
      if bool_decide (file_path ∈ dirs (fs st)) then py_raise IsADirectoryError
      else py_raise FileNotFoundError
  end.

Definition load_configuration (W : world) (file_path : string) : Py json :=
  try_except (open_and_load W file_path)
    (λ e, match e with
          | FileNotFoundError =>
              Some (print ("Configuration file not found: " +:+ file_path) ;;;
                    py_ret (JDict []))
          | JSONDecodeError =>
              Some (print ("Error decoding JSON from the file: " +:+ file_path) ;;;
                    py_ret (JDict []))
          | _ => None
          end).

Definition print_progress_bar (iteration total : Z) (prefix suffix : string)
    (length : Z) (fill : string) : Py unit :=
  total_f <- py_lift (Float64.of_int total) ;;
  ratio <- py_lift (Float64.int_div_float iteration total_f) ;;
  scaled <- py_lift (Float64.int_mul_float 100 ratio) ;;
  let percent := Float64.format_f 1 scaled in
  (if total =? 0 then py_raise ZeroDivisionError else py_ret ()) ;;;
  let filled_length := length * iteration / total in
  let bar := str_repeat fill filled_length +:+ str_repeat "-" (length - filled_length) in
  print_end (CR +:+ prefix +:+ " |" +:+ bar +:+ "| " +:+ percent +:+ "% " +:+ suffix) CR ;;;
  if iteration =? total then print "" else py_ret ().

(** *** The downloader *)

(** [session.get(call_url)] leaves for the network ... *)
Definition download_vic_request (W : world) (self : VicCollageCreator) (token_id : Z)
    : Py unit :=
  send (HttpGet (vic_base_url self) token_id).

(** ... and what the task does once the answer is there. *)
Definition response_status (r : http_result) : res Z :=
  match r with
  | Response status _ | ReadError status _ => Ok status
  | TransportError msg => Raise (OtherError msg)
  end.

Definition response_read (r : http_result) : res file :=
  match r with
  | Response _ content => Ok content
  | ReadError _ msg | TransportError msg => Raise (OtherError msg)
  end.

Definition download_vic_body (W : world) (self : VicCollageCreator) (token_id : Z)
    (callback : option (Py unit)) : Py unit :=
  let response := http_get W (vic_base_url self) token_id in
  status <- py_lift (response_status response) ;;
  (if status =? 200 then
     content <- py_lift (response_read response) ;;
     write_file "vics" (pretty token_id +:+ ".png") content ;;;
     print ("Saved Vic " +:+ pretty token_id +:+ ".png")
   else
     print ("Failed to get " +:+ pretty token_id +:+ ".png. Status code: "
            +:+ pretty status)) ;;;
  match callback with
  | Some cb => cb
  | None => py_ret ()
  end.

Definition download_vic_except (token_id : Z) (e : exn) : option (Py unit) :=
  if is_Exception e then
    Some (print ("Error downloading Vic " +:+ pretty token_id +:+ ".png: " +:+ exn_str e))
  else None.

Definition download_vic_resume (W : world) (self : VicCollageCreator) (token_id : Z)
    (callback : option (Py unit)) : Py unit :=
  try_except (download_vic_body W self token_id callback) (download_vic_except token_id).

Definition download_vic (W : world) (self : VicCollageCreator) (token_id : Z)
    (callback : option (Py unit)) : Py unit :=
  try_except
    (download_vic_request W self token_id ;;;
     download_vic_body W self token_id callback)
    (download_vic_except token_id).

(** *** [asyncio.gather] over the download tasks

    A task is created, then waits for its answer, then is finished. The
    event loop resumes one task at a time; a resumed task runs to its next
    suspension without interleaving. *)

Inductive phase := Created | Awaiting | Finished.

Definition task : Type := Z * phase.

Definition resume_task (W : world) (self : VicCollageCreator)
    (callback : option (Py unit)) (tasks : list task) (i : nat) : Py (list task) :=
  match tasks !! i with
  | Some (token_id, Created) =>
      download_vic_request W self token_id ;;;
      py_ret (<[i := (token_id, Awaiting)]> tasks)
  | Some (token_id, Awaiting) =>
      download_vic_resume W self token_id callback ;;;
      py_ret (<[i := (token_id, Finished)]> tasks)
  | _ => py_ret tasks
  end.

Definition run_tasks (W : world) (self : VicCollageCreator)
    (callback : option (Py unit)) (order : list nat) (tasks : list task)
    : Py (list task) :=
  for_each order tasks (resume_task W self callback).

(** The loop follows the order the environment gives, then resumes whatever
    is still unfinished, so that every task is run to its end. *)
Definition asyncio_gather (W : world) (self : VicCollageCreator)
    (callback : option (Py unit)) (token_ids : list Z) : Py unit :=
  let tasks := (λ t, (t, Created)) <$> token_ids in
  let every := seq 0 (length token_ids) in
  run_tasks W self callback (schedule W token_ids ++ every ++ every) tasks ;;;
  py_ret ().

(** *** The ownership resolver and batch downloader *)

Definition progress (total : Z) (iteration : Z) : Py unit :=
  print_progress_bar iteration total "Progress:" "Complete" 50 "█".

Definition update_progress_bar (total_vics : Z) : Py unit :=
  st <- get_state ;;
  set_counter (progress_counter st + 1) ;;;
  st <- get_state ;;
  progress total_vics (progress_counter st).

(** Lines 127-139: resolve, sort, make sure [vics] is there. *)
Definition resolve_tokens (W : world) (self : VicCollageCreator)
    (target_wallet_address : string) : Py (list Z) :=
  checksum_contract_address <- py_lift (to_checksum_address W (contract_address self)) ;;
  checksum_wallet_address <- py_lift (to_checksum_address W (JStr target_wallet_address)) ;;
  send (RpcTokensOfOwner checksum_wallet_address) ;;;
  token_ids <- py_lift (tokensOfOwner W self checksum_contract_address
                                      checksum_wallet_address) ;;
  let token_ids := merge_sort Z.le token_ids in
  os_makedirs "vics" ;;;
  py_ret token_ids.

(** Lines 141-151: the batch. *)
Definition download_all (W : world) (self : VicCollageCreator) (token_ids : list Z)
    : Py unit :=
  let total_vics := Z.of_nat (length token_ids) in
  progress total_vics 0 ;;;
  set_counter 0 ;;;
  asyncio_gather W self (Some (update_progress_bar total_vics)) token_ids.

Definition get_the_vics (W : world) (self : VicCollageCreator)
    (target_wallet_address : string) : Py (list Z) :=
  token_ids <- resolve_tokens W self target_wallet_address ;;
  download_all W self token_ids ;;;
  py_ret token_ids.

(** *** The collage composer *)

Definition BLACK : rgb := (0, 0, 0).
Definition WHITE : rgb := (255, 255, 255).

(** [max(...)] over a generator: [ValueError] when it yields nothing. *)
Definition py_max (l : list Z) : res Z :=
  match l with
  | [] => Raise ValueError
  | x :: l' => Ok (foldl Z.max x l')
  end.

(** [(int(img.width * collage_scale), int(img.height * collage_scale))]. *)
Definition scaled_size (img : image) (collage_scale : spec_float) : res (Z * Z) :=
  res_bind (Float64.int_mul_float (img_width img) collage_scale) (λ wf,
  res_bind (Float64.to_int wf) (λ w,
  res_bind (Float64.int_mul_float (img_height img) collage_scale) (λ hf,
  res_bind (Float64.to_int hf) (λ h,
  Ok (w, h))))).

(** [img.resize(size)]: Pillow refuses a size with a side below 1
    ([ValueError: height and width must be > 0]). *)
Definition Image_resize (img : image) (size : Z * Z) : res image :=
  if (size.1 <? 1) || (size.2 <? 1) then Raise ValueError
  else Ok (Resized img size.1 size.2).

(** Lines 171-179: one turn of the loop. *)
Definition scale_one (collage_scale : spec_float) (scaled_images : list image)
    (img_file : string) : Py (list image) :=
  let img_path := os_path_join "vics" img_file in
  found <- os_path_exists img_path ;;
  if found : bool then
    img <- Image_open img_path ;;
    size <- py_lift (scaled_size img collage_scale) ;;
    scaled_image <- py_lift (Image_resize img size) ;;
    py_ret (scaled_images ++ [scaled_image])
  else
    print ("Warning: File not found " +:+ img_path) ;;;
    py_ret scaled_images.

(** Lines 170-179. *)
Definition scale_images (image_files : list string) (collage_scale : spec_float)
    : Py (list image) :=
  for_each image_files [] (scale_one collage_scale).

(** Lines 185-187. *)
Definition grid_shape (num_images : Z) : res (Z * Z) :=
  res_bind (Float64.math_sqrt num_images) (λ root,
  res_bind (Float64.to_int root) (λ num_rows,
  res_bind (Float64.int_truediv num_images num_rows) (λ ratio,
  res_bind (Float64.math_ceil ratio) (λ num_cols,
  Ok (num_rows, num_cols))))).

(** The cursor of the paste loop. *)
Record cursor := Cursor {
  drawn : list draw_op;
  x_offset : Z;
  y_offset : Z
}.

(** Lines 196-204: one turn of the loop. *)
Definition paste_one (collage_width : Z) (c : cursor) (item : string * image)
    : Py cursor :=
  let '(image_file, image) := item in
  found <- os_path_exists (os_path_join "vics" image_file) ;;
  if found : bool then
    let file_name := splitext_root image_file in
    let ops := drawn c ++ [Paste image (x_offset c) (y_offset c);
                           Text (x_offset c) (y_offset c) file_name WHITE] in
    let x := x_offset c + img_width image in
    if collage_width <=? x
    then py_ret (Cursor ops 0 (y_offset c + img_height image))
    else py_ret (Cursor ops x (y_offset c))
  else py_ret c.

Definition paste_images (image_files : list string) (scaled_images : list image)
    (collage_width : Z) : Py (list draw_op) :=
  c <- for_each (zip image_files scaled_images) (Cursor [] 0 0) (paste_one collage_width) ;;
  py_ret (drawn c).

(** Lines 166-204: the canvas, or nothing when the function returns early. *)
Definition compose_canvas (image_files : list string) (collage_scale : spec_float)
    : Py (option image) :=
  match image_files with
  | [] =>
      print "No images to create a collage. Exiting..." ;;;
      py_ret None
  | _ =>
      scaled_images <- scale_images image_files collage_scale ;;
      match scaled_images with
      | [] =>
          print "No valid images found for collage. Exiting..." ;;;
          py_ret None
      | _ =>
          let num_images := Z.of_nat (length scaled_images) in
          shape <- py_lift (grid_shape num_images) ;;
          let '(num_rows, num_cols) := shape in
          max_w <- py_lift (py_max (img_width <$> scaled_images)) ;;
          let collage_width := max_w * num_cols in
          max_h <- py_lift (py_max (img_height <$> scaled_images)) ;;
          let collage_height := max_h * num_rows in
          ops <- paste_images image_files scaled_images collage_width ;;
          py_ret (Some (Collage collage_width collage_height BLACK ops))
      end
  end.

(** The longest side libjpeg encodes ([JPEG_MAX_DIMENSION]). *)
Definition JPEG_MAX_DIMENSION : Z := 65500.

(** Whether the JPEG encoder takes an image: it refuses an empty image
    ([ValueError]) and a side beyond the limit of libjpeg ([OSError]). *)
Definition jpeg_encodes (im : image) : res unit :=
  if (img_width im <? 1) || (img_height im <? 1) then Raise ValueError
  else if (JPEG_MAX_DIMENSION <? img_width im) || (JPEG_MAX_DIMENSION <? img_height im)
  then Raise (OtherError "encoder error -2 when writing image file")
  else Ok ().

(** [im.save(os.path.join(d, name))] for a [.jpg] name. The file is opened
    for writing first, so the directory must exist and the path must not be
    a directory; then the encoder runs. When it refuses the image the path
    is left as [failed_save] says and the error propagates. *)
Definition Image_save (W : world) (d name : string) (im : image) : Py unit :=
  st <- get_state ;;
  let f := fs st in
  let path := os_path_join d name in
  if negb (bool_decide (d ∈ dirs f)) then py_raise FileNotFoundError
  else if bool_decide (path ∈ dirs f) then py_raise IsADirectoryError
  else
    match jpeg_encodes im with
    | Ok _ => set_fs (Fsys (dirs f) (<[path := ImageFile im]> (files f)))
    | Raise e =>
        let existed := bool_decide (path ∈ dom (files f)) in
        set_fs (Fsys (dirs f)
                     (partial_alter (λ _, failed_save W im existed) path (files f))) ;;;
        py_raise e
    end.

(** Lines 206-223: save and report. *)
Definition save_and_report (W : world) (image_files : list string)
    (collage_scale : spec_float) (collage : image) : Py unit :=
  os_makedirs "output" ;;;
  now <- time_time W ;;
  epoch_time <- py_lift (Float64.to_int now) ;;
  let name := "vics_collage_" +:+ pretty epoch_time +:+ ".jpg" in
  let output_collage_path := os_path_join "output" name in
  Image_save W "output" name collage ;;;
  let total_images := Z.of_nat (length image_files) in
  let file_size := encoded_size W collage in
  print "" ;;;
  print ("Total number of images: " +:+ pretty total_images) ;;;
  hundred <- py_lift (Float64.of_int 100) ;;
  print ("Image scale for collage: "
         +:+ Float64.format_f 0 (SFmul Float64.prec Float64.emax collage_scale hundred)
         +:+ "%") ;;;
  print ("Total resolution: " +:+ pretty (img_width collage) +:+ "x"
         +:+ pretty (img_height collage) +:+ " pixels") ;;;
  kb <- py_lift (Float64.int_truediv file_size 1024) ;;
  print ("File size: " +:+ Float64.format_f 2 kb +:+ " KB") ;;;
  print ("Collage saved to " +:+ output_collage_path) ;;;
  print "".

Definition make_vic_collage (W : world) (image_files : list string)
    (collage_scale : spec_float) : Py unit :=
  canvas <- compose_canvas image_files collage_scale ;;
  match canvas with
  | None => py_ret ()
  | Some collage => save_and_report W image_files collage_scale collage
  end.

(** *** The orchestrator *)

(** [0.010 <= args.collage_scale <= 1.0]. *)
Definition scale_in_range (collage_scale : spec_float) : bool :=
  Float64.leb (Float64.literal 10 3) collage_scale
  && Float64.leb collage_scale (Float64.literal 10 1).

Definition usage_message : string :=
  "Collage scale must be a float between 0.010 and 1.0".

(** [parser.error(message)]: the message goes to stderr and the process
    exits with status 2. *)
Definition parser_error {A} (message : string) : Py A :=
  λ st, (Raise (SystemExit 2),
         State (fs st) (stdout st) (stderr st ++ [message]) (net st)
               (ticks st) (progress_counter st)).

Definition png_name (i : Z) : string := pretty i +:+ ".png".

(** Lines 249-253. *)
Definition collect_image_files (W : world) (creator : VicCollageCreator)
    (wallets : list string) : Py (list string) :=
  for_each wallets [] (λ all_image_files wallet_address,
    print ("Processing wallet: " +:+ wallet_address) ;;;
    token_ids <- get_the_vics W creator wallet_address ;;
    py_ret (all_image_files ++ (png_name <$> token_ids))).

(** Lines 229-247: clock, banner, configuration, creator, scale check. *)
Definition main_async_setup (W : world) (args : Namespace)
    : Py (spec_float * VicCollageCreator) :=
  start_time <- time_time W ;;
  print_ascii_vic ;;;
  config <- load_configuration W "config.json" ;;
  k <- py_lift (dict_get config "infura_api_key") ;;
  a <- py_lift (dict_get config "contract_address") ;;
  abi <- py_lift (dict_get config "contract_abi") ;;
  u <- py_lift (dict_get config "vic_base_url") ;;
  let creator := Creator k a abi u in
  (if negb (scale_in_range (collage_scale args))
   then parser_error usage_message else py_ret ()) ;;;
  py_ret (start_time, creator).

(** Line 260. *)
Definition report_elapsed (W : world) (start_time : spec_float) : Py unit :=
  now <- time_time W ;;
  print ("Total execution time: " +:+ Float64.format_f 2 (Float64.sub now start_time)
         +:+ " seconds").

(** Lines 255-260: the composer is called when there is a name. *)
Definition main_async_finish (W : world)
    (composer : list string → spec_float → Py unit) (args : Namespace)
    (start_time : spec_float) (all_image_files : list string) : Py unit :=
  match all_image_files with
  | [] => print "No images to create a collage."
  | _ => composer all_image_files (collage_scale args)
  end ;;;
  report_elapsed W start_time.

(** [main_async], with the composer it calls as an argument. *)
Definition main_async_with (W : world)
    (composer : list string → spec_float → Py unit) (args : Namespace) : Py unit :=
  started <- main_async_setup W args ;;
  let '(start_time, creator) := started in
  all_image_files <- collect_image_files W creator (target_wallet_addresses args) ;;
  main_async_finish W composer args start_time all_image_files.

Definition main_async (W : world) (args : Namespace) : Py unit :=
  main_async_with W (make_vic_collage W) args.

(** Lines 262-265. *)
Definition reset_working_directory : Py unit :=
  shutil_rmtree "vics" ;;;
  os_mkdir "vics".

Definition main (W : world) (args : Namespace) : Py unit :=
  main_async W args ;;;
  reset_working_directory.

(** ** Vocabulary of the specification

    The definitions below follow the words of the specification; the
    theorems compare them with the script above. *)

(** The ceiling of [n / r] for positive [r]. *)
Definition ceil_div (n r : Z) : Z := (n + r - 1) / r.

(** [m] is the greatest element of [l]. *)
Definition is_max (m : Z) (l : list Z) : Prop := m ∈ l ∧ Forall (λ x, x ≤ m) l.

(** The image stored under a file name of the working directory, if any. *)
Definition stored_image (f : fsys) (name : string) : option image :=
  match files f !! os_path_join "vics" name with
  | Some (ImageFile im) => Some im
  | _ => None
  end.

(** The images of the names that exist, in the order of the names. *)
Definition images_on_disk (f : fsys) (names : list string) : list image :=
  omap (stored_image f) names.

(** A name is readable when, if its path exists, the path holds an image
    whose sides fit a float exactly. *)
Definition readable (f : fsys) (name : string) : Prop :=
  path_exists f (os_path_join "vics" name) = true →
  ∃ im, stored_image f name = Some im ∧
        0 ≤ img_width im < 2 ^ 53 ∧ 0 ≤ img_height im < 2 ^ 53.

(** A non-negative integer rounded to 53 significant bits, ties to even:
    what a float keeps of it. *)
Definition round_to_53_bits (n : Z) : Z :=
  let excess := Z.log2 n - 52 in
  if excess <=? 0 then n
  else Float64.round_half_even n (2 ^ excess) * 2 ^ excess.

(** The floor of [side * scale] for a positive scale [m * 2^e]: the exact
    product is [side * m * 2^e], the float product keeps 53 bits of it, and
    the floor drops what lies below the unit. *)
Definition floor_of_product (side : Z) (scale : spec_float) : option Z :=
  match scale with
  | S754_finite false m e =>
      let product := round_to_53_bits (side * Z.pos m) in
      Some (if 0 <=? e then product * 2 ^ e else product / 2 ^ (- e))
  | _ => None
  end.

(** An image is successfully scaled when neither side shrinks below one
    pixel. *)
Definition keeps_both_sides (collage_scale : spec_float) (im : image) : bool :=
  match floor_of_product (img_width im) collage_scale,
        floor_of_product (img_height im) collage_scale with
  | Some w, Some h => (1 <=? w) && (1 <=? h)
  | _, _ => false
  end.

(** [s] is [im] resized to the floors of its sides times the scale. *)
Definition scaled_by (collage_scale : spec_float) (im s : image) : Prop :=
  ∃ w h,
    floor_of_product (img_width im) collage_scale = Some w ∧
    floor_of_product (img_height im) collage_scale = Some h ∧
    s = Resized im w h.

(** Left to right, top to bottom: paste and label at the cursor, advance
    [x] by the width, wrap when [x] reaches the canvas width. *)
Fixpoint walk (collage_width x y : Z) (items : list (string * image)) : list draw_op :=
  match items with
  | [] => []
  | (name, im) :: rest =>
      Paste im x y :: Text x y (splitext_root name) WHITE ::
      (if collage_width <=? x + img_width im
       then walk collage_width 0 (y + img_height im) rest
       else walk collage_width (x + img_width im) y rest)
  end.

(** [vics] is not a regular file, and whatever lies below [vics/] lies in a
    directory [vics]. *)
Definition vics_wf (f : fsys) : Prop :=
  files f !! "vics" = None ∧
  ∀ p, under "vics" p = true → p ∈ dirs f ∨ is_Some (files f !! p) → "vics" ∈ dirs f.

(** No path lies below the working directory. *)
Definition vics_empty (f : fsys) : Prop :=
  ∀ p, under "vics" p = true → (p ∉ dirs f) ∧ files f !! p = None.

(** The token ids the contract reports for a wallet. *)
Definition resolved_ids (W : world) (creator : VicCollageCreator) (wallet : string)
    : option (list Z) :=
  match to_checksum_address W (contract_address creator),
        to_checksum_address W (JStr wallet) with
  | Ok c, Ok a =>
      match tokensOfOwner W creator c a with
      | Ok ids => Some ids
      | Raise _ => None
      end
  | _, _ => None
  end.

(** [config.json] is absent, is not valid JSON, or holds a JSON object:
    the cases in which the configuration is a mapping. *)
Definition config_is_mapping (W : world) (f : fsys) : Prop :=
  match files f !! "config.json" with
  | Some (OtherFile text) =>
      match json_loads W text with
      | Ok (JDict _) | Raise JSONDecodeError => True
      | _ => False
      end
  | Some (ImageFile _) => False
  | None => "config.json" ∉ dirs f
  end.

(** ** Concrete runs

    Small environments and states on which the script is evaluated. *)

Module Scenario.

Definition config : json :=
  JDict [("infura_api_key", JStr "key");
         ("contract_address", JStr "0xC0");
         ("contract_abi", JList []);
         ("vic_base_url", JStr "https://host/vics")].

Definition creator : VicCollageCreator :=
  Creator (JStr "key") (JStr "0xC0") (JList []) (JStr "https://host/vics").

(** The image the host serves for a token. *)
Definition art (token_id : Z) : image := Bitmap token_id 1000 (500 + token_id).

(** A world in which every wallet owns [tokens], the host answers
    [answer] and the event loop follows [order]. *)
Definition world_of (tokens : list Z) (answer : Z → http_result) (order : list nat)
    : world :=
  {| json_loads := λ _, Ok config;
     to_checksum_address := λ j,
       match j with JStr s => Ok s | _ => Raise (OtherError "InvalidAddressFormat") end;
     tokensOfOwner := λ _ _ _, Ok tokens;
     http_get := λ _ token_id, answer token_id;
     schedule := λ _, order;
     clock := λ n, Float64.literal (1700000000250 + 1500 * Z.of_nat n) 3;
     encoded_size := λ _, 123456;
     failed_save := λ _ _, None |}.

Definition all_found (token_id : Z) : http_result :=
  Response 200 (ImageFile (art token_id)).

(** Token 2 has no art on the host. *)
Definition two_not_found (token_id : Z) : http_result :=
  if token_id =? 2 then Response 404 (OtherFile "Not Found") else all_found token_id.

(** The connection drops for token 7. *)
Definition seven_unreachable (token_id : Z) : http_result :=
  if token_id =? 7 then TransportError "Connection reset by peer" else all_found token_id.

Definition fs_config_only : fsys :=
  Fsys ∅ {["config.json" := OtherFile "{...}"]}.

(** A previous run left [vics/9.png] behind. *)
Definition fs_stale : fsys :=
  Fsys {["vics"]} (<["vics/9.png" := ImageFile (art 9)]> {["config.json" := OtherFile "{...}"]}).

(** [vics/] holds 2.png and 3.png but not 1.png. *)
Definition fs_two_of_three : fsys :=
  Fsys {["vics"]} (<["vics/2.png" := ImageFile (art 2)]>
                   (<["vics/3.png" := ImageFile (art 3)]> ∅)).

(** [vics/] holds 1.png, 2.png and 3.png. *)
Definition fs_three : fsys :=
  Fsys {["vics"]} (<["vics/1.png" := ImageFile (art 1)]>
                   (<["vics/2.png" := ImageFile (art 2)]>
                    (<["vics/3.png" := ImageFile (art 3)]> ∅))).

(** [vics/] holds 1.png to 5.png. *)
Definition fs_five : fsys :=
  Fsys {["vics"]} (<["vics/1.png" := ImageFile (art 1)]>
                   (<["vics/2.png" := ImageFile (art 2)]>
                    (<["vics/3.png" := ImageFile (art 3)]>
                     (<["vics/4.png" := ImageFile (art 4)]>
                      (<["vics/5.png" := ImageFile (art 5)]> ∅))))).

Definition start (f : fsys) : state := State f [] [] [] 0 0.

Definition three_names : list string := ["1.png"; "2.png"; "3.png"].

(** Five names, not in ascending order. *)
Definition five_names : list string := ["3.png"; "1.png"; "5.png"; "2.png"; "4.png"].

End Scenario.

(** ** Vocabulary of the proofs *)

(** A shift record that lost no bit. *)
Definition exact_record (mrs : shr_record) : Prop :=
  shr_r mrs = false ∧ shr_s mrs = false.

(** The float that rounding yields from a mantissa of at most 53 bits, or
    from [2^53] after the carry. *)
Definition rounded (sx : bool) (m' e1 : Z) : spec_float :=
  if m' <? 2 ^ 53 then S754_finite sx (Z.to_pos m') e1
  else S754_finite sx (Z.to_pos (2 ^ 52)) (e1 + 1).

(** The bits a shift record keeps above the sticky bit: twice the mantissa
    plus the round bit. *)
Definition shr_x (mrs : shr_record) : Z :=
  2 * shr_m mrs + (if shr_r mrs then 1 else 0).

(** The line the composer prints for a name that is not on disk. *)
Definition warning (name : string) : string :=
  "Warning: File not found " +:+ os_path_join "vics" name +:+ LF.

Definition warnings (f : fsys) (names : list string) : list string :=
  warning <$> filter (λ name, path_exists f (os_path_join "vics" name) = false) names.

(** [I] holds after [m] whenever it held before. *)
Definition inv (I : state → Prop) {A} (m : Py A) : Prop :=
  ∀ st, I st → I (m st).2.

(** An invariant that reads only the file system and standard error is
    kept by everything that writes elsewhere. *)
Definition observes (J : fsys → list string → Prop) : state → Prop :=
  λ st, J (fs st) (stderr st).

Definition wf_state : state → Prop := observes (λ f _, vics_wf f).

(** Standard error is written by [parser.error] alone. *)
Definition stderr_is (x : list string) : state → Prop := observes (λ _ e, e = x).

(** ** Vocabulary of the further properties *)

(** Where the downloader stores the image of a token. *)
Definition vic_path (token_id : Z) : string := os_path_join "vics" (png_name token_id).

(** The body the downloader stores for a token when the directories are
    [d]: the answer has status 200, [vics] exists and the path is free. *)
Definition stored (W : world) (self : VicCollageCreator) (d : gset string) (token_id : Z)
    : option file :=
  match http_get W (vic_base_url self) token_id with
  | Response status body =>
      if (status =? 200) && bool_decide ("vics" ∈ d)
         && negb (bool_decide (vic_path token_id ∈ d))
      then Some body else None
  | _ => None
  end.

(** Whether the exchange for a token runs through to the callback. *)
Definition completes (W : world) (self : VicCollageCreator) (d : gset string) (token_id : Z)
    : bool :=
  match http_get W (vic_base_url self) token_id with
  | Response status _ =>
      negb (status =? 200) || bool_decide (is_Some (stored W self d token_id))
  | ReadError status _ => negb (status =? 200)
  | TransportError _ => false
  end.

(** The state a finished exchange leaves, [out] being what it printed. *)
Definition after_exchange (W : world) (self : VicCollageCreator) (token_id : Z)
    (out : list string) (st : state) : state :=
  let d := dirs (fs st) in
  State (Fsys d (match stored W self d token_id with
                 | Some body => <[vic_path token_id := body]> (files (fs st))
                 | None => files (fs st)
                 end))
        (stdout st ++ out) (stderr st) (net st) (ticks st)
        (progress_counter st + (if completes W self d token_id then 1 else 0)).

(** A resumed task moves on by one phase. *)
Definition next_phase (p : phase) : phase :=
  match p with Created => Awaiting | _ => Finished end.

Definition advance (t : task) : task := (t.1, next_phase t.2).

(** The task list after the event loop resumed task [i]. *)
Definition advance_at (tasks : list task) (i : nat) : list task :=
  match tasks !! i with
  | Some t => <[i := advance t]> tasks
  | None => tasks
  end.

(** The tokens whose request has left, and those whose task is over. *)
Definition started (tasks : list task) : list Z :=
  omap (λ t : task, match t.2 with Created => None | _ => Some t.1 end) tasks.

Definition finished (tasks : list task) : list Z :=
  omap (λ t : task, match t.2 with Finished => Some t.1 | _ => None end) tasks.

(** What holds between the start [st0] of a batch and a later state [st]
    in which the tasks are [tasks]. *)
Record batch_inv (W : world) (self : VicCollageCreator) (st0 : state)
    (tasks : list task) (st : state) : Prop := BatchInv {
  bi_dirs : dirs (fs st) = dirs (fs st0);
  bi_stderr : stderr st = stderr st0;
  bi_ticks : ticks st = ticks st0;
  bi_counter :
    progress_counter st
    = Z.of_nat (length (filter (λ t, completes W self (dirs (fs st0)) t = true)
                               (finished tasks)));
  bi_net : ∃ sent, net st = net st0 ++ sent ∧
                   sent ≡ₚ HttpGet (vic_base_url self) <$> started tasks;
  bi_stored : ∀ t body, t ∈ finished tasks → stored W self (dirs (fs st0)) t = Some body →
              files (fs st) !! vic_path t = Some body;
  bi_others : ∀ p, (∀ t, t ∈ finished tasks → is_Some (stored W self (dirs (fs st0)) t) →
                         vic_path t ≠ p) →
              files (fs st) !! p = files (fs st0) !! p
}.

(** The line [print_progress_bar] writes. *)
Definition progress_line (prefix suffix fill : string) (length filled : Z) (percent : string)
    : string :=
  (CR +:+ prefix +:+ " |" +:+ (str_repeat fill filled +:+ str_repeat "-" (length - filled))
      +:+ "| " +:+ percent +:+ "% " +:+ suffix) +:+ CR.

(** The drawing operations that put item [k], [k+1], ... of a list on the
    cells of a grid of [cols] columns, each cell [w] wide and [h] high. *)
Fixpoint cells (w h cols k : Z) (items : list (string * image)) : list draw_op :=
  match items with
  | [] => []
  | (name, im) :: rest =>
      Paste im (w * (k mod cols)) (h * (k / cols)) ::
      Text (w * (k mod cols)) (h * (k / cols)) (splitext_root name) WHITE ::
      cells w h cols (k + 1) rest
  end.

(** Where the composer saves the collage made at [epoch_time]. *)
Definition collage_path (epoch_time : Z) : string :=
  os_path_join "output" ("vics_collage_" +:+ pretty epoch_time +:+ ".jpg").

(** The characters of a printed integer: decimal digits and the sign. *)
Definition token_char (a : ascii) : bool :=
  let n := nat_of_ascii a in
  ((48 <=? n)%nat && (n <=? 57)%nat) || (n =? 45)%nat.

Fixpoint token_chars (s : string) : bool :=
  match s with
  | EmptyString => true
  | String a s' => token_char a && token_chars s'
  end.

(** [f] differs from [f0] only below [vics/] and [output/], and in the
    two directories themselves. *)
Definition untouched (f0 f : fsys) : Prop :=
  (∀ p, under "vics" p = false → under "output" p = false →
        files f !! p = files f0 !! p) ∧
  (∀ p, p ≠ "vics" → p ≠ "output" → under "vics" p = false →
        (p ∈ dirs f ↔ p ∈ dirs f0)).

Definition untouched_state (f0 : fsys) : state → Prop := observes (λ f _, untouched f0 f).

(** A world like those of [Scenario] whose JSON decoder yields [config]. *)
Definition world_decoding (config : json) : world :=
  let W := Scenario.world_of [] Scenario.all_found [] in
  World (λ _, Ok config) (to_checksum_address W) (tokensOfOwner W) (http_get W)
        (schedule W) (clock W) (encoded_size W) (failed_save W).

(** Bookkeeping for the invariant proofs. *)
Create HintDb inv_db discriminated.


(** * Properties *)

(** ** Rounding in binary64 *)

Section FloatFacts.
Import Float64.

Lemma digits2_pos_log2 p : Z.pos (digits2_pos p) = Z.log2 (Z.pos p) + 1.
Proof.
  induction p as [p IH|p IH|]; simpl digits2_pos; [| |reflexivity].
  - rewrite Pos2Z.inj_succ, IH. change (Z.pos p~1) with (2 * Z.pos p + 1).
    rewrite Z.log2_succ_double by lia. lia.
  - rewrite Pos2Z.inj_succ, IH. change (Z.pos p~0) with (2 * Z.pos p).
    rewrite Z.log2_double by lia. lia.
Qed.

Lemma Zdigits2_unique m d :
  0 < d → 2 ^ (d - 1) ≤ m < 2 ^ d → Zdigits2 m = d.
Proof.
  intros Hd [Hlo Hhi].
  assert (0 < m) by (pose proof (Z.pow_pos_nonneg 2 (d - 1)); lia).
  destruct m as [|p|p]; try lia. simpl. rewrite digits2_pos_log2.
  rewrite (Z.log2_unique (Z.pos p) (d - 1)); [lia|lia|].
  replace (Z.succ (d - 1)) with d by lia. lia.
Qed.

Lemma Zdigits2_bounds m :
  0 < m → 2 ^ (Zdigits2 m - 1) ≤ m < 2 ^ Zdigits2 m.
Proof.
  intros Hm. destruct m as [|p|p]; try lia. simpl. rewrite digits2_pos_log2.
  pose proof (Z.log2_spec (Z.pos p) ltac:(lia)) as [? ?].
  replace (Z.log2 (Z.pos p) + 1 - 1) with (Z.log2 (Z.pos p)) by lia.
  replace (Z.log2 (Z.pos p) + 1) with (Z.succ (Z.log2 (Z.pos p))) by lia. lia.
Qed.

Lemma shr_1_m mrs : 0 ≤ shr_m mrs → shr_m (shr_1 mrs) = shr_m mrs / 2.
Proof.
  destruct mrs as [m r s]. simpl. intros Hm.
  destruct m as [|[p|p|]|p]; try lia; simpl shr_m; try reflexivity.
  - apply (Z.div_unique _ _ _ 1); lia.
  - apply (Z.div_unique _ _ _ 0); lia.
Qed.

Lemma shr_1_nonneg mrs : 0 ≤ shr_m mrs → 0 ≤ shr_m (shr_1 mrs).
Proof. intros H. rewrite shr_1_m by done. apply Z.div_pos; lia. Qed.

Lemma iter_shr_1_m p : ∀ mrs,
  0 ≤ shr_m mrs →
  0 ≤ shr_m (SpecFloat.iter_pos shr_1 p mrs) ∧
  shr_m (SpecFloat.iter_pos shr_1 p mrs) = shr_m mrs / 2 ^ Z.pos p.
Proof.
  induction p as [p IH|p IH|]; intros mrs Hm; simpl SpecFloat.iter_pos.
  - pose proof (shr_1_nonneg _ Hm) as H1.
    destruct (IH _ H1) as [H2 E2]. destruct (IH _ H2) as [H3 E3].
    split; [done|]. rewrite E3, E2, shr_1_m by done.
    rewrite !Z.div_div by (try apply Z.pow_pos_nonneg; lia).
    f_equal. rewrite Pos2Z.inj_xI.
    rewrite <- Z.pow_add_r, <- (Z.pow_1_r 2) at 1 by lia.
    rewrite <- Z.pow_add_r by lia. f_equal. lia.
  - destruct (IH _ Hm) as [H2 E2]. destruct (IH _ H2) as [H3 E3].
    split; [done|]. rewrite E3, E2.
    rewrite !Z.div_div by (try apply Z.pow_pos_nonneg; lia).
    f_equal. rewrite Pos2Z.inj_xO.
    rewrite <- Z.pow_add_r by lia. f_equal. lia.
  - split; [by apply shr_1_nonneg|]. by rewrite shr_1_m.
Qed.


Lemma shr_1_exact mrs :
  0 ≤ shr_m mrs → exact_record mrs → shr_m mrs mod 2 = 0 → exact_record (shr_1 mrs).
Proof.
  destruct mrs as [m r s]. intros Hm [Hr Hs] Hev. simpl in *. subst.
  destruct m as [|[p|p|]|p]; try lia; try done.
  rewrite Pos2Z.inj_xI in Hev. 
  rewrite Z.add_comm, Z.mul_comm, Z.mod_add in Hev by lia. done.
Qed.

Lemma iter_shr_1_exact p : ∀ mrs,
  0 ≤ shr_m mrs → exact_record mrs → shr_m mrs mod 2 ^ Z.pos p = 0 →
  exact_record (SpecFloat.iter_pos shr_1 p mrs).
Proof.
  assert (Hdiv : ∀ a b c, 0 < b → 0 < c → a mod (b * c) = 0 → a mod b = 0 ∧ (a / b) mod c = 0).
  { intros a b c Hb Hc H. rewrite Z.rem_mul_r in H by lia.
    pose proof (Z.mod_pos_bound a b Hb). pose proof (Z.mod_pos_bound (a / b) c Hc). nia. }
  induction p as [p IH|p IH|]; intros mrs Hm Hex Hmod; simpl SpecFloat.iter_pos.
  - change (Z.pos p~1) with (2 * Z.pos p + 1) in Hmod.
    replace (2 ^ (2 * Z.pos p + 1)) with (2 * (2 ^ Z.pos p * 2 ^ Z.pos p)) in Hmod
      by (rewrite <- Z.pow_add_r, <- Z.pow_succ_r by lia; f_equal; lia).
    assert (0 < 2 ^ Z.pos p) by (apply Z.pow_pos_nonneg; lia).
    apply Hdiv in Hmod as [M1 M2]; [|lia|lia].
    apply Hdiv in M2 as [M2 M3]; [|lia|lia].
    pose proof (shr_1_nonneg _ Hm) as H1.
    destruct (iter_shr_1_m p _ H1) as [H2 E2].
    apply IH; [done| |].
    + apply IH; [done| |]. * by apply shr_1_exact. * by rewrite shr_1_m.
    + rewrite E2, shr_1_m by done. done.
  - change (Z.pos p~0) with (2 * Z.pos p) in Hmod.
    replace (2 ^ (2 * Z.pos p)) with (2 ^ Z.pos p * 2 ^ Z.pos p) in Hmod
      by (rewrite <- Z.pow_add_r by lia; f_equal; lia).
    assert (0 < 2 ^ Z.pos p) by (apply Z.pow_pos_nonneg; lia).
    apply Hdiv in Hmod as [M1 M2]; [|lia|lia].
    destruct (iter_shr_1_m p _ Hm) as [H2 E2].
    apply IH; [done| |].
    + by apply IH.
    + by rewrite E2.
  - apply shr_1_exact; done.
Qed.

Lemma shr_spec mrs e n :
  0 ≤ shr_m mrs →
  shr_m (shr mrs e n).1 = shr_m mrs / 2 ^ Z.max 0 n ∧
  (shr mrs e n).2 = e + Z.max 0 n ∧
  (exact_record mrs → shr_m mrs mod 2 ^ Z.max 0 n = 0 → exact_record (shr mrs e n).1).
Proof.
  intros Hm. destruct n as [|p|p]; simpl shr; simpl fst; simpl snd.
  - change (Z.max 0 0) with 0. rewrite Z.pow_0_r, Z.div_1_r.
    split; [done|]. split; [lia|]. by intros.
  - replace (Z.max 0 (Z.pos p)) with (Z.pos p) by lia.
    destruct (iter_shr_1_m p mrs Hm) as [_ E].
    split; [done|]. split; [done|]. intros; by apply iter_shr_1_exact.
  - replace (Z.max 0 (Z.neg p)) with 0 by lia.
    rewrite Z.pow_0_r, Z.div_1_r.
    split; [done|]. split; [lia|]. by intros.
Qed.

Lemma shr_record_of_loc_m m l : shr_m (shr_record_of_loc m l) = m.
Proof. by destruct l as [|[]]. Qed.

Lemma loc_of_shr_record_of_loc m l : loc_of_shr_record (shr_record_of_loc m l) = l.
Proof. by destruct l as [|[]]. Qed.

Lemma exact_record_loc mrs : exact_record mrs → loc_of_shr_record mrs = loc_Exact.
Proof. destruct mrs as [m r s]. intros [? ?]; simpl in *; by subst. Qed.

Lemma round_nearest_even_bounds m l :
  m ≤ round_nearest_even m l ≤ m + 1.
Proof. destruct l as [|[]]; simpl; try lia. destruct (Z.even m); lia. Qed.

Lemma fexp_normal x : -1074 ≤ x - 53 → fexp 53 1024 x = x - 53.
Proof. unfold fexp, emin. lia. Qed.

Lemma binary_round_aux_normal sx m e l :
  0 < m → -1074 ≤ Zdigits2 m + e - 53 →
  let sh := Z.max 0 (Zdigits2 m - 53) in
  ∃ m', m / 2 ^ sh ≤ m' ≤ m / 2 ^ sh + 1 ∧ 0 < m' ≤ 2 ^ 53 ∧
        (l = loc_Exact → m mod 2 ^ sh = 0 → m' = m / 2 ^ sh) ∧
        binary_round_aux 53 1024 sx m e l =
          if m' <? 2 ^ 53
          then (if e + sh <=? 971 then S754_finite sx (Z.to_pos m') (e + sh)
                else S754_infinity sx)
          else (if e + sh + 1 <=? 971 then S754_finite sx (Z.to_pos (2 ^ 52)) (e + sh + 1)
                else S754_infinity sx).
Proof.
  intros Hm Hnorm sh.
  pose proof (Zdigits2_bounds m Hm) as [Hlo Hhi].
  set (d := Zdigits2 m) in *.
  assert (Hd : 0 < d).
  { destruct m as [|p|p]; try lia. unfold d. simpl. lia. }
  assert (Hsh : 0 ≤ sh ≤ d - 1) by (unfold sh; lia).
  assert (Hp : 0 < 2 ^ sh) by (apply Z.pow_pos_nonneg; lia).
  set (m1 := m / 2 ^ sh).
  assert (Hm1 : 2 ^ (d - sh - 1) ≤ m1 < 2 ^ (d - sh)).
  { unfold m1. split.
    - apply Z.div_le_lower_bound; [lia|]. rewrite <- Z.pow_add_r by lia.
      replace (sh + (d - sh - 1)) with (d - 1) by lia. lia.
    - apply Z.div_lt_upper_bound; [lia|]. rewrite <- Z.pow_add_r by lia.
      replace (sh + (d - sh)) with d by lia. lia. }
  assert (Hm1pos : 0 < m1).
  { pose proof (Z.pow_pos_nonneg 2 (d - sh - 1)). lia. }
  assert (Hm153 : m1 < 2 ^ 53).
  { eapply Z.lt_le_trans; [apply Hm1|]. apply Z.pow_le_mono_r; unfold sh; lia. }
  unfold binary_round_aux, shr_fexp.
  fold d. rewrite (fexp_normal (d + e)) by lia.
  replace (d + e - 53 - e) with (d - 53) by lia.
  pose proof (shr_spec (shr_record_of_loc m l) e (d - 53)) as Hs.
  rewrite shr_record_of_loc_m in Hs. destruct Hs as (E1 & E2 & E3); [lia|].
  fold sh in E1, E2, E3. fold m1 in E1.
  destruct (shr (shr_record_of_loc m l) e (d - 53)) as [mrs' e'].
  simpl in E1, E2, E3. subst e'.
  set (m' := round_nearest_even (shr_m mrs') (loc_of_shr_record mrs')).
  pose proof (round_nearest_even_bounds (shr_m mrs') (loc_of_shr_record mrs')) as Hr.
  fold m' in Hr. rewrite E1 in Hr.
  exists m'. split; [done|]. split; [lia|]. split.
  { intros -> Hmod. unfold m'. rewrite exact_record_loc.
    - simpl. done.
    - apply E3; [|done]. done. }
  assert (He1 : -1074 ≤ e + sh) by (unfold sh; lia).
  destruct (Z.ltb_spec m' (2 ^ 53)) as [Hlt|Hge].
  - assert (Hd' : Zdigits2 m' ≤ 53).
    { pose proof (Zdigits2_bounds m' ltac:(lia)) as [Hl' _].
      destruct (Z.le_gt_cases (Zdigits2 m') 53) as [|Hgt]; [done|].
      assert (2 ^ 53 ≤ 2 ^ (Zdigits2 m' - 1)) by (apply Z.pow_le_mono_r; lia). lia. }
    pose proof (shr_spec (shr_record_of_loc m' loc_Exact) (e + sh)
                  (fexp 53 1024 (Zdigits2 m' + (e + sh)) - (e + sh))) as Hs.
    rewrite shr_record_of_loc_m in Hs. destruct Hs as (F1 & F2 & _); [lia|].
    replace (Z.max 0 (fexp 53 1024 (Zdigits2 m' + (e + sh)) - (e + sh))) with 0 in F1, F2
      by (unfold fexp, emin; lia).
    destruct (shr _ _ _) as [mrs'' e''].
    simpl in F1, F2. subst e''. rewrite F1, Z.pow_0_r, Z.div_1_r.
    replace (e + sh + 0) with (e + sh) by lia.
    destruct m' as [|p'|p']; try lia. simpl Z.to_pos. reflexivity.
  - assert (m' = 2 ^ 53) by lia.
    pose proof (shr_spec (shr_record_of_loc m' loc_Exact) (e + sh)
                  (fexp 53 1024 (Zdigits2 m' + (e + sh)) - (e + sh))) as Hs.
    rewrite shr_record_of_loc_m in Hs. destruct Hs as (F1 & F2 & _); [lia|].
    assert (Zdigits2 m' = 54) as Hd54 by (subst m'; rewrite H; reflexivity).
    rewrite Hd54 in F1, F2.
    replace (Z.max 0 (fexp 53 1024 (54 + (e + sh)) - (e + sh))) with 1 in F1, F2
      by (unfold fexp, emin; lia).
    rewrite Hd54.
    destruct (shr _ _ _) as [mrs'' e''].
    simpl in F1, F2. subst e''. rewrite F1, H. 
    change (2 ^ 53 / 2 ^ 1) with (2 ^ 52).
    change (2 ^ 52) with (Z.pos (Z.to_pos (2 ^ 52))) at 1.
    cbv iota beta. reflexivity.
Qed.


Lemma rounded_to_int sx m' e1 :
  0 < m' ≤ 2 ^ 53 →
  to_int (rounded sx m' e1) = Ok (cond_Zopp sx (Z.shiftl m' e1)).
Proof.
  intros Hm. unfold rounded. destruct (Z.ltb_spec m' (2 ^ 53)).
  - simpl. rewrite Z2Pos.id by lia. done.
  - assert (m' = 2 ^ 53) as -> by lia. simpl to_int. do 2 f_equal.
    change (Z.pos (Z.to_pos (2 ^ 52))) with (2 ^ 52).
    change (2 ^ 53) with (Z.shiftl (2 ^ 52) 1).
    rewrite Z.shiftl_shiftl by lia. f_equal. lia.
Qed.

Lemma rounded_ceil sx m' e1 :
  0 < m' ≤ 2 ^ 53 →
  math_ceil (rounded sx m' e1) = Ok (- Z.shiftl (cond_Zopp (negb sx) m') e1).
Proof.
  intros Hm. unfold rounded. destruct (Z.ltb_spec m' (2 ^ 53)).
  - simpl. rewrite Z2Pos.id by lia. done.
  - assert (m' = 2 ^ 53) as -> by lia. simpl math_ceil. do 2 f_equal.
    change (Z.pos (Z.to_pos (2 ^ 52))) with (2 ^ 52).
    destruct sx; simpl cond_Zopp.
    + change (2 ^ 53) with (Z.shiftl (2 ^ 52) 1).
      rewrite Z.shiftl_shiftl by lia. f_equal. lia.
    + change (- 2 ^ 53) with (Z.shiftl (- 2 ^ 52) 1).
      rewrite Z.shiftl_shiftl by lia. f_equal. lia.
Qed.

Lemma binary_round_aux_rounded sx m e l :
  0 < m → -1074 ≤ Zdigits2 m + e - 53 →
  let sh := Z.max 0 (Zdigits2 m - 53) in
  e + sh < 971 →
  ∃ m', m / 2 ^ sh ≤ m' ≤ m / 2 ^ sh + 1 ∧ 0 < m' ≤ 2 ^ 53 ∧
        (l = loc_Exact → m mod 2 ^ sh = 0 → m' = m / 2 ^ sh) ∧
        binary_round_aux 53 1024 sx m e l = rounded sx m' (e + sh).
Proof.
  intros Hm Hn sh He.
  destruct (binary_round_aux_normal sx m e l Hm Hn) as (m' & B1 & B2 & B3 & E).
  exists m'. repeat split; try tauto. rewrite E. unfold rounded. fold sh.
  destruct (m' <? 2 ^ 53).
  - destruct (Z.leb_spec (e + sh) 971); [done|lia].
  - destruct (Z.leb_spec (e + sh + 1) 971); [done|lia].
Qed.

(** *** Rounding to nearest, written out *)

Lemma shr_1_bits mrs :
  0 ≤ shr_m mrs →
  shr_x (shr_1 mrs) = shr_x mrs / 2 ∧
  shr_s (shr_1 mrs) = shr_s mrs || negb (shr_x mrs mod 2 =? 0).
Proof.
  destruct mrs as [m r s]. unfold shr_x. simpl. intros Hm.
  assert (Hx : ∀ q (b : bool), (2 * q + (if b then 1 else 0)) / 2 = q
                               ∧ negb ((2 * q + (if b then 1 else 0)) mod 2 =? 0) = b).
  { intros q b. split.
    - symmetry. apply (Z.div_unique _ 2 q (if b then 1 else 0)); destruct b; lia.
    - rewrite <- (Z.mod_unique (2 * q + (if b then 1 else 0)) 2 q (if b then 1 else 0));
        destruct b; (done || lia). }
  destruct (Hx m r) as [-> ->].
  destruct m as [|[p|p|]|p]; try lia; simpl; (split; [lia|by destruct r, s]).
Qed.

Lemma sticky_compose x a b (s : bool) :
  0 < a → 0 < b →
  (s || negb (x mod a =? 0)) || negb ((x / a) mod b =? 0) = s || negb (x mod (a * b) =? 0).
Proof.
  intros Ha Hb. rewrite Z.rem_mul_r by lia.
  pose proof (Z.mod_pos_bound x a Ha). pose proof (Z.mod_pos_bound (x / a) b Hb).
  destruct s; [done|]. simpl.
  destruct (Z.eqb_spec (x mod a) 0), (Z.eqb_spec ((x / a) mod b) 0),
    (Z.eqb_spec (x mod a + a * ((x / a) mod b)) 0); simpl; try done; nia.
Qed.

Lemma iter_shr_1_bits p : ∀ mrs,
  0 ≤ shr_m mrs →
  shr_x (SpecFloat.iter_pos shr_1 p mrs) = shr_x mrs / 2 ^ Z.pos p ∧
  shr_s (SpecFloat.iter_pos shr_1 p mrs)
  = shr_s mrs || negb (shr_x mrs mod 2 ^ Z.pos p =? 0).
Proof.
  induction p as [p IH|p IH|]; intros mrs Hm; simpl SpecFloat.iter_pos.
  - pose proof (shr_1_nonneg _ Hm) as H1.
    destruct (iter_shr_1_m p _ H1) as [H2 _].
    destruct (shr_1_bits mrs Hm) as [X1 S1].
    destruct (IH _ H1) as [X2 S2]. destruct (IH _ H2) as [X3 S3].
    assert (Hp : 0 < 2 ^ Z.pos p) by (apply Z.pow_pos_nonneg; lia).
    replace (2 ^ Z.pos p~1) with (2 * (2 ^ Z.pos p * 2 ^ Z.pos p))
      by (rewrite (Pos2Z.inj_xI p); replace (2 * Z.pos p + 1) with (1 + (Z.pos p + Z.pos p)) by lia;
          rewrite !Z.pow_add_r by lia; reflexivity).
    split.
    + rewrite X3, X2, X1. rewrite !Z.div_div by lia. done.
    + rewrite S3, S2, S1, X2, X1.
      rewrite (sticky_compose (shr_x mrs `div` 2) (2 ^ Z.pos p) (2 ^ Z.pos p)) by lia.
      rewrite (sticky_compose (shr_x mrs) 2 (2 ^ Z.pos p * 2 ^ Z.pos p)) by lia. done.
  - destruct (iter_shr_1_m p _ Hm) as [H2 _].
    destruct (IH _ Hm) as [X2 S2]. destruct (IH _ H2) as [X3 S3].
    assert (Hp : 0 < 2 ^ Z.pos p) by (apply Z.pow_pos_nonneg; lia).
    replace (2 ^ Z.pos p~0) with (2 ^ Z.pos p * 2 ^ Z.pos p)
      by (rewrite (Pos2Z.inj_xO p); replace (2 * Z.pos p) with (Z.pos p + Z.pos p) by lia;
          rewrite Z.pow_add_r by lia; reflexivity).
    split.
    + rewrite X3, X2. rewrite !Z.div_div by lia. done.
    + rewrite S3, S2, X2. rewrite sticky_compose by lia. done.
  - change (2 ^ 1) with 2. by apply shr_1_bits.
Qed.

Lemma round_of_record mrs m n :
  0 < n → 0 ≤ m →
  shr_m mrs = m / n → shr_x mrs = 2 * m / n → shr_s mrs = negb (2 * m mod n =? 0) →
  round_nearest_even (shr_m mrs) (loc_of_shr_record mrs) = round_half_even m n.
Proof.
  intros Hn Hm. destruct mrs as [q r s]. unfold shr_x. simpl. intros -> Hx ->.
  unfold round_half_even.
  pose proof (Z.div_mod m n ltac:(lia)) as Hdm.
  pose proof (Z.mod_pos_bound m n Hn) as Hmb.
  set (q := m / n) in *. set (R := m mod n) in *.
  pose proof (Z.div_mod (2 * m) n ltac:(lia)) as Hdm2.
  pose proof (Z.mod_pos_bound (2 * m) n Hn) as Hmb2.
  rewrite <- Hx in Hdm2.
  destruct (Z.eqb_spec (2 * m mod n) 0) as [Hz|Hnz]; simpl negb.
  - destruct r; simpl.
    + assert (2 * R = n) by nia. rewrite (proj2 (Z.compare_eq_iff _ _)) by done. done.
    + assert (R = 0) by nia. rewrite (proj2 (Z.compare_lt_iff _ _)) by lia. done.
  - destruct r; simpl.
    + rewrite (proj2 (Z.compare_gt_iff _ _)) by nia. done.
    + rewrite (proj2 (Z.compare_lt_iff _ _)) by nia. done.
Qed.

Lemma shr_round m e n :
  0 ≤ m →
  let mrs := (shr (shr_record_of_loc m loc_Exact) e n).1 in
  round_nearest_even (shr_m mrs) (loc_of_shr_record mrs)
  = round_half_even m (2 ^ Z.max 0 n).
Proof.
  intros Hm. destruct n as [|p|p]; simpl shr; simpl fst.
  - change (Z.max 0 0) with 0. unfold round_half_even. simpl.
    rewrite Z.mod_1_r, Z.div_1_r. done.
  - replace (Z.max 0 (Z.pos p)) with (Z.pos p) by lia.
    assert (Hp : 0 < 2 ^ Z.pos p) by (apply Z.pow_pos_nonneg; lia).
    destruct (iter_shr_1_m p (Build_shr_record m false false) Hm) as [_ E1].
    destruct (iter_shr_1_bits p (Build_shr_record m false false) Hm) as [E2 E3].
    apply round_of_record; try done.
    + rewrite E2. unfold shr_x. simpl. by rewrite Z.add_0_r.
    + rewrite E3. unfold shr_x. simpl. by rewrite Z.add_0_r.
  - replace (Z.max 0 (Z.neg p)) with 0 by lia. unfold round_half_even. simpl.
    rewrite Z.mod_1_r, Z.div_1_r. done.
Qed.

Lemma round_half_even_bounds num den :
  num / den ≤ round_half_even num den ≤ num / den + 1.
Proof.
  unfold round_half_even. destruct (2 * (num mod den) ?= den); [|lia|lia].
  destruct (Z.even _); lia.
Qed.

Lemma round_half_even_scale num den c :
  0 < den → 0 < c → round_half_even (num * c) (den * c) = round_half_even num den.
Proof.
  intros Hd Hc. unfold round_half_even.
  rewrite Z.div_mul_cancel_r by lia. rewrite Z.mul_mod_distr_r by lia.
  replace (2 * (num mod den * c)) with (2 * (num mod den) * c) by lia.
  assert (Hcmp : (2 * (num mod den) * c ?= den * c) = (2 * (num mod den) ?= den)).
  { destruct (Z.compare_spec (2 * (num mod den)) den);
      [apply Z.compare_eq_iff|apply Z.compare_lt_iff|apply Z.compare_gt_iff]; nia. }
  rewrite Hcmp. done.
Qed.

Lemma round_half_even_exact num den :
  0 < den → num mod den = 0 → round_half_even num den = num / den.
Proof.
  intros Hd Hz. unfold round_half_even. rewrite Hz.
  rewrite (proj2 (Z.compare_lt_iff _ _)) by lia. done.
Qed.

Lemma second_rounding sx m' e1 :
  0 < m' ≤ 2 ^ 53 → -1074 ≤ e1 < 971 →
  (let '(mrs'', e'') := shr_fexp 53 1024 m' e1 loc_Exact in
   match shr_m mrs'' with
   | Z0 => S754_zero sx
   | Zpos m => if e'' <=? 1024 - 53 then S754_finite sx m e'' else S754_infinity sx
   | _ => S754_nan
   end) = rounded sx m' e1.
Proof.
  intros [Hpos Hle] [He1 He2]. unfold shr_fexp, rounded.
  destruct (Z.ltb_spec m' (2 ^ 53)) as [Hlt|Hge].
  - assert (Hd' : Zdigits2 m' ≤ 53).
    { pose proof (Zdigits2_bounds m' ltac:(lia)) as [Hl' _].
      destruct (Z.le_gt_cases (Zdigits2 m') 53) as [|Hgt]; [done|].
      assert (2 ^ 53 ≤ 2 ^ (Zdigits2 m' - 1)) by (apply Z.pow_le_mono_r; lia). lia. }
    pose proof (shr_spec (shr_record_of_loc m' loc_Exact) e1
                  (fexp 53 1024 (Zdigits2 m' + e1) - e1)) as Hs.
    rewrite shr_record_of_loc_m in Hs. destruct Hs as (F1 & F2 & _); [lia|].
    replace (Z.max 0 (fexp 53 1024 (Zdigits2 m' + e1) - e1)) with 0 in F1, F2
      by (unfold fexp, emin; lia).
    destruct (shr _ _ _) as [mrs'' e''].
    simpl in F1, F2. subst e''. rewrite F1, Z.pow_0_r, Z.div_1_r.
    replace (e1 + 0) with e1 by lia.
    destruct m' as [|p'|p']; try lia. simpl Z.to_pos.
    destruct (Z.leb_spec e1 (1024 - 53)); [done|lia].
  - assert (m' = 2 ^ 53) as H by lia.
    pose proof (shr_spec (shr_record_of_loc m' loc_Exact) e1
                  (fexp 53 1024 (Zdigits2 m' + e1) - e1)) as Hs.
    rewrite shr_record_of_loc_m in Hs. destruct Hs as (F1 & F2 & _); [lia|].
    assert (Zdigits2 m' = 54) as Hd54 by (rewrite H; reflexivity).
    rewrite Hd54 in F1, F2.
    replace (Z.max 0 (fexp 53 1024 (54 + e1) - e1)) with 1 in F1, F2
      by (unfold fexp, emin; lia).
    rewrite Hd54.
    destruct (shr _ _ _) as [mrs'' e''].
    simpl in F1, F2. subst e''. rewrite F1, H.
    change (2 ^ 53 / 2 ^ 1) with (2 ^ 52).
    change (2 ^ 52) with (Z.pos (Z.to_pos (2 ^ 52))) at 1.
    cbv iota beta.
    destruct (Z.leb_spec (e1 + 1) (1024 - 53)); [done|lia].
Qed.

Lemma binary_round_aux_nearest sx m e :
  0 < m → -1074 ≤ Zdigits2 m + e - 53 →
  let sh := Z.max 0 (Zdigits2 m - 53) in
  e + sh < 971 →
  binary_round_aux 53 1024 sx m e loc_Exact
  = rounded sx (round_half_even m (2 ^ sh)) (e + sh).
Proof.
  intros Hm Hnorm sh He.
  pose proof (Zdigits2_bounds m Hm) as [Hlo Hhi].
  set (d := Zdigits2 m) in *.
  assert (Hd : 0 < d).
  { destruct m as [|p|p]; try lia. unfold d. simpl. lia. }
  assert (Hsh : 0 ≤ sh ≤ d - 1) by (unfold sh; lia).
  assert (Hp : 0 < 2 ^ sh) by (apply Z.pow_pos_nonneg; lia).
  assert (Hq : 2 ^ (d - sh - 1) ≤ m / 2 ^ sh < 2 ^ (d - sh)).
  { split.
    - apply Z.div_le_lower_bound; [lia|]. rewrite <- Z.pow_add_r by lia.
      replace (sh + (d - sh - 1)) with (d - 1) by lia. lia.
    - apply Z.div_lt_upper_bound; [lia|]. rewrite <- Z.pow_add_r by lia.
      replace (sh + (d - sh)) with d by lia. lia. }
  assert (Hq0 : 0 < m / 2 ^ sh).
  { pose proof (Z.pow_pos_nonneg 2 (d - sh - 1)). lia. }
  assert (Hq53 : m / 2 ^ sh < 2 ^ 53).
  { eapply Z.lt_le_trans; [apply Hq|]. apply Z.pow_le_mono_r; unfold sh; lia. }
  pose proof (round_half_even_bounds m (2 ^ sh)) as Hb.
  unfold binary_round_aux. unfold shr_fexp at 1.
  fold d. rewrite (fexp_normal (d + e)) by lia.
  replace (d + e - 53 - e) with (d - 53) by lia.
  pose proof (shr_spec (shr_record_of_loc m loc_Exact) e (d - 53)) as Hs.
  rewrite shr_record_of_loc_m in Hs. destruct Hs as (_ & E2 & _); [lia|].
  pose proof (shr_round m e (d - 53) ltac:(lia)) as Hr. cbv zeta in Hr.
  fold sh in E2, Hr.
  destruct (shr (shr_record_of_loc m loc_Exact) e (d - 53)) as [mrs' e'].
  simpl in E2, Hr. subst e'. rewrite Hr.
  apply second_rounding; unfold sh in *; lia.
Qed.

Lemma pos_iter_xO p k : Z.pos (Pos.iter xO p k) = Z.pos p * 2 ^ Z.pos k.
Proof.
  induction k as [|k IH] using Pos.peano_ind.
  - simpl. lia.
  - rewrite Pos.iter_succ, Pos2Z.inj_xO, IH, Pos2Z.inj_succ, Z.pow_succ_r by lia. lia.
Qed.

Lemma binary_normalize_small n :
  0 < n < 2 ^ 53 →
  binary_normalize 53 1024 n 0 false =
    S754_finite false (Z.to_pos (n * 2 ^ (53 - Zdigits2 n))) (Zdigits2 n - 53).
Proof.
  intros [Hpos Hlt].
  pose proof (Zdigits2_bounds n Hpos) as [Hlo Hhi].
  assert (Hd : 0 < Zdigits2 n ≤ 53).
  { split.
    - destruct n as [|p|p]; try lia. simpl. lia.
    - destruct (Z.le_gt_cases (Zdigits2 n) 53) as [|Hgt]; [done|].
      assert (2 ^ 53 ≤ 2 ^ (Zdigits2 n - 1)) by (apply Z.pow_le_mono_r; lia). lia. }
  destruct n as [|p|p]; try lia.
  unfold binary_normalize, binary_round.
  change (Z.pos (digits2_pos p)) with (Zdigits2 (Z.pos p)).
  set (d := Zdigits2 (Z.pos p)) in *.
  rewrite Z.add_0_r, (fexp_normal d) by lia.
  set (m := Z.pos p * 2 ^ (53 - d)).
  assert (Hm : 2 ^ 52 ≤ m < 2 ^ 53).
  { unfold m. split.
    - replace 52 with ((d - 1) + (53 - d)) by lia. rewrite Z.pow_add_r by lia.
      apply Z.mul_le_mono_nonneg_r; [apply Z.pow_nonneg|]; lia.
    - replace 53 with (d + (53 - d)) at 2 by lia. rewrite Z.pow_add_r by lia.
      apply Z.mul_lt_mono_pos_r; [apply Z.pow_pos_nonneg|]; lia. }
  assert (Hal : shl_align p 0 (d - 53) = (Z.to_pos m, d - 53)).
  { unfold shl_align. rewrite Z.sub_0_r.
    destruct (d - 53) as [|k|k] eqn:Ek; try lia.
    - unfold m. replace (53 - d) with 0 by lia. rewrite Z.pow_0_r, Z.mul_1_r. done.
    - f_equal. apply Pos2Z.inj. rewrite pos_iter_xO, Z2Pos.id by lia.
      unfold m. do 2 f_equal. lia. }
  rewrite Hal.
  assert (Hdm : Zdigits2 m = 53) by (apply Zdigits2_unique; [lia|done]).
  rewrite Z2Pos.id by lia.
  destruct (binary_round_aux_rounded false m (d - 53) loc_Exact) as (m' & _ & _ & B3 & E);
    [lia|lia|rewrite Hdm; lia|].
  rewrite Hdm in B3, E. change (Z.max 0 (53 - 53)) with 0 in B3, E.
  rewrite Z.pow_0_r, Z.div_1_r in B3. rewrite B3 in E by (try done; apply Z.mod_1_r).
  rewrite E. unfold rounded. rewrite Z.add_0_r.
  destruct (Z.ltb_spec m (2 ^ 53)); [done|lia].
Qed.

Lemma of_int_small n :
  0 < n < 2 ^ 53 →
  of_int n = Ok (S754_finite false (Z.to_pos (n * 2 ^ (53 - Zdigits2 n))) (Zdigits2 n - 53)).
Proof. intros H. unfold of_int. fold prec emax. by rewrite binary_normalize_small. Qed.

Lemma sqrt_scaled_bounds n t q P :
  0 ≤ t → 0 ≤ q → 0 < P → 2 * (t + 1) ≤ P →
  t * t ≤ n < (t + 1) * (t + 1) →
  q * q ≤ n * (P * P) < (q + 1) * (q + 1) →
  t * P ≤ q ∧ q + 2 ≤ (t + 1) * P.
Proof.
  intros Ht Hq HP HP2 [Hn1 Hn2] [Hq1 Hq2]. split.
  - destruct (Z.le_gt_cases (t * P) q) as [|Hgt]; [done|exfalso].
    assert ((q + 1) * (q + 1) ≤ (t * P) * (t * P)) by nia.
    assert (t * P * (t * P) ≤ n * (P * P)) by nia. lia.
  - destruct (Z.le_gt_cases (q + 2) ((t + 1) * P)) as [|Hgt]; [done|exfalso].
    assert (((t + 1) * P - 1) * ((t + 1) * P - 1) ≤ q * q) by nia.
    assert (n * (P * P) ≤ ((t + 1) * (t + 1) - 1) * (P * P)) by nia.
    nia.
Qed.

Lemma sqrt_to_int n :
  1 ≤ n < 2 ^ 52 → res_bind (math_sqrt n) to_int = Ok (Z.sqrt n).
Proof.
  intros [Hn1 Hn2].
  pose proof (Zdigits2_bounds n ltac:(lia)) as [Hlo Hhi].
  set (d := Zdigits2 n) in *.
  assert (Hd : 0 < d ≤ 52).
  { split.
    - destruct n as [|p|p]; try lia. unfold d. simpl. lia.
    - destruct (Z.le_gt_cases d 52) as [|Hgt]; [done|].
      assert (2 ^ 52 ≤ 2 ^ (d - 1)) by (apply Z.pow_le_mono_r; lia). lia. }
  unfold math_sqrt. rewrite of_int_small by lia. fold d. simpl res_bind.
  set (mx := n * 2 ^ (53 - d)).
  assert (Hmx : 2 ^ 52 ≤ mx < 2 ^ 53).
  { unfold mx. split.
    - replace 52 with ((d - 1) + (53 - d)) by lia. rewrite Z.pow_add_r by lia.
      apply Z.mul_le_mono_nonneg_r; [apply Z.pow_nonneg|]; lia.
    - replace 53 with (d + (53 - d)) at 2 by lia. rewrite Z.pow_add_r by lia.
      apply Z.mul_lt_mono_pos_r; [apply Z.pow_pos_nonneg|]; lia. }
  set (h := Z.div2 (d + 1)).
  assert (Hh : d ≤ 2 * h ≤ d + 1) by (unfold h; rewrite Z.div2_div; Z.to_euclidean_division_equations; lia).
  set (k := 53 - h).
  set (P := 2 ^ k).
  assert (HP : 0 < P) by (apply Z.pow_pos_nonneg; lia).
  set (t := Z.sqrt n).
  pose proof (Z.sqrt_spec n ltac:(lia)) as Ht. cbv zeta in Ht. fold t in Ht. unfold Z.succ in Ht.
  pose proof (Z.sqrt_nonneg n) as Ht0. fold t in Ht0.
  assert (HtP : 2 * (t + 1) ≤ P).
  { assert (t < 2 ^ h).
    { destruct (Z.lt_ge_cases t (2 ^ h)) as [|Hge]; [done|exfalso].
      assert (2 ^ h * 2 ^ h ≤ t * t) by nia.
      rewrite <- Z.pow_add_r in H by lia.
      assert (2 ^ d ≤ 2 ^ (h + h)) by (apply Z.pow_le_mono_r; lia). lia. }
    unfold P, k. replace (53 - h) with (1 + h + (52 - 2 * h)) by lia.
    rewrite !Z.pow_add_r by lia. 
    assert (0 < 2 ^ (52 - 2 * h)) by (apply Z.pow_pos_nonneg; lia).
    change (2 ^ 1) with 2. nia. }
  set (q := Z.sqrt (n * (P * P))).
  pose proof (Z.sqrt_spec (n * (P * P)) ltac:(nia)) as Hq. cbv zeta in Hq. fold q in Hq.
  pose proof (Z.sqrt_nonneg (n * (P * P))) as Hq0. fold q in Hq0.
  unfold Z.succ in Ht, Hq.
  destruct (sqrt_scaled_bounds n t q P) as [B1 B2]; try done.
  assert (HPP : P * P = 2 ^ (106 - 2 * h)).
  { unfold P, k. rewrite <- Z.pow_add_r by lia. f_equal. lia. }
  assert (Hm' : 2 ^ 104 ≤ n * (P * P) < 2 ^ 106).
  { rewrite HPP. split.
    - apply Z.le_trans with (2 ^ (d - 1) * 2 ^ (106 - 2 * h)).
      + rewrite <- Z.pow_add_r by lia. apply Z.pow_le_mono_r; lia.
      + apply Z.mul_le_mono_nonneg_r; [apply Z.pow_nonneg|]; lia.
    - apply Z.lt_le_trans with (2 ^ d * 2 ^ (106 - 2 * h)).
      + apply Z.mul_lt_mono_pos_r; [apply Z.pow_pos_nonneg|]; lia.
      + rewrite <- Z.pow_add_r by lia. apply Z.pow_le_mono_r; lia. }
  assert (Hq53 : 2 ^ 52 ≤ q < 2 ^ 53).
  { change (2 ^ 104) with (2 ^ 52 * 2 ^ 52) in Hm'.
    change (2 ^ 106) with (2 ^ 53 * 2 ^ 53) in Hm'.
    assert (0 < 2 ^ 52) by done. assert (0 < 2 ^ 53) by done.
    generalize dependent (2 ^ 52). generalize dependent (2 ^ 53). intros. nia. }
  unfold SFsqrt, SFsqrt_core_binary, prec, emax.
  rewrite Z2Pos.id by lia.
  rewrite (Zdigits2_unique mx 53) by (done || lia).
  replace (53 + (d - 53) + 1) with (d + 1) by lia. fold h.
  rewrite (fexp_normal h) by lia.
  replace (Z.min (h - 53) (Z.div2 (d - 53))) with (- k)
    by (rewrite Z.div2_div; unfold k; Z.to_euclidean_division_equations; lia).
  replace (d - 53 - 2 * - k) with (d + 53 - 2 * h) by (unfold k; lia).
  assert (Hshift : Z.shiftl mx (d + 53 - 2 * h) = n * (P * P)).
  { rewrite Z.shiftl_mul_pow2 by lia. unfold mx. rewrite HPP, <- Z.mul_assoc.
    rewrite <- Z.pow_add_r by lia. do 2 f_equal. lia. }
  assert (Hcase : match d + 53 - 2 * h with
                  | 0 => mx | Z.pos _ => Z.shiftl mx (d + 53 - 2 * h) | Z.neg _ => 0
                  end = n * (P * P)).
  { destruct (d + 53 - 2 * h) eqn:E; lia. }
  rewrite Hcase.
  pose proof (Z.sqrtrem_sqrt (n * (P * P))) as E1. fold q in E1.
  destruct (Z.sqrtrem (n * (P * P))) as [q' r]. simpl in E1. subst q'.
  match goal with |- context [binary_round_aux _ _ _ _ _ ?l] => set (loc := l) end.
  destruct (binary_round_aux_rounded false q (- k) loc) as (m' & B & Bp & _ & E).
  { lia. }
  { rewrite (Zdigits2_unique q 53) by (done || lia). unfold k; lia. }
  { rewrite (Zdigits2_unique q 53) by (done || lia). unfold k; lia. }
  rewrite (Zdigits2_unique q 53) in B, E by (done || lia).
  change (Z.max 0 (53 - 53)) with 0 in B, E.
  rewrite Z.pow_0_r, Z.div_1_r in B. rewrite Z.add_0_r in E.
  rewrite E, rounded_to_int by done. simpl cond_Zopp. f_equal.
  rewrite Z.shiftl_div_pow2 by (unfold k; lia).
  replace (- - k) with k by lia. fold P.
  symmetry. apply (Z.div_unique m' P t (m' - t * P)); lia.
Qed.

Lemma ceil_of_rounded_quotient n r P m1 m2 :
  0 < n → 0 < r ≤ P →
  m1 = n * P / r → m1 ≤ m2 ≤ m1 + 1 → (n mod r = 0 → m2 = m1) →
  - (- m2 / P) = (n + r - 1) / r.
Proof.
  intros Hn [Hr HP] -> Hm Hex.
  pose proof (Z.div_mod n r ltac:(lia)) as Hdm.
  pose proof (Z.mod_pos_bound n r Hr) as Hrho.
  set (f := n / r) in *. set (rho := n mod r) in *.
  assert (Hm1 : n * P / r = f * P + rho * P / r).
  { rewrite Hdm. replace ((r * f + rho) * P) with (f * P * r + rho * P) by lia.
    rewrite Z.div_add_l by lia. done. }
  rewrite Hm1 in *.
  destruct (Z.eq_dec rho 0) as [Hz|Hnz].
  - rewrite Hz in *. rewrite Z.mul_0_l, Z.div_0_l, Z.add_0_r in * by lia.
    rewrite (Hex eq_refl).
    replace (- (f * P)) with ((- f) * P) by lia. rewrite Z.div_mul by lia.
    replace (n + r - 1) with (f * r + (r - 1)) by lia.
    rewrite Z.div_add_l, (Z.div_small (r - 1)) by lia. lia.
  - assert (1 ≤ rho * P / r) by (apply Z.div_le_lower_bound; nia).
    assert (rho * P / r < P) by (apply Z.div_lt_upper_bound; nia).
    replace (n + r - 1) with ((f + 1) * r + (rho - 1)) by lia.
    rewrite Z.div_add_l, (Z.div_small (rho - 1)) by lia.
    assert (- m2 / P = - (f + 1)); [|lia].
    symmetry. apply (Z.div_unique _ _ _ ((f + 1) * P - m2)); lia.
Qed.

Lemma new_location_zero r : new_location r 0 = loc_Exact.
Proof. unfold new_location. by destruct (Z.even r). Qed.

Lemma truediv_ceil n r :
  1 ≤ n < 2 ^ 52 → 1 ≤ r < 2 ^ 52 →
  res_bind (int_truediv n r) math_ceil = Ok ((n + r - 1) / r).
Proof.
  intros [Hn1 Hn2] [Hr1 Hr2].
  assert (Hdig : ∀ x, 1 ≤ x < 2 ^ 52 →
            0 < Zdigits2 x ≤ 52 ∧ 2 ^ (Zdigits2 x - 1) ≤ x < 2 ^ Zdigits2 x).
  { intros x [Hx1 Hx2]. pose proof (Zdigits2_bounds x ltac:(lia)) as [Hlo Hhi].
    split; [|done]. split.
    - destruct x as [|p|p]; try lia. simpl. lia.
    - destruct (Z.le_gt_cases (Zdigits2 x) 52) as [|Hgt]; [done|].
      assert (2 ^ 52 ≤ 2 ^ (Zdigits2 x - 1)) by (apply Z.pow_le_mono_r; lia). lia. }
  destruct (Hdig n ltac:(lia)) as (Hd1 & Hlo1 & Hhi1).
  destruct (Hdig r ltac:(lia)) as (Hd2 & Hlo2 & Hhi2).
  set (d1 := Zdigits2 n) in *. set (d2 := Zdigits2 r) in *.
  set (s := 53 - d1 + d2).
  set (a := n * 2 ^ s).
  assert (Hs : 2 ≤ s) by (unfold s; lia).
  assert (H2s : 0 < 2 ^ s) by (apply Z.pow_pos_nonneg; lia).
  set (q := a / r).
  assert (Hq : 2 ^ 52 ≤ q < 2 ^ 54).
  { unfold q, a. split.
    - apply Z.div_le_lower_bound; [lia|].
      apply Z.le_trans with (2 ^ d2 * 2 ^ 52); [apply Z.mul_le_mono_nonneg_r; lia|].
      apply Z.le_trans with (2 ^ (d1 - 1) * 2 ^ s).
      + rewrite <- !Z.pow_add_r by lia. apply Z.pow_le_mono_r; unfold s; lia.
      + apply Z.mul_le_mono_nonneg_r; lia.
    - apply Z.div_lt_upper_bound; [lia|].
      apply Z.lt_le_trans with (2 ^ d1 * 2 ^ s); [apply Z.mul_lt_mono_pos_r; lia|].
      apply Z.le_trans with (2 ^ (d2 - 1) * 2 ^ 54); [|apply Z.mul_le_mono_nonneg_r; lia].
      rewrite <- !Z.pow_add_r by lia. apply Z.pow_le_mono_r; unfold s; lia. }
  unfold int_truediv.
  destruct (Z.eqb_spec r 0); [lia|]. destruct (Z.eqb_spec n 0); [lia|].
  destruct (Z.ltb_spec n 0); [lia|]. destruct (Z.ltb_spec r 0); [lia|].
  rewrite !Z.abs_eq by lia.
  unfold SFdiv_core_binary, prec, emax. fold d1 d2.
  rewrite !Z.add_0_r, Z.sub_0_r, (fexp_normal (d1 - d2)) by lia.
  replace (Z.min (d1 - d2 - 53) 0) with (- s) by (unfold s; lia).
  replace (0 - - s) with s by lia.
  assert (Hcase : match s with
                  | 0 => n | Z.pos _ => Z.shiftl n s | Z.neg _ => 0
                  end = a).
  { unfold a. rewrite <- Z.shiftl_mul_pow2 by lia. destruct s; lia. }
  rewrite Hcase.
  pose proof (Z.div_eucl_eq a r ltac:(lia)) as Heucl.
  assert (Z.div_eucl a r = (q, a mod r)) as ->.
  { unfold q, Z.div, Z.modulo. by destruct (Z.div_eucl a r). }
  simpl xorb.
  set (loc := new_location r (a mod r)).
  set (sh := Z.max 0 (Zdigits2 q - 53)).
  assert (Hsh : (q < 2 ^ 53 ∧ sh = 0) ∨ (2 ^ 53 ≤ q ∧ sh = 1)).
  { unfold sh. destruct (Z.lt_ge_cases q (2 ^ 53)).
    - left. rewrite (Zdigits2_unique q 53); lia.
    - right. rewrite (Zdigits2_unique q 54); lia. }
  assert (Hdq : 53 ≤ Zdigits2 q ≤ 54).
  { destruct Hsh as [[? ?]|[? ?]].
    - rewrite (Zdigits2_unique q 53); lia.
    - rewrite (Zdigits2_unique q 54); lia. }
  destruct (binary_round_aux_rounded false q (- s) loc) as (m' & B & Bp & Bex & E);
    [lia|lia|lia|].
  fold sh in B, Bex, E. rewrite E.
  assert (Hfin : match rounded false m' (- s + sh) with
                 | S754_infinity _ => Raise OverflowError
                 | x => Ok x
                 end = Ok (rounded false m' (- s + sh))).
  { unfold rounded. by destruct (m' <? 2 ^ 53). }
  rewrite Hfin. simpl res_bind. rewrite rounded_ceil by done. f_equal.
  simpl cond_Zopp.
  set (kf := s - sh). assert (Hkf : 1 ≤ kf) by (unfold kf; lia).
  rewrite Z.shiftl_div_pow2 by lia.
  replace (- (- s + sh)) with kf by (unfold kf; lia).
  assert (H2sh : 0 < 2 ^ sh) by (apply Z.pow_pos_nonneg; lia).
  assert (H2kf : 0 < 2 ^ kf) by (apply Z.pow_pos_nonneg; lia).
  assert (Hsplit : 2 ^ s = 2 ^ kf * 2 ^ sh).
  { rewrite <- Z.pow_add_r by lia. f_equal. unfold kf. lia. }
  apply (ceil_of_rounded_quotient n r (2 ^ kf) (q / 2 ^ sh) m'); try lia.
  - split; [lia|].
    apply Z.le_trans with (2 ^ d2); [lia|].
    apply Z.pow_le_mono_r; unfold kf, s; lia.
  - unfold q, a. rewrite Z.div_div by lia. rewrite Hsplit.
    rewrite Z.mul_assoc, Z.div_mul_cancel_r by lia. done.
  - intros Hmod. apply Bex.
    + unfold loc. replace (a mod r) with 0; [apply new_location_zero|].
      unfold a. rewrite <- Z.mul_mod_idemp_l, Hmod by lia. by rewrite Z.mul_0_l, Z.mod_0_l by lia.
    + unfold q, a. rewrite Hsplit.
      pose proof (Z.div_mod n r ltac:(lia)) as Hdm. rewrite Hmod, Z.add_0_r in Hdm.
      rewrite Hdm at 1.
      replace (r * (n / r) * (2 ^ kf * 2 ^ sh)) with ((n / r) * 2 ^ kf * 2 ^ sh * r) by lia.
      rewrite Z.div_mul by lia. apply Z.mod_mul. lia.
Qed.

Lemma res_bind_Ok {A B} (r : res A) (k : A → res B) b :
  res_bind r k = Ok b → ∃ a, r = Ok a ∧ k a = Ok b.
Proof. destruct r; simpl; [eauto|done]. Qed.

Lemma sqrt_range n : 1 ≤ n < 2 ^ 52 → 1 ≤ Z.sqrt n < 2 ^ 52.
Proof.
  intros [H1 H2]. pose proof (Z.sqrt_le_lin n ltac:(lia)) as Hlin.
  pose proof (Z.sqrt_le_mono 1 n ltac:(lia)) as Hmono. change (Z.sqrt 1) with 1 in Hmono. lia.
Qed.

Lemma grid_shape_spec n :
  1 ≤ n < 2 ^ 52 → grid_shape n = Ok (Z.sqrt n, ceil_div n (Z.sqrt n)).
Proof.
  intros Hn. unfold grid_shape.
  pose proof (sqrt_to_int n Hn) as Hs.
  apply res_bind_Ok in Hs as (root & -> & Hroot). simpl res_bind at 1.
  rewrite Hroot. simpl res_bind at 1.
  pose proof (truediv_ceil n (Z.sqrt n) Hn (sqrt_range n Hn)) as Hc.
  apply res_bind_Ok in Hc as (ratio & -> & Hratio). simpl res_bind at 1.
  rewrite Hratio. done.
Qed.

Lemma grid_covers n :
  1 ≤ n → 1 ≤ Z.sqrt n ∧ n ≤ Z.sqrt n * ceil_div n (Z.sqrt n).
Proof.
  intros Hn.
  pose proof (Z.sqrt_le_mono 1 n ltac:(lia)) as H. change (Z.sqrt 1) with 1 in H.
  split; [done|]. unfold ceil_div. set (r := Z.sqrt n) in *.
  pose proof (Z.div_mod (n + r - 1) r ltac:(lia)).
  pose proof (Z.mod_pos_bound (n + r - 1) r ltac:(lia)). lia.
Qed.


Lemma scale_in_range_inv s :
  is_binary64 s → scale_in_range s = true →
  ∃ ms es, s = S754_finite false ms es ∧ -59 ≤ es ≤ -52 ∧ 2 ^ 52 ≤ Z.pos ms < 2 ^ 53.
Proof.
  unfold is_binary64, scale_in_range, leb. intros Hv Hr.
  apply andb_prop in Hr as [Hlo Hhi].
  change (literal 10 3) with (S754_finite false 5764607523034235 (-59)) in Hlo.
  change (literal 10 1) with (S754_finite false 4503599627370496 (-52)) in Hhi.
  destruct s as [sg|sg| |sg ms es]; try done; try (by destruct sg).
  destruct sg; [done|].
  unfold SFleb, SFcompare in Hlo, Hhi.
  assert (-59 ≤ es) by (destruct (Z.compare_spec (-59) es); (lia || done)).
  assert (es ≤ -52) by (destruct (Z.compare_spec es (-52)); (lia || done)).
  exists ms, es. split; [done|]. split; [lia|].
  simpl in Hv. unfold bounded, canonical_mantissa in Hv.
  apply andb_prop in Hv as [Hc _]. apply Z.eqb_eq in Hc.
  unfold fexp, emin, prec, emax in Hc.
  assert (Z.pos (digits2_pos ms) = 53) as Hd by lia.
  pose proof (Zdigits2_bounds (Z.pos ms) ltac:(lia)) as Hb. simpl Zdigits2 in Hb.
  rewrite Hd in Hb. done.
Qed.

Lemma Zdigits2_log2 m : 0 < m → Zdigits2 m = Z.log2 m + 1.
Proof. intros Hm. destruct m as [|p|p]; try lia. simpl. apply digits2_pos_log2. Qed.

Lemma int_mul_floor w s :
  is_binary64 s → scale_in_range s = true → 0 ≤ w < 2 ^ 53 →
  ∃ z, res_bind (int_mul_float w s) to_int = Ok z ∧ floor_of_product w s = Some z.
Proof.
  intros Hv Hr [Hw0 Hw].
  destruct (scale_in_range_inv s Hv Hr) as (ms & es & -> & Hes & Hms).
  unfold int_mul_float, floor_of_product.
  destruct (Z.leb_spec 0 es) as [|_]; [lia|].
  destruct (Z.eq_dec w 0) as [->|Hnz].
  { change (of_int 0) with (Ok (S754_zero false)). exists 0. split; [done|].
    rewrite Z.mul_0_l. unfold round_to_53_bits. simpl. by rewrite Z.div_0_l by lia. }
  rewrite of_int_small by lia. simpl res_bind.
  pose proof (Zdigits2_bounds w ltac:(lia)) as [Hlo Hhi].
  set (d := Zdigits2 w) in *.
  assert (Hd : 0 < d ≤ 53).
  { split.
    - destruct w as [|p|p]; try lia. unfold d. simpl. lia.
    - destruct (Z.le_gt_cases d 53) as [|Hgt]; [done|].
      assert (2 ^ 53 ≤ 2 ^ (d - 1)) by (apply Z.pow_le_mono_r; lia). lia. }
  set (k := 53 - d).
  assert (Hk : 0 ≤ k) by (unfold k; lia).
  assert (H2k : 0 < 2 ^ k) by (apply Z.pow_pos_nonneg; lia).
  set (mw := w * 2 ^ k).
  assert (Hmw : 2 ^ 52 ≤ mw < 2 ^ 53).
  { unfold mw, k. split.
    - replace 52 with ((d - 1) + (53 - d)) by lia. rewrite Z.pow_add_r by lia.
      apply Z.mul_le_mono_nonneg_r; [apply Z.pow_nonneg|]; lia.
    - replace 53 with (d + (53 - d)) at 2 by lia. rewrite Z.pow_add_r by lia.
      apply Z.mul_lt_mono_pos_r; [apply Z.pow_pos_nonneg|]; lia. }
  unfold SFmul. simpl xorb. rewrite Pos2Z.inj_mul, Z2Pos.id by lia.
  set (n := w * Z.pos ms).
  assert (Hn : 0 < n) by (unfold n; nia).
  assert (HMn : mw * Z.pos ms = n * 2 ^ k) by (unfold mw, n; lia).
  rewrite HMn.
  set (M := n * 2 ^ k) in *.
  assert (HM : 2 ^ 104 ≤ M < 2 ^ 106).
  { rewrite <- HMn. change (2 ^ 104) with (2 ^ 52 * 2 ^ 52).
    change (2 ^ 106) with (2 ^ 53 * 2 ^ 53). assert (0 < 2 ^ 52) by done. nia. }
  assert (HD : Zdigits2 M = Z.log2 n + k + 1).
  { rewrite Zdigits2_log2 by lia. unfold M. rewrite Z.log2_mul_pow2 by lia. lia. }
  assert (HD' : 105 ≤ Zdigits2 M ≤ 106).
  { pose proof (Zdigits2_bounds M ltac:(lia)) as [HDlo HDhi]. split.
    - destruct (Z.le_gt_cases 105 (Zdigits2 M)) as [|Hgt]; [done|].
      assert (2 ^ Zdigits2 M ≤ 2 ^ 104) by (apply Z.pow_le_mono_r; lia). lia.
    - destruct (Z.le_gt_cases (Zdigits2 M) 106) as [|Hgt]; [done|].
      assert (2 ^ 106 ≤ 2 ^ (Zdigits2 M - 1)) by (apply Z.pow_le_mono_r; lia). lia. }
  set (sh := Z.max 0 (Zdigits2 M - 53)).
  pose proof (binary_round_aux_nearest false M (d - 53 + es) ltac:(lia) ltac:(lia)) as E.
  cbv zeta in E. fold sh in E. specialize (E ltac:(unfold sh; lia)).
  unfold prec, emax. rewrite E. clear E.
  assert (Hsh : sh = Z.log2 n - 52 + k) by (unfold sh; lia).
  assert (Hsh0 : 52 ≤ sh ≤ 53) by (unfold sh; lia).
  pose proof (round_half_even_bounds M (2 ^ sh)) as Hb.
  assert (H2sh : 0 < 2 ^ sh) by (apply Z.pow_pos_nonneg; lia).
  assert (Hq : 2 ^ 52 ≤ M / 2 ^ sh < 2 ^ 53).
  { pose proof (Zdigits2_bounds M ltac:(lia)) as [HDlo HDhi]. split.
    - apply Z.div_le_lower_bound; [lia|]. rewrite <- Z.pow_add_r by lia.
      eapply Z.le_trans; [|exact HDlo]. apply Z.pow_le_mono_r; unfold sh; lia.
    - apply Z.div_lt_upper_bound; [lia|]. rewrite <- Z.pow_add_r by lia.
      eapply Z.lt_le_trans; [exact HDhi|]. apply Z.pow_le_mono_r; unfold sh; lia. }
  rewrite rounded_to_int by lia. simpl cond_Zopp.
  eexists. split; [reflexivity|]. f_equal.
  unfold round_to_53_bits. cbv zeta.
  set (x := Z.log2 n - 52) in *.
  replace (d - 53 + es + sh) with (es + x) by (unfold k in *; lia).
  assert (H2es : 0 < 2 ^ (- es)) by (apply Z.pow_pos_nonneg; lia).
  destruct (Z.leb_spec x 0) as [Hx|Hx].
  - (* no bit of the product is lost *)
    assert (Hsplit : M = n * 2 ^ (- x) * 2 ^ sh).
    { unfold M. rewrite <- Z.mul_assoc, <- Z.pow_add_r by lia. do 2 f_equal. lia. }
    rewrite round_half_even_exact; [|done|rewrite Hsplit; by apply Z.mod_mul; lia].
    rewrite Hsplit, Z.div_mul by lia.
    rewrite Z.shiftl_div_pow2 by lia.
    replace (- (es + x)) with (- es + - x) by lia. rewrite Z.pow_add_r by lia.
    rewrite Z.div_mul_cancel_r; [done|lia|]. apply Z.pow_nonzero; lia.
  - assert (H2x : 0 < 2 ^ x) by (apply Z.pow_pos_nonneg; lia).
    replace (2 ^ sh) with (2 ^ x * 2 ^ k) by (rewrite <- Z.pow_add_r by lia; f_equal; lia).
    unfold M. rewrite round_half_even_scale by lia.
    set (r := round_half_even n (2 ^ x)).
    destruct (Z.le_gt_cases 0 (es + x)) as [Ht|Ht].
    + rewrite Z.shiftl_mul_pow2 by lia.
      replace (2 ^ x) with (2 ^ (es + x) * 2 ^ (- es))
        by (rewrite <- Z.pow_add_r by lia; f_equal; lia).
      rewrite Z.mul_assoc, Z.div_mul by lia. done.
    + rewrite Z.shiftl_div_pow2 by lia.
      replace (2 ^ (- es)) with (2 ^ (- (es + x)) * 2 ^ x)
        by (rewrite <- Z.pow_add_r by lia; f_equal; lia).
      rewrite Z.div_mul_cancel_r; [done| |lia]. apply Z.pow_nonzero; lia.
Qed.

Lemma scaled_size_spec img s :
  is_binary64 s → scale_in_range s = true →
  0 ≤ img_width img < 2 ^ 53 → 0 ≤ img_height img < 2 ^ 53 →
  ∃ w h,
    floor_of_product (img_width img) s = Some w ∧
    floor_of_product (img_height img) s = Some h ∧
    scaled_size img s = Ok (w, h).
Proof.
  intros Hv Hr Hw Hh.
  destruct (int_mul_floor _ s Hv Hr Hw) as (w & Ew & Fw).
  destruct (int_mul_floor _ s Hv Hr Hh) as (h & Eh & Fh).
  exists w, h. split; [done|]. split; [done|]. unfold scaled_size.
  apply res_bind_Ok in Ew as (wf & -> & Ew). simpl res_bind at 1. rewrite Ew.
  simpl res_bind at 1.
  apply res_bind_Ok in Eh as (hf & -> & Eh). simpl res_bind at 1. rewrite Eh. done.
Qed.

End FloatFacts.

(** ** Running the monad *)

Lemma run_bind_ok {A B} (m : Py A) (k : A → Py B) st a st' :
  m st = (Ok a, st') → py_bind m k st = k a st'.
Proof. unfold py_bind. by intros ->. Qed.

Lemma run_bind_raise {A B} (m : Py A) (k : A → Py B) st e st' :
  m st = (Raise e, st') → py_bind m k st = (Raise e, st').
Proof. unfold py_bind. by intros ->. Qed.

Lemma emit_nil st : emit [] st = st.
Proof. destruct st. unfold emit. simpl. by rewrite app_nil_r. Qed.

Lemma emit_emit a b st : emit b (emit a st) = emit (a ++ b) st.
Proof. unfold emit. simpl. by rewrite app_assoc. Qed.

Lemma fs_emit a st : fs (emit a st) = fs st.
Proof. done. Qed.



Lemma stored_image_exists f name im :
  stored_image f name = Some im → path_exists f (os_path_join "vics" name) = true.
Proof.
  unfold stored_image, path_exists. intros H.
  destruct (files f !! os_path_join "vics" name) as [fl|] eqn:E; [|done].
  apply orb_true_iff. right. apply bool_decide_eq_true. apply elem_of_dom. eauto.
Qed.

Lemma run_ret {A} (a : A) st : py_ret a st = (Ok a, st).
Proof. done. Qed.
Lemma run_lift {A} (r : res A) st : py_lift r st = (r, st).
Proof. done. Qed.
Lemma run_os_path_exists p st : os_path_exists p st = (Ok (path_exists (fs st) p), st).
Proof. done. Qed.
Lemma run_print s st : print s st = (Ok (), emit [s +:+ LF] st).
Proof. done. Qed.
Lemma run_Image_open p st im :
  files (fs st) !! p = Some (ImageFile im) → Image_open p st = (Ok im, st).
Proof. unfold Image_open, py_bind, get_state. by intros ->. Qed.

Lemma scale_one_found collage_scale acc name st im w h :
  stored_image (fs st) name = Some im →
  scaled_size im collage_scale = Ok (w, h) →
  1 ≤ w → 1 ≤ h →
  scale_one collage_scale acc name st = (Ok (acc ++ [Resized im w h]), st).
Proof.
  intros Him Hsz Hw Hh. unfold scale_one.
  rewrite (run_bind_ok _ _ _ _ _ (run_os_path_exists _ _)).
  rewrite (stored_image_exists _ _ _ Him).
  unfold stored_image in Him.
  destruct (files (fs st) !! os_path_join "vics" name) as [[im'|]|] eqn:Ef; try done.
  injection Him as ->.
  rewrite (run_bind_ok _ _ _ _ _ (run_Image_open _ _ _ Ef)).
  unfold py_bind, py_lift. rewrite Hsz. unfold Image_resize. cbn [fst snd].
  destruct (Z.ltb_spec w 1); [lia|]. destruct (Z.ltb_spec h 1); [lia|]. done.
Qed.

Lemma keeps_both_sides_inv collage_scale im w h :
  keeps_both_sides collage_scale im = true →
  floor_of_product (img_width im) collage_scale = Some w →
  floor_of_product (img_height im) collage_scale = Some h →
  1 ≤ w ∧ 1 ≤ h.
Proof.
  unfold keeps_both_sides. intros H E1 E2. rewrite E1, E2 in H.
  apply andb_prop in H as [H1 H2]. split; by apply Z.leb_le.
Qed.

Lemma scale_one_missing collage_scale acc name st :
  path_exists (fs st) (os_path_join "vics" name) = false →
  scale_one collage_scale acc name st = (Ok acc, emit [warning name] st).
Proof.
  intros Hex. unfold scale_one.
  rewrite (run_bind_ok _ _ _ _ _ (run_os_path_exists _ _)), Hex.
  rewrite (run_bind_ok _ _ _ _ _ (run_print _ _)). done.
Qed.

Lemma scale_images_acc collage_scale names : ∀ acc st,
  Float64.is_binary64 collage_scale → scale_in_range collage_scale = true →
  Forall (readable (fs st)) names →
  Forall (λ im, keeps_both_sides collage_scale im = true) (images_on_disk (fs st) names) →
  ∃ scaled,
    for_each names acc (scale_one collage_scale) st
    = (Ok (acc ++ scaled), emit (warnings (fs st) names) st) ∧
    Forall2 (scaled_by collage_scale) (images_on_disk (fs st) names) scaled.
Proof.
  intros acc st Hv Hr. revert acc st.
  induction names as [|name names IH]; intros acc st Hall Hkeep.
  - exists []. simpl. rewrite app_nil_r, emit_nil. split; [done|constructor].
  - inversion Hall as [|? ? Hname Hrest]; subst.
    simpl for_each. unfold warnings. rewrite filter_cons.
    unfold images_on_disk in *. simpl omap in *.
    destruct (path_exists (fs st) (os_path_join "vics" name)) eqn:Ex.
    + destruct (Hname Ex) as (im & Him & Hw & Hh).
      rewrite Him in *. rewrite decide_False by done.
      apply Forall_cons in Hkeep as [Hk Hkeep].
      destruct (scaled_size_spec im collage_scale Hv Hr Hw Hh) as (w & h & E1 & E2 & E3).
      destruct (keeps_both_sides_inv _ _ _ _ Hk E1 E2) as [Hw1 Hh1].
      rewrite (run_bind_ok _ _ _ _ _ (scale_one_found _ _ _ _ _ _ _ Him E3 Hw1 Hh1)).
      destruct (IH (acc ++ [Resized im w h]) st Hrest Hkeep) as (scaled & Erun & Hf2).
      rewrite Erun. exists (Resized im w h :: scaled). rewrite <- app_assoc. split; [done|].
      constructor; [|done]. exists w, h. done.
    + assert (Hnone : stored_image (fs st) name = None).
      { destruct (stored_image (fs st) name) eqn:E; [|done].
        apply stored_image_exists in E. congruence. }
      rewrite Hnone in *.
      rewrite decide_True by done.
      rewrite (run_bind_ok _ _ _ _ _ (scale_one_missing _ _ _ _ Ex)).
      destruct (IH acc (emit [warning name] st) Hrest Hkeep) as (scaled & Erun & Hf2).
      rewrite Erun. exists scaled. rewrite emit_emit, fs_emit. split; [|done].
      rewrite fmap_cons. done.
Qed.

(** ** The composer *)

Lemma foldl_max_spec l : ∀ x,
  (foldl Z.max x l ∈ x :: l) ∧ Forall (λ y, y ≤ foldl Z.max x l) (x :: l).
Proof.
  induction l as [|a l IH]; intros x; simpl.
  - split; [apply list_elem_of_here|]. constructor; [lia|constructor].
  - destruct (IH (Z.max x a)) as [Hin Hall]. split.
    + apply elem_of_cons in Hin as [Heq|Hin].
      * rewrite Heq. destruct (Z.max_spec x a) as [[_ ->]|[_ ->]].
        -- apply list_elem_of_further, list_elem_of_here.
        -- apply list_elem_of_here.
      * by do 2 apply list_elem_of_further.
    + inversion Hall as [|? ? Hm Hrest]; subst.
      constructor; [lia|]. constructor; [lia|done].
Qed.

Lemma py_max_spec l : l ≠ [] → ∃ m, py_max l = Ok m ∧ is_max m l.
Proof.
  destruct l as [|x l]; [done|]. intros _. exists (foldl Z.max x l).
  split; [done|]. apply foldl_max_spec.
Qed.

Lemma paste_one_total collage_width c item st :
  ∃ c', paste_one collage_width c item st = (Ok c', st).
Proof.
  destruct item as [name im]. unfold paste_one.
  rewrite (run_bind_ok _ _ _ _ _ (run_os_path_exists _ _)).
  destruct (path_exists _ _); [|by eexists].
  destruct (_ <=? _); by eexists.
Qed.

Lemma paste_loop_total collage_width items : ∀ c st,
  ∃ c', for_each items c (paste_one collage_width) st = (Ok c', st).
Proof.
  induction items as [|item items IH]; intros c st; simpl.
  - by eexists.
  - destruct (paste_one_total collage_width c item st) as [c1 E1].
    rewrite (run_bind_ok _ _ _ _ _ E1). apply IH.
Qed.

Lemma paste_images_total names scaled collage_width st :
  ∃ ops, paste_images names scaled collage_width st = (Ok ops, st).
Proof.
  unfold paste_images.
  destruct (paste_loop_total collage_width (zip names scaled) (Cursor [] 0 0) st) as [c E].
  rewrite (run_bind_ok _ _ _ _ _ E). by eexists.
Qed.

Lemma paste_one_found collage_width c name im st :
  path_exists (fs st) (os_path_join "vics" name) = true →
  paste_one collage_width c (name, im) st =
    (Ok (let ops := drawn c ++ [Paste im (x_offset c) (y_offset c);
                                Text (x_offset c) (y_offset c) (splitext_root name) WHITE] in
         if collage_width <=? x_offset c + img_width im
         then Cursor ops 0 (y_offset c + img_height im)
         else Cursor ops (x_offset c + img_width im) (y_offset c)), st).
Proof.
  intros Hex. unfold paste_one.
  rewrite (run_bind_ok _ _ _ _ _ (run_os_path_exists _ _)), Hex.
  cbv zeta. by destruct (_ <=? _).
Qed.

Lemma paste_loop_walk collage_width items : ∀ c st,
  Forall (λ item, path_exists (fs st) (os_path_join "vics" item.1) = true) items →
  ∃ c', for_each items c (paste_one collage_width) st = (Ok c', st) ∧
        drawn c' = drawn c ++ walk collage_width (x_offset c) (y_offset c) items.
Proof.
  induction items as [|[name im] items IH]; intros c st Hall; cbn [for_each walk].
  - exists c. by rewrite app_nil_r.
  - inversion Hall as [|? ? Hex Hrest]; subst. simpl in Hex.
    rewrite (run_bind_ok _ _ _ _ _ (paste_one_found _ _ _ _ _ Hex)). cbv zeta.
    destruct (collage_width <=? x_offset c + img_width im).
    + destruct (IH (Cursor (drawn c ++ [Paste im (x_offset c) (y_offset c);
                                Text (x_offset c) (y_offset c) (splitext_root name) WHITE])
                           0 (y_offset c + img_height im)) st Hrest) as (c' & E & D).
      exists c'. split; [done|]. rewrite D. simpl. by rewrite <- app_assoc.
    + destruct (IH (Cursor (drawn c ++ [Paste im (x_offset c) (y_offset c);
                                Text (x_offset c) (y_offset c) (splitext_root name) WHITE])
                           (x_offset c + img_width im) (y_offset c)) st Hrest) as (c' & E & D).
      exists c'. split; [done|]. rewrite D. simpl. by rewrite <- app_assoc.
Qed.

Lemma paste_images_walk names scaled collage_width st :
  Forall (λ name, path_exists (fs st) (os_path_join "vics" name) = true) names →
  paste_images names scaled collage_width st
  = (Ok (walk collage_width 0 0 (zip names scaled)), st).
Proof.
  intros Hall. unfold paste_images.
  destruct (paste_loop_walk collage_width (zip names scaled) (Cursor [] 0 0) st)
    as (c & E & D).
  { clear -Hall. revert scaled. induction Hall as [|name names Hn Hr IH]; intros scaled.
    - constructor.
    - destruct scaled; simpl; constructor; [done|apply IH]. }
  rewrite (run_bind_ok _ _ _ _ _ E), run_ret, D. done.
Qed.

Lemma compose_canvas_spec names collage_scale st :
  Float64.is_binary64 collage_scale → scale_in_range collage_scale = true →
  Forall (readable (fs st)) names →
  let images := images_on_disk (fs st) names in
  let n := Z.of_nat (length images) in
  let st' := emit (warnings (fs st) names) st in
  Forall (λ im, keeps_both_sides collage_scale im = true) images →
  1 ≤ n < 2 ^ 52 →
  ∃ scaled max_w max_h ops,
    Forall2 (scaled_by collage_scale) images scaled ∧
    scale_images names collage_scale st = (Ok scaled, st') ∧
    is_max max_w (img_width <$> scaled) ∧
    is_max max_h (img_height <$> scaled) ∧
    paste_images names scaled (max_w * ceil_div n (Z.sqrt n)) st' = (Ok ops, st') ∧
    compose_canvas names collage_scale st
    = (Ok (Some (Collage (max_w * ceil_div n (Z.sqrt n)) (max_h * Z.sqrt n) BLACK ops)), st').
Proof.
  intros Hv Hr Hall images n st' Hkeep Hn.
  destruct (scale_images_acc collage_scale names [] st Hv Hr Hall Hkeep)
    as (scaled & Erun & Hf2).
  simpl app in Erun. fold images in Hf2. fold st' in Erun.
  assert (Hlen : length scaled = length images) by (symmetry; by eapply Forall2_length).
  assert (Hne : scaled ≠ []) by (intros ->; simpl in Hlen; lia).
  destruct (py_max_spec (img_width <$> scaled)) as (max_w & Ew & Mw).
  { by destruct scaled. }
  destruct (py_max_spec (img_height <$> scaled)) as (max_h & Eh & Mh).
  { by destruct scaled. }
  destruct (paste_images_total names scaled (max_w * ceil_div n (Z.sqrt n)) st') as (ops & Ep).
  exists scaled, max_w, max_h, ops. repeat split; try done; try apply Mw; try apply Mh.
  unfold compose_canvas.
  destruct names as [|name names]; [simpl in *; lia|].
  unfold scale_images. rewrite (run_bind_ok _ _ _ _ _ Erun).
  destruct scaled as [|s0 scaled]; [done|].
  rewrite Hlen. fold n. unfold py_bind at 1, py_lift at 1.
  rewrite (grid_shape_spec n Hn).
  unfold py_bind at 1, py_lift at 1. rewrite Ew.
  unfold py_bind at 1, py_lift at 1. rewrite Eh.
  rewrite (run_bind_ok _ _ _ _ _ Ep). done.
Qed.

(** Inversion of binds *)
Lemma bind_inv_ok {A B} (m : Py A) (k : A → Py B) st b st' :
  py_bind m k st = (Ok b, st') →
  ∃ a st1, m st = (Ok a, st1) ∧ k a st1 = (Ok b, st').
Proof.
  unfold py_bind. destruct (m st) as [[a|e] st1]; [eauto|done].
Qed.

Lemma for_each_app {A B} (l1 l2 : list A) (f : B → A → Py B) : ∀ acc st,
  for_each (l1 ++ l2) acc f st =
  py_bind (for_each l1 acc f) (λ acc', for_each l2 acc' f) st.
Proof.
  induction l1 as [|a l1 IH]; intros acc st; cbn [for_each app].
  - done.
  - unfold py_bind. destruct (f acc a st) as [[acc'|e] st1]; [|done].
    rewrite IH. done.
Qed.

(** ** Invariants of the state *)


Section Invariants.
Context (I : state → Prop).

Lemma inv_ret {A} (a : A) : inv I (py_ret a).
Proof. by intros st. Qed.
Lemma inv_raise {A} e : inv I (@py_raise A e).
Proof. by intros st. Qed.
Lemma inv_lift {A} (r : res A) : inv I (py_lift r).
Proof. by intros st. Qed.
Lemma inv_get_state : inv I get_state.
Proof. by intros st. Qed.

Lemma inv_bind {A B} (m : Py A) (k : A → Py B) :
  inv I m → (∀ a, inv I (k a)) → inv I (py_bind m k).
Proof.
  intros Hm Hk st HI. unfold py_bind. specialize (Hm st HI).
  destruct (m st) as [[a|e] st1]; simpl in *; [by apply Hk|done].
Qed.

Lemma inv_try_except {A} (body : Py A) handler :
  inv I body → (∀ e h, handler e = Some h → inv I h) →
  inv I (try_except body handler).
Proof.
  intros Hb Hh st HI. unfold try_except. specialize (Hb st HI).
  destruct (body st) as [[a|e] st1]; simpl in *; [done|].
  destruct (handler e) as [h|] eqn:E; [|done]. by eapply Hh.
Qed.

Lemma inv_for_each {A B} (l : list A) (f : B → A → Py B) :
  (∀ acc a, inv I (f acc a)) → ∀ acc, inv I (for_each l acc f).
Proof.
  intros Hf. induction l as [|a l IH]; intros acc; simpl.
  - apply inv_ret.
  - apply inv_bind; [apply Hf|apply IH].
Qed.
End Invariants.


Section Observed.
Context (J : fsys → list string → Prop).

Lemma inv_print_end s e : inv (observes J) (print_end s e).
Proof. by intros st. Qed.
Lemma inv_print s : inv (observes J) (print s).
Proof. by intros st. Qed.
Lemma inv_send r : inv (observes J) (send r).
Proof. by intros st. Qed.
Lemma inv_set_counter n : inv (observes J) (set_counter n).
Proof. by intros st. Qed.
Lemma inv_time_time W : inv (observes J) (time_time W).
Proof. by intros st. Qed.
Lemma inv_os_path_exists p : inv (observes J) (os_path_exists p).
Proof. by intros st. Qed.
Lemma inv_Image_open p : inv (observes J) (Image_open p).
Proof.
  intros st H. unfold Image_open, py_bind, get_state.
  destruct (files (fs st) !! p) as [[]|]; try done. by destruct (bool_decide _).
Qed.
Lemma inv_open_and_load W p : inv (observes J) (open_and_load W p).
Proof.
  intros st H. unfold open_and_load, py_bind, get_state.
  destruct (files (fs st) !! p) as [[]|]; try done. by destruct (bool_decide _).
Qed.
End Observed.

(** ** Paths *)

Lemma prefix_cons a s1 b s2 :
  String.prefix (String a s1) (String b s2)
  = if ascii_dec a b then String.prefix s1 s2 else false.
Proof. reflexivity. Qed.

Lemma startswith_slash_not_vics name :
  startswith "/" name = true → startswith "vics/" name = false.
Proof.
  unfold startswith. destruct name as [|a name]; [done|].
  rewrite !prefix_cons. destruct (ascii_dec "/" a) as [<-|]; [|done].
  intros _. by destruct (ascii_dec "v" "/").
Qed.

Lemma startswith_slash_not_eq name :
  startswith "/" name = true → name ≠ "vics".
Proof. by intros H ->. Qed.

Lemma join_not_vics d name :
  d = "vics" ∨ d = "output" → os_path_join d name ≠ "vics".
Proof.
  intros Hd. unfold os_path_join.
  destruct (startswith "/" name) eqn:E; [by apply startswith_slash_not_eq|].
  destruct Hd as [-> | ->]; simpl; [|done].
  intros H. by simplify_eq.
Qed.

Lemma join_output_not_under name : under "vics" (os_path_join "output" name) = false.
Proof.
  unfold os_path_join, under.
  destruct (startswith "/" name) eqn:E; [by apply startswith_slash_not_vics|done].
Qed.

Lemma vics_not_under : under "vics" "vics" = false.
Proof. done. Qed.

(** ** The working directory stays well formed *)


Lemma inv_wf_os_makedirs d : under "vics" d = false → inv wf_state (os_makedirs d).
Proof.
  intros Hd st [H1 H2]. unfold os_makedirs, py_bind, get_state.
  destruct (bool_decide _); [done|]. destruct (bool_decide _); [done|].
  split; simpl; [done|]. intros p Hp [Hin|Hin].
  - apply elem_of_union in Hin as [Hin|Hin].
    + apply elem_of_singleton in Hin. congruence.
    + apply elem_of_union_r. eapply H2; eauto.
  - apply elem_of_union_r. eapply H2; eauto.
Qed.

Lemma inv_wf_write_file d name content :
  d = "vics" ∨ d = "output" → inv wf_state (write_file d name content).
Proof.
  intros Hd st [H1 H2]. unfold write_file, py_bind, get_state.
  destruct (bool_decide (d ∈ dirs (fs st))) eqn:Ed; [|done]. simpl negb. cbv iota.
  apply bool_decide_eq_true in Ed.
  destruct (bool_decide _); [done|].
  split; simpl.
  - rewrite lookup_insert_ne; [done|]. by apply join_not_vics.
  - intros p Hp [Hin|Hin]; [by eapply H2; eauto|].
    destruct (decide (p = os_path_join d name)) as [->|Hne].
    + destruct Hd as [-> | ->]; [done|]. by rewrite join_output_not_under in Hp.
    + rewrite lookup_insert_ne in Hin by done. eapply H2; eauto.
Qed.


Lemma inv_wf_Image_save W name im : inv wf_state (Image_save W "output" name im).
Proof.
  intros st [H1 H2]. unfold Image_save, py_bind, get_state.
  destruct (negb _); [done|]. destruct (bool_decide _); [done|].
  assert (Hfile : ∀ x, partial_alter (λ _, x) (os_path_join "output" name) (files (fs st))
                       !! "vics" = None).
  { intros x. rewrite lookup_partial_alter_ne; [done|]. apply join_not_vics. by right. }
  assert (Hbelow : ∀ x p, under "vics" p = true →
            p ∈ dirs (fs st) ∨
            is_Some (partial_alter (λ _, x) (os_path_join "output" name) (files (fs st)) !! p) →
            "vics" ∈ dirs (fs st)).
  { intros x p Hp [Hin|Hin]; [by eapply H2; eauto|].
    destruct (decide (p = os_path_join "output" name)) as [->|Hne].
    - by rewrite join_output_not_under in Hp.
    - rewrite lookup_partial_alter_ne in Hin by done. eapply H2; eauto. }
  destruct (jpeg_encodes im); simpl; split; simpl; eauto.
Qed.

Lemma inv_stderr_os_makedirs x d : inv (stderr_is x) (os_makedirs d).
Proof.
  intros st H. unfold os_makedirs, py_bind, get_state.
  destruct (bool_decide _); [done|]. by destruct (bool_decide _).
Qed.

Lemma inv_stderr_write_file x d name content : inv (stderr_is x) (write_file d name content).
Proof.
  intros st H. unfold write_file, py_bind, get_state.
  destruct (negb _); [done|]. by destruct (bool_decide _).
Qed.

Lemma inv_stderr_Image_save x W d name im : inv (stderr_is x) (Image_save W d name im).
Proof.
  intros st H. unfold Image_save, py_bind, get_state.
  destruct (negb _); [done|]. destruct (bool_decide _); [done|].
  by destruct (jpeg_encodes im).
Qed.

#[export] Hint Resolve inv_ret inv_raise inv_lift inv_get_state inv_print inv_print_end
  inv_send inv_set_counter inv_time_time inv_os_path_exists inv_Image_open
  inv_open_and_load : inv_db.

Ltac inv_step :=
  first
    [ assumption
    | solve [auto 1 with inv_db nocore]
    | apply inv_bind; [|intros]
    | apply inv_for_each; intros
    | match goal with
      | |- inv _ (match ?x with _ => _ end) => destruct x
      end ].
Ltac inv_tac := repeat inv_step.


Section Program.
Context (J : fsys → list string → Prop).
Hypothesis Hmk_vics : inv (observes J) (os_makedirs "vics").
Hypothesis Hmk_output : inv (observes J) (os_makedirs "output").
Hypothesis Hwr_vics : ∀ (token_id : Z) content,
  inv (observes J) (write_file "vics" (pretty token_id +:+ ".png") content).
Hypothesis Hsave_output : ∀ W (epoch_time : Z) collage,
  inv (observes J) (Image_save W "output" ("vics_collage_" +:+ pretty epoch_time +:+ ".jpg")
                               collage).
#[local] Hint Resolve Hmk_vics Hmk_output Hwr_vics Hsave_output : inv_db.

Lemma inv_print_progress_bar iteration total prefix suffix length fill :
  inv (observes J) (print_progress_bar iteration total prefix suffix length fill).
Proof. unfold print_progress_bar. inv_tac. Qed.
#[local] Hint Resolve inv_print_progress_bar : inv_db.

Lemma inv_update_progress_bar total : inv (observes J) (update_progress_bar total).
Proof. unfold update_progress_bar, progress. inv_tac. Qed.
#[local] Hint Resolve inv_update_progress_bar : inv_db.

Lemma inv_download_vic_body W self token_id total :
  inv (observes J) (download_vic_body W self token_id (Some (update_progress_bar total))).
Proof. unfold download_vic_body. inv_tac. Qed.

Lemma inv_download_vic_resume W self token_id total :
  inv (observes J) (download_vic_resume W self token_id (Some (update_progress_bar total))).
Proof.
  unfold download_vic_resume. apply inv_try_except.
  - apply inv_download_vic_body.
  - intros e h Hh. unfold download_vic_except in Hh.
    destruct (is_Exception e); simplify_eq. inv_tac.
Qed.
#[local] Hint Resolve inv_download_vic_resume : inv_db.

Lemma inv_resume_task W self total tasks i :
  inv (observes J) (resume_task W self (Some (update_progress_bar total)) tasks i).
Proof.
  unfold resume_task, download_vic_request.
  destruct (tasks !! i) as [[token_id []]|]; inv_tac.
Qed.
#[local] Hint Resolve inv_resume_task : inv_db.

Lemma inv_download_all W self token_ids : inv (observes J) (download_all W self token_ids).
Proof. unfold download_all, asyncio_gather, run_tasks, progress. inv_tac. Qed.
#[local] Hint Resolve inv_download_all : inv_db.

Lemma inv_resolve_tokens W self wallet : inv (observes J) (resolve_tokens W self wallet).
Proof. unfold resolve_tokens. inv_tac. Qed.
#[local] Hint Resolve inv_resolve_tokens : inv_db.

Lemma inv_get_the_vics W self wallet : inv (observes J) (get_the_vics W self wallet).
Proof. unfold get_the_vics. inv_tac. Qed.
#[local] Hint Resolve inv_get_the_vics : inv_db.

Lemma inv_collect_image_files W creator wallets :
  inv (observes J) (collect_image_files W creator wallets).
Proof. unfold collect_image_files. inv_tac. Qed.

Lemma inv_compose_canvas names collage_scale :
  inv (observes J) (compose_canvas names collage_scale).
Proof.
  unfold compose_canvas, scale_images, scale_one, paste_images, paste_one. inv_tac.
Qed.
#[local] Hint Resolve inv_compose_canvas : inv_db.

Lemma inv_make_vic_collage W names collage_scale :
  inv (observes J) (make_vic_collage W names collage_scale).
Proof. unfold make_vic_collage, save_and_report. inv_tac. Qed.
#[local] Hint Resolve inv_make_vic_collage : inv_db.

Lemma inv_main_async_finish W args start_time names :
  inv (observes J) (main_async_finish W (make_vic_collage W) args start_time names).
Proof. unfold main_async_finish. inv_tac. Qed.

Lemma inv_load_configuration W file_path :
  inv (observes J) (load_configuration W file_path).
Proof.
  unfold load_configuration. apply inv_try_except; [apply inv_open_and_load|].
  intros e h Hh. destruct e; simplify_eq; inv_tac.
Qed.
End Program.

(** ** The claims *)

(** C9. [load_configuration] never raises for a missing file or for
    malformed JSON: each prints its diagnostic and yields the empty mapping;
    on a file that decodes it returns the decoded value as it is, whatever
    its keys. *)
Theorem load_configuration_outcomes (W : world) (file_path : string) (st : state) :
  (files (fs st) !! file_path = None → file_path ∉ dirs (fs st) →
   load_configuration W file_path st
   = (Ok (JDict []), emit [("Configuration file not found: " +:+ file_path) +:+ LF] st)) ∧
  (∀ text, files (fs st) !! file_path = Some (OtherFile text) →
           json_loads W text = Raise JSONDecodeError →
   load_configuration W file_path st
   = (Ok (JDict []), emit [("Error decoding JSON from the file: " +:+ file_path) +:+ LF] st)) ∧
  (∀ text config, files (fs st) !! file_path = Some (OtherFile text) →
                  json_loads W text = Ok config →
   load_configuration W file_path st = (Ok config, st)).
Proof.
  unfold load_configuration, try_except, open_and_load, py_bind, get_state.
  split; [|split].
  - intros -> Hnd. rewrite bool_decide_eq_false_2 by done. done.
  - intros text -> Hj. unfold py_lift. rewrite Hj. done.
  - intros text config -> Hj. unfold py_lift. rewrite Hj. done.
Qed.

(** A total of zero: the division by [float(total)] raises. *)
Lemma of_int_raises n e : Float64.of_int n = Raise e → e = OverflowError.
Proof.
  unfold Float64.of_int. destruct (binary_normalize _ _ _ _ _); intros H; by simplify_eq.
Qed.

Lemma print_progress_bar_zero iteration prefix suffix length fill st :
  ∃ e, print_progress_bar iteration 0 prefix suffix length fill st = (Raise e, st) ∧
       (e = ZeroDivisionError ∨
        e = OverflowError ∧ Float64.of_int iteration = Raise OverflowError).
Proof.
  unfold print_progress_bar.
  change (Float64.of_int 0) with (Ok (S754_zero false)).
  unfold py_bind at 1. rewrite run_lift.
  unfold py_bind at 1. rewrite run_lift. unfold Float64.int_div_float.
  destruct (Float64.of_int iteration) as [x|e] eqn:E; simpl.
  - exists ZeroDivisionError. split; [done|by left].
  - exists e. apply of_int_raises in E as ->. split; [done|by right].
Qed.

(** Names that are not on disk are skipped with a warning each. *)
Lemma scale_images_none collage_scale names : ∀ acc st,
  Forall (λ name, path_exists (fs st) (os_path_join "vics" name) = false) names →
  for_each names acc (scale_one collage_scale) st
  = (Ok acc, emit (warning <$> names) st).
Proof.
  induction names as [|name names IH]; intros acc st Hall; cbn [for_each].
  - by rewrite emit_nil.
  - inversion Hall as [|? ? Hn Hr]; subst.
    rewrite (run_bind_ok _ _ _ _ _ (scale_one_missing _ _ _ _ Hn)).
    rewrite IH by done. by rewrite emit_emit.
Qed.

(** C6. Called with no name at all, or with names none of which exists in
    the working directory, [make_vic_collage] returns normally after
    printing its message, and the file system is what it was: no output
    directory, no collage file. *)
Theorem no_images_no_output (W : world) (image_files : list string)
    (collage_scale : spec_float) (st : state) :
  image_files = [] ∨
  Forall (λ name, path_exists (fs st) (os_path_join "vics" name) = false) image_files →
  ∃ out message,
    make_vic_collage W image_files collage_scale st
    = (Ok (), emit (out ++ [message +:+ LF]) st) ∧
    fs (emit (out ++ [message +:+ LF]) st) = fs st.
Proof.
  intros H. assert (Hnone : Forall (λ name,
      path_exists (fs st) (os_path_join "vics" name) = false) image_files).
  { destruct H as [->|H]; [constructor|done]. }
  unfold make_vic_collage, compose_canvas.
  destruct image_files as [|name names].
  - exists [], "No images to create a collage. Exiting...". done.
  - exists (warning <$> (name :: names)), "No valid images found for collage. Exiting...".
    split; [|done]. unfold scale_images, py_bind.
    rewrite (scale_images_none _ _ _ _ Hnone), run_print, run_ret, emit_emit. done.
Qed.

(** C4. With [n >= 1] images on disk (below [2^52] of them), each of them
    successfully scaled (neither side shrinks below one pixel), a scale the
    orchestrator accepts and readable files: the rows are the integer
    square root of [n], the columns the ceiling of [n / rows], and rows
    times columns covers [n]; every image is resized to the floors of its
    sides times the scale, the product being the float one; the canvas is
    the greatest scaled width times the columns by the greatest scaled
    height times the rows, filled black. *)
Theorem grid_and_canvas (image_files : list string) (collage_scale : spec_float)
    (st : state) :
  Float64.is_binary64 collage_scale → scale_in_range collage_scale = true →
  Forall (readable (fs st)) image_files →
  let images := images_on_disk (fs st) image_files in
  let n := Z.of_nat (length images) in
  let rows := Z.sqrt n in
  let columns := ceil_div n rows in
  Forall (λ im, keeps_both_sides collage_scale im = true) images →
  1 ≤ n < 2 ^ 52 →
  grid_shape n = Ok (rows, columns) ∧
  rows * rows ≤ n < (rows + 1) * (rows + 1) ∧
  (columns - 1) * rows < n ≤ columns * rows ∧
  ∃ scaled max_w max_h ops st',
    scale_images image_files collage_scale st = (Ok scaled, st') ∧
    Forall2 (scaled_by collage_scale) images scaled ∧
    is_max max_w (img_width <$> scaled) ∧
    is_max max_h (img_height <$> scaled) ∧
    compose_canvas image_files collage_scale st
    = (Ok (Some (Collage (max_w * columns) (max_h * rows) (0, 0, 0) ops)), st').
Proof.
  intros Hv Hr Hall images n rows columns Hkeep Hn.
  split; [by apply grid_shape_spec|].
  split; [apply (Z.sqrt_spec n); lia|].
  split.
  { unfold columns, ceil_div. pose proof (sqrt_range n Hn) as Hrows. fold rows in Hrows.
    pose proof (Z.div_mod (n + rows - 1) rows ltac:(lia)).
    pose proof (Z.mod_pos_bound (n + rows - 1) rows ltac:(lia)). nia. }
  destruct (compose_canvas_spec image_files collage_scale st Hv Hr Hall Hkeep Hn)
    as (scaled & max_w & max_h & ops & H1 & H2 & H3 & H4 & _ & H6).
  exists scaled, max_w, max_h, ops. eexists. repeat split; try done; apply H3 || apply H4.
Qed.

(** C5. When every name is on disk, the paste loop draws, in the order of
    the names, each image pasted at the cursor and its label at the same
    position; the cursor starts at (0, 0), moves right by the width of what
    was pasted, and wraps to the left, down by the height of the last pasted
    image, when it reaches the canvas width. This holds for whatever scaled
    images and canvas width the loop is given; and through the whole
    composer, when the names hold images that the scaling keeps (neither
    side shrinks below one pixel), the canvas holds exactly that walk over
    the names and their scaled images. *)
Theorem paste_order (image_files : list string) (collage_scale : spec_float)
    (st : state) :
  Forall (λ name, path_exists (fs st) (os_path_join "vics" name) = true) image_files →
  (∀ scaled_images collage_width,
     paste_images image_files scaled_images collage_width st
     = (Ok (walk collage_width 0 0 (zip image_files scaled_images)), st)) ∧
  (∀ images,
     Float64.is_binary64 collage_scale → scale_in_range collage_scale = true →
     Forall2 (λ name im, stored_image (fs st) name = Some im ∧
                         0 ≤ img_width im < 2 ^ 53 ∧ 0 ≤ img_height im < 2 ^ 53 ∧
                         keeps_both_sides collage_scale im = true)
             image_files images →
     1 ≤ Z.of_nat (length image_files) < 2 ^ 52 →
     ∃ scaled collage_width collage_height,
       Forall2 (scaled_by collage_scale) images scaled ∧
       compose_canvas image_files collage_scale st
       = (Ok (Some (Collage collage_width collage_height BLACK
                      (walk collage_width 0 0 (zip image_files scaled)))), st)).
Proof.
  intros Hex. split; [intros; by apply paste_images_walk|].
  intros images Hv Hr Hall Hn.
  assert (Hread : Forall (readable (fs st)) image_files).
  { clear -Hall.
    induction Hall as [|name im names ims (H1 & H2 & H3 & H4) _ IH]; constructor; [|done].
    intros _. eauto. }
  assert (Hdisk : images_on_disk (fs st) image_files = images).
  { clear -Hall. unfold images_on_disk.
    induction Hall as [|name im names ims (H1 & H2 & H3 & H4) _ IH]; [done|].
    cbn [omap list_omap]. rewrite H1. f_equal. exact IH. }
  assert (Hkeep : Forall (λ im, keeps_both_sides collage_scale im = true) images).
  { clear -Hall.
    induction Hall as [|name im names ims (H1 & H2 & H3 & H4) _ IH]; by constructor. }
  assert (Hwarn : warnings (fs st) image_files = []).
  { clear -Hex. unfold warnings. induction Hex as [|name names H _ IH]; [done|].
    rewrite filter_cons, decide_False by congruence. done. }
  assert (Hlen : length images = length image_files) by (symmetry; by eapply Forall2_length).
  destruct (compose_canvas_spec image_files collage_scale st Hv Hr Hread)
    as (scaled & max_w & max_h & ops & H1 & H2 & H3 & H4 & H5 & H6).
  { by rewrite Hdisk. }
  { rewrite Hdisk, Hlen. done. }
  rewrite Hdisk in *. rewrite Hwarn, emit_nil in *.
  rewrite paste_images_walk in H5 by done. injection H5 as <-.
  eexists scaled, _, _. split; [done|]. exact H6.
Qed.

Lemma load_configuration_run W p st :
  ∃ r out, load_configuration W p st = (r, emit out st).
Proof.
  unfold load_configuration, try_except, open_and_load, py_bind, get_state, py_lift.
  destruct (files (fs st) !! p) as [[im|text]|].
  - exists (Raise (OtherError "UnicodeDecodeError")), []. by rewrite emit_nil.
  - destruct (json_loads W text) as [cfg|e].
    + exists (Ok cfg), []. by rewrite emit_nil.
    + destruct e; try (eexists _, []; rewrite emit_nil; reflexivity); by eexists _, [_].
  - destruct (bool_decide _).
    + eexists _, []; rewrite emit_nil; reflexivity.
    + by eexists _, [_].
Qed.

Lemma load_configuration_mapping W st :
  config_is_mapping W (fs st) →
  ∃ items out, load_configuration W "config.json" st = (Ok (JDict items), emit out st).
Proof.
  unfold config_is_mapping.
  unfold load_configuration, try_except, open_and_load, py_bind, get_state, py_lift.
  destruct (files (fs st) !! "config.json") as [[im|text]|]; [done| |].
  - destruct (json_loads W text) as [[]|[]]; try done.
    + intros _. eexists _, []. by rewrite emit_nil.
    + intros _. by eexists [], [_].
  - intros H. rewrite bool_decide_eq_false_2 by done. by eexists [], [_].
Qed.

Lemma setup_rejects W args st :
  scale_in_range (collage_scale args) = false →
  ∃ e st', main_async_setup W args st = (Raise e, st') ∧ net st' = net st ∧
           (config_is_mapping W (fs st) →
            e = SystemExit 2 ∧ stderr st' = stderr st ++ [usage_message]).
Proof.
  intros Hs. unfold main_async_setup. rewrite Hs. simpl negb. cbv iota.
  unfold py_bind at 1. unfold time_time at 1.
  unfold py_bind at 1. unfold print_ascii_vic at 1. rewrite run_print.
  set (st2 := emit _ _).
  unfold py_bind at 1.
  destruct (load_configuration_run W "config.json" st2) as (r & out & Er).
  rewrite Er. destruct r as [cfg|e].
  - destruct cfg; try (eexists _, _; split; [reflexivity|]; split; [done|];
      intros Hc; destruct (load_configuration_mapping W st2 Hc) as (items & out' & E');
      rewrite E' in Er; by simplify_eq).
    eexists _, _. split; [reflexivity|]. split; [done|]. intros _. done.
  - eexists _, _. split; [reflexivity|]. split; [done|].
    intros Hc. destruct (load_configuration_mapping W st2 Hc) as (items & out' & E').
    rewrite E' in Er. by simplify_eq.
Qed.

Lemma inv_stderr_setup W args x :
  scale_in_range (collage_scale args) = true →
  inv (stderr_is x) (main_async_setup W args).
Proof.
  intros Hs. unfold main_async_setup, stderr_is. rewrite Hs. simpl negb. cbv iota.
  unfold print_ascii_vic.
  pose proof (inv_load_configuration (λ _ e, e = x) W "config.json").
  inv_tac.
Qed.

Lemma inv_stderr_main_async W args x :
  scale_in_range (collage_scale args) = true →
  inv (stderr_is x) (main_async W args).
Proof.
  intros Hs. unfold main_async, main_async_with.
  apply inv_bind; [by apply inv_stderr_setup|]. intros [t0 creator]. unfold stderr_is.
  apply inv_bind; [|intros].
  - apply inv_collect_image_files; intros;
      first [apply inv_stderr_os_makedirs | apply inv_stderr_write_file].
  - apply inv_main_async_finish; intros;
      first [apply inv_stderr_os_makedirs | apply inv_stderr_Image_save].
Qed.

(** C7, as amended. For a namespace that [parse_args] returned and a
    configuration that is a mapping, [main_async] ends with the usage error
    of [parser.error] exactly when the scale is outside [0.010, 1.0]; a
    rejected scale sends nothing to the network; the default scale is
    accepted. *)
Theorem scale_is_checked_first (W : world) (args : Namespace) (st : state) :
  config_is_mapping W (fs st) →
  let '(r, st') := main_async W args st in
  ((r = Raise (SystemExit 2) ∧ stderr st' = stderr st ++ [usage_message])
   ↔ scale_in_range (collage_scale args) = false) ∧
  (scale_in_range (collage_scale args) = false → net st' = net st) ∧
  scale_in_range default_collage_scale = true.
Proof.
  intros Hc. destruct (main_async W args st) as [r st'] eqn:E.
  destruct (scale_in_range (collage_scale args)) eqn:Hs.
  - split; [|split; [done|by vm_compute]].
    split; [|done]. intros [_ Herr].
    pose proof (inv_stderr_main_async W args (stderr st) Hs st eq_refl) as Hk.
    rewrite E in Hk. unfold stderr_is, observes in Hk. simpl in Hk.
    rewrite Hk in Herr. apply (f_equal length) in Herr.
    rewrite length_app in Herr. simpl in Herr. lia.
  - destruct (setup_rejects W args st Hs) as (e & st1 & Es & Hnet & Hmap).
    unfold main_async, main_async_with in E.
    rewrite (run_bind_raise _ _ _ _ _ Es) in E. injection E as <- <-.
    destruct (Hmap Hc) as [-> Herr].
    split; [|split; [done|by vm_compute]]. split; done.
Qed.

(** C7 as stated fails: with a [config.json] that holds a JSON list, a
    scale of 0.005 does not end in the usage error. The run stops with
    [AttributeError] at the first [config.get], before the check, and
    nothing is written to standard error. *)
Lemma scale_check_comes_after_config :
  scale_in_range (Float64.literal 5 3) = false ∧
  (main_async (world_decoding (JList [JInt 1])) (Args ["0xA"] (Float64.literal 5 3))
              (Scenario.start Scenario.fs_config_only)).1 = Raise AttributeError ∧
  stderr (main_async (world_decoding (JList [JInt 1])) (Args ["0xA"] (Float64.literal 5 3))
                     (Scenario.start Scenario.fs_config_only)).2 = [].
Proof. by vm_compute. Qed.

(** *** Well-formedness through the run *)

Lemma inv_wf_setup W args : inv wf_state (main_async_setup W args).
Proof.
  unfold main_async_setup, wf_state, print_ascii_vic.
  pose proof (inv_load_configuration (λ f _, vics_wf f) W "config.json").
  assert (∀ A msg, inv (observes (λ f _, vics_wf f)) (@parser_error A msg))
    by (intros A msg s Hs; exact Hs).
  inv_tac.
Qed.

Lemma inv_wf_collect W creator wallets : inv wf_state (collect_image_files W creator wallets).
Proof.
  apply inv_collect_image_files; intros;
    first [by apply inv_wf_os_makedirs | apply inv_wf_write_file; by left ].
Qed.

Lemma inv_wf_main_async W args : inv wf_state (main_async W args).
Proof.
  unfold main_async, main_async_with.
  apply inv_bind; [apply inv_wf_setup|]. intros [t0 creator].
  apply inv_bind; [apply inv_wf_collect|]. intros names.
  apply inv_main_async_finish; intros;
    first [by apply inv_wf_os_makedirs | apply inv_wf_Image_save].
Qed.

(** *** What the resolver returns *)

Lemma resolve_tokens_run W self wallet st :
  match resolved_ids W self wallet with
  | Some raw =>
      ∃ a, to_checksum_address W (JStr wallet) = Ok a ∧
      let st1 := State (fs st) (stdout st) (stderr st) (net st ++ [RpcTokensOfOwner a])
                       (ticks st) (progress_counter st) in
      resolve_tokens W self wallet st =
        py_bind (os_makedirs "vics") (λ _, py_ret (merge_sort Z.le raw)) st1
  | None => ∃ e st', resolve_tokens W self wallet st = (Raise e, st')
  end.
Proof.
  unfold resolved_ids, resolve_tokens.
  destruct (to_checksum_address W (contract_address self)) as [c|e];
    [|by eexists _, _].
  destruct (to_checksum_address W (JStr wallet)) as [a|e]; [|by eexists _, _].
  destruct (tokensOfOwner W self c a) as [raw|e] eqn:Et.
  - exists a. split; [done|]. unfold py_bind, py_lift, send. rewrite Et. done.
  - eexists _, _. unfold py_bind, py_lift, send. rewrite Et. done.
Qed.

Lemma get_the_vics_result W self wallet st ids st' :
  get_the_vics W self wallet st = (Ok ids, st') →
  ∃ raw, resolved_ids W self wallet = Some raw ∧ ids = merge_sort Z.le raw.
Proof.
  unfold get_the_vics. intros H.
  apply bind_inv_ok in H as (ids0 & st1 & Hres & H).
  apply bind_inv_ok in H as (u & st2 & _ & H). injection H as <- <-.
  pose proof (resolve_tokens_run W self wallet st) as Hrun.
  destruct (resolved_ids W self wallet) as [raw|].
  - destruct Hrun as (a & _ & Hrun). exists raw. split; [done|].
    rewrite Hrun in Hres. apply bind_inv_ok in Hres as (u' & st3 & _ & Hres).
    by injection Hres as <- _.
  - destruct Hrun as (e & st3 & Hrun). rewrite Hrun in Hres. done.
Qed.

Lemma collect_result W creator wallets : ∀ (acc : list string) st names st',
  for_each wallets acc (λ (all_image_files : list string) wallet_address,
    print ("Processing wallet: " +:+ wallet_address) ;;;
    token_ids <- get_the_vics W creator wallet_address ;;
    py_ret (all_image_files ++ (png_name <$> (token_ids : list Z)))) st = (Ok names, st') →
  ∃ idss : list (list Z),
    Forall2 (λ wallet ids, ∃ raw, resolved_ids W creator wallet = Some raw ∧
                                  ids = merge_sort Z.le raw) wallets idss ∧
    names = acc ++ concat ((λ ids : list Z, png_name <$> ids) <$> idss).
Proof.
  induction wallets as [|w wallets IH]; intros acc st names st' H; cbn [for_each] in H.
  - injection H as <- <-. exists []. split; [constructor|]. by rewrite app_nil_r.
  - apply bind_inv_ok in H as (acc' & st1 & Hstep & H).
    apply bind_inv_ok in Hstep as (u & st2 & _ & Hstep).
    apply bind_inv_ok in Hstep as (ids & st3 & Hget & Hstep). injection Hstep as <- <-.
    apply get_the_vics_result in Hget as (raw & Hraw & ->).
    apply IH in H as (idss & Hf & ->).
    exists (merge_sort Z.le raw :: idss). split.
    + constructor; [eauto|done].
    + simpl. by rewrite <- app_assoc.
Qed.

(** C3. Whenever the wallet loop completes, the list it hands to the
    composer is the concatenation, wallet by wallet in argument order, of
    [{id}.png] for the ascending sorted ids the contract reports for that
    wallet: the outcome of the downloads plays no part, and any composer is
    called with exactly that list. *)
Theorem composer_receives_resolved_names (W : world) (args : Namespace) (st : state)
    (start_time : spec_float) (creator : VicCollageCreator) (st0 : state)
    (names : list string) (st1 : state) :
  main_async_setup W args st = (Ok (start_time, creator), st0) →
  collect_image_files W creator (target_wallet_addresses args) st0 = (Ok names, st1) →
  (∃ idss : list (list Z),
     Forall2 (λ wallet ids, ∃ raw, resolved_ids W creator wallet = Some raw ∧
                                   Sorted Z.le ids ∧ ids ≡ₚ raw)
             (target_wallet_addresses args) idss ∧
     names = concat ((λ ids : list Z, png_name <$> ids) <$> idss)) ∧
  ∀ composer,
    names ≠ [] →
    main_async_with W composer args st
    = (composer names (collage_scale args) ;;; report_elapsed W start_time) st1.
Proof.
  intros Hsetup Hcollect. split.
  - apply collect_result in Hcollect as (idss & Hf & ->). exists idss. split; [|done].
    eapply Forall2_impl; [exact Hf|]. intros w ids (raw & Hraw & ->).
    exists raw. split; [done|]. split.
    + apply Sorted_merge_sort. apply _.
    + apply merge_sort_Permutation.
  - intros composer Hne. unfold main_async_with.
    rewrite (run_bind_ok _ _ _ _ _ Hsetup). cbv iota beta.
    rewrite (run_bind_ok _ _ _ _ _ Hcollect).
    unfold main_async_finish. by destruct names.
Qed.

(** *** A wallet without tokens *)

Lemma get_the_vics_no_tokens W self wallet st :
  resolved_ids W self wallet = Some [] →
  files (fs st) !! "vics" = None →
  ∃ a st', to_checksum_address W (JStr wallet) = Ok a ∧
           get_the_vics W self wallet st = (Raise ZeroDivisionError, st') ∧
           net st' = net st ++ [RpcTokensOfOwner a].
Proof.
  intros Hres Hfile.
  pose proof (resolve_tokens_run W self wallet st) as Hrun. rewrite Hres in Hrun.
  destruct Hrun as (a & Ha & Hrun). exists a. cbv zeta in Hrun.
  set (st1 := State _ _ _ _ _ _) in Hrun.
  assert (Hmk : ∃ st2, os_makedirs "vics" st1 = (Ok (), st2) ∧ net st2 = net st1).
  { unfold os_makedirs, py_bind, get_state. destruct (bool_decide _); [by eexists|].
    rewrite bool_decide_eq_false_2; [by eexists|].
    rewrite not_elem_of_dom. done. }
  destruct Hmk as (st2 & Hmk & Hnet).
  rewrite (run_bind_ok _ _ _ _ _ Hmk), run_ret in Hrun.
  change (merge_sort Z.le []) with (@nil Z) in Hrun.
  exists st2. split; [done|]. split; [|by rewrite Hnet].
  unfold get_the_vics. rewrite (run_bind_ok _ _ _ _ _ Hrun).
  destruct (print_progress_bar_zero 0 "Progress:" "Complete" 50 "█" st2) as (e & E & He).
  destruct He as [->|[-> Hof]]; [|done].
  apply run_bind_raise. unfold download_all. apply run_bind_raise. exact E.
Qed.

(** C10. [print_progress_bar] with a total of zero always raises; and when
    the wallet loop reaches a wallet that owns no token, the run ends with
    [ZeroDivisionError] right after the contract call, before any download
    and without the reset of the working directory. *)
Theorem zero_tokens_abort (W : world) (args : Namespace) (st : state)
    (start_time : spec_float) (creator : VicCollageCreator) (st0 : state)
    (pre : list string) (wallet : string) (post acc : list string) (st1 : state) :
  vics_wf (fs st) →
  main_async_setup W args st = (Ok (start_time, creator), st0) →
  target_wallet_addresses args = pre ++ wallet :: post →
  collect_image_files W creator pre st0 = (Ok acc, st1) →
  resolved_ids W creator wallet = Some [] →
  (∀ iteration prefix suffix length fill st',
     ∃ e, print_progress_bar iteration 0 prefix suffix length fill st' = (Raise e, st') ∧
          (e = ZeroDivisionError ∨
           e = OverflowError ∧ Float64.of_int iteration = Raise OverflowError)) ∧
  (∃ a st2, to_checksum_address W (JStr wallet) = Ok a ∧
            main W args st = (Raise ZeroDivisionError, st2) ∧
            net st2 = net st1 ++ [RpcTokensOfOwner a]).
Proof.
  intros Hwf Hsetup Hw Hpre Hres.
  split; [intros; apply print_progress_bar_zero|].
  assert (Hwf1 : wf_state st1).
  { pose proof (inv_wf_setup W args st Hwf) as H0. rewrite Hsetup in H0.
    pose proof (inv_wf_collect W creator pre st0 H0) as H1. by rewrite Hpre in H1. }
  destruct (get_the_vics_no_tokens W creator wallet
              (emit ["Processing wallet: " +:+ wallet +:+ LF] st1) Hres)
    as (a & st2 & Ha & Hg & Hn).
  { apply Hwf1. }
  exists a, st2. split; [done|]. split; [|done].
  unfold main, main_async, main_async_with.
  apply run_bind_raise. rewrite (run_bind_ok _ _ _ _ _ Hsetup). cbv iota beta.
  apply run_bind_raise. unfold collect_image_files in *. rewrite Hw, for_each_app.
  rewrite (run_bind_ok _ _ _ _ _ Hpre). cbn [for_each].
  apply run_bind_raise. rewrite (run_bind_ok _ _ _ _ _ (run_print _ _)).
  apply run_bind_raise. exact Hg.
Qed.

Lemma run_rmtree_in d st :
  d ∈ dirs (fs st) →
  shutil_rmtree d st =
    set_fs (Fsys (filter (λ p, p ≠ d ∧ under d p = false) (dirs (fs st)))
                 (filter (λ kv, under d kv.1 = false) (files (fs st)))) st.
Proof.
  intros H. unfold shutil_rmtree, py_bind, get_state. by rewrite (bool_decide_eq_true_2 _ H).
Qed.

Lemma run_rmtree_out d st : d ∉ dirs (fs st) → shutil_rmtree d st = (Ok (), st).
Proof.
  intros H. unfold shutil_rmtree, py_bind, get_state. by rewrite (bool_decide_eq_false_2 _ H).
Qed.

Lemma run_mkdir d st :
  path_exists (fs st) d = false →
  os_mkdir d st = set_fs (Fsys ({[d]} ∪ dirs (fs st)) (files (fs st))) st.
Proof. intros H. unfold os_mkdir, py_bind, get_state. by rewrite H. Qed.

Lemma reset_from_wf st :
  vics_wf (fs st) →
  ∃ st2, reset_working_directory st = (Ok (), st2) ∧
         "vics" ∈ dirs (fs st2) ∧ vics_empty (fs st2).
Proof.
  intros [Hfile Hbelow]. unfold reset_working_directory.
  destruct (decide ("vics" ∈ dirs (fs st))) as [Hin|Hout].
  - rewrite (run_bind_ok _ _ _ _ _ (run_rmtree_in _ _ Hin)).
    rewrite run_mkdir.
    2:{ unfold path_exists. simpl. apply orb_false_iff. split; apply bool_decide_eq_false.
        - rewrite elem_of_filter. tauto.
        - rewrite elem_of_dom. intros [x Hx]. apply map_lookup_filter_Some in Hx as [Hx _].
          congruence. }
    eexists. split; [reflexivity|]. simpl. split.
    + apply elem_of_union_l, elem_of_singleton. done.
    + intros p Hp. split.
      * intros Hp'. apply elem_of_union in Hp' as [Hs|Hf].
        -- apply elem_of_singleton in Hs. by subst.
        -- apply elem_of_filter in Hf as [[_ Hu] _]. congruence.
      * apply map_lookup_filter_None. right. intros x _. simpl. congruence.
  - rewrite (run_bind_ok _ _ _ _ _ (run_rmtree_out _ _ Hout)).
    rewrite run_mkdir.
    2:{ unfold path_exists. apply orb_false_iff. split; apply bool_decide_eq_false; [done|].
        by rewrite not_elem_of_dom. }
    eexists. split; [reflexivity|]. simpl. split.
    + apply elem_of_union_l, elem_of_singleton. done.
    + intros p Hp. split.
      * intros Hp'. apply elem_of_union in Hp' as [Hs|Hd].
        -- apply elem_of_singleton in Hs. by subst.
        -- apply Hout. eapply Hbelow; eauto.
      * destruct (files (fs st) !! p) eqn:E; [|done].
        exfalso. apply Hout. eapply Hbelow; eauto.
Qed.

Lemma os_makedirs_ok d st u st' :
  os_makedirs d st = (Ok u, st') →
  files (fs st') = files (fs st) ∧ dirs (fs st') = {[d]} ∪ dirs (fs st).
Proof.
  unfold os_makedirs, py_bind, get_state.
  destruct (decide (d ∈ dirs (fs st))) as [Hin|Hout].
  - rewrite (bool_decide_eq_true_2 _ Hin). intros [= _ <-].
    split; [done|]. symmetry. apply subseteq_union_1_L. by apply singleton_subseteq_l.
  - rewrite (bool_decide_eq_false_2 _ Hout).
    destruct (bool_decide _); [done|]. by intros [= _ <-].
Qed.

Lemma resolve_tokens_keeps_files W self wallet st ids st1 :
  resolve_tokens W self wallet st = (Ok ids, st1) →
  files (fs st1) = files (fs st) ∧ dirs (fs st1) = {["vics"]} ∪ dirs (fs st).
Proof.
  intros H. pose proof (resolve_tokens_run W self wallet st) as Hrun.
  destruct (resolved_ids W self wallet) as [raw|].
  - destruct Hrun as (a & _ & Hrun). cbv zeta in Hrun. rewrite Hrun in H. clear Hrun.
    apply bind_inv_ok in H as (u & st2 & Hmk & H). injection H as _ <-.
    by apply os_makedirs_ok in Hmk.
  - destruct Hrun as (e & st3 & Hrun). rewrite Hrun in H. done.
Qed.

(** C8, as amended. Before a batch the working directory is only created
    when missing: the resolver leaves every file where it is. The reset
    (delete, then recreate) is the last step of the script: it runs after
    [main_async] has returned normally and leaves [vics] present and empty;
    when [main_async] ends with an exception the reset does not run. *)
Theorem working_directory_lifecycle (W : world) (args : Namespace) (st : state) :
  vics_wf (fs st) →
  (∀ st1, main_async W args st = (Ok (), st1) →
     ∃ st2, reset_working_directory st1 = (Ok (), st2) ∧
            main W args st = (Ok (), st2) ∧
            "vics" ∈ dirs (fs st2) ∧ vics_empty (fs st2)) ∧
  (∀ e st1, main_async W args st = (Raise e, st1) → main W args st = (Raise e, st1)) ∧
  (∀ self wallet st' ids st1',
     resolve_tokens W self wallet st' = (Ok ids, st1') →
     files (fs st1') = files (fs st') ∧ dirs (fs st1') = {["vics"]} ∪ dirs (fs st')).
Proof.
  intros Hwf. split; [|split; [|intros; by eapply resolve_tokens_keeps_files]].
  - intros st1 Hrun.
    pose proof (inv_wf_main_async W args st Hwf) as Hwf1. rewrite Hrun in Hwf1.
    destruct (reset_from_wf st1 Hwf1) as (st2 & Hreset & Hdir & Hempty).
    exists st2. split; [done|]. split; [|done].
    unfold main. by rewrite (run_bind_ok _ _ _ _ _ Hrun).
  - intros e st1 Hrun. unfold main. by rewrite (run_bind_raise _ _ _ _ _ Hrun).
Qed.

(** C8 as stated fails: a file left in [vics/] by an earlier run is still
    there when the downloads of the next run begin. *)
Lemma stale_files_at_download_start :
  ∃ st1,
    resolve_tokens (Scenario.world_of [1] Scenario.all_found []) Scenario.creator "0xA"
      (Scenario.start Scenario.fs_stale) = (Ok [1], st1) ∧
    ¬ vics_empty (fs st1).
Proof.
  eexists. split; [vm_compute; reflexivity|].
  intros H. destruct (H "vics/9.png" eq_refl) as [_ Hf]. vm_compute in Hf. discriminate.
Qed.

(** A transport error leaves the task in the handler, past the callback. *)
Lemma transport_error_skips_callback W self token_id total msg st :
  http_get W (vic_base_url self) token_id = TransportError msg →
  download_vic_resume W self token_id (Some (update_progress_bar total)) st
  = (Ok (), emit [("Error downloading Vic " +:+ pretty token_id +:+ ".png: " +:+ msg) +:+ LF] st).
Proof.
  intros H. unfold download_vic_resume, try_except, download_vic_body, py_bind, py_lift.
  rewrite H. simpl. done.
Qed.

(** C1 does not hold of the script: with one token whose download ends in
    a transport error, the batch returns normally and the counter is still
    0, not the total 1. *)
Example counter_stops_short :
  let W := Scenario.world_of [7] Scenario.seven_unreachable [] in
  let st := Scenario.start (Fsys {["vics"]} ∅) in
  let total := Z.of_nat (length [7]) in
  (download_all W Scenario.creator [7] st).1 = Ok () ∧
  progress_counter (download_all W Scenario.creator [7] st).2 = 0 ∧
  total = 1.
Proof. by vm_compute. Qed.

(** C2 does not hold of the script: with 1.png missing and 2.png, 3.png on
    disk, the only paste is the image of 3.png, labelled "2"; the image of
    2.png is not pasted at all. *)
Example missing_file_misaligns_the_rest :
  compose_canvas Scenario.three_names default_collage_scale
    (Scenario.start Scenario.fs_two_of_three)
  = (Ok (Some (Collage 200 50 BLACK
                 [Paste (Resized (Scenario.art 3) 100 50) 0 0; Text 0 0 "2" WHITE])),
     emit [warning "1.png"] (Scenario.start Scenario.fs_two_of_three)).
Proof. by vm_compute. Qed.

(** ** Witnesses *)

Lemma grid_and_canvas_witness :
  Float64.is_binary64 default_collage_scale ∧
  scale_in_range default_collage_scale = true ∧
  Forall (readable Scenario.fs_two_of_three) Scenario.three_names ∧
  let images := images_on_disk Scenario.fs_two_of_three Scenario.three_names in
  let n := Z.of_nat (length images) in
  let rows := Z.sqrt n in
  let columns := ceil_div n rows in
  Forall (λ im, keeps_both_sides default_collage_scale im = true) images ∧
  1 ≤ n < 2 ^ 52 ∧
  grid_shape n = Ok (rows, columns) ∧
  rows * rows ≤ n < (rows + 1) * (rows + 1) ∧
  (columns - 1) * rows < n ≤ columns * rows ∧
  ∃ scaled max_w max_h ops st',
    scale_images Scenario.three_names default_collage_scale (Scenario.start Scenario.fs_two_of_three) = (Ok scaled, st') ∧
    Forall2 (scaled_by default_collage_scale) images scaled ∧
    is_max max_w (img_width <$> scaled) ∧
    is_max max_h (img_height <$> scaled) ∧
    compose_canvas Scenario.three_names default_collage_scale (Scenario.start Scenario.fs_two_of_three)
    = (Ok (Some (Collage (max_w * columns) (max_h * rows) (0, 0, 0) ops)), st').
Proof.
  assert (H1 : Float64.is_binary64 default_collage_scale) by reflexivity.
  assert (H2 : scale_in_range default_collage_scale = true) by reflexivity.
  assert (H3 : Forall (readable Scenario.fs_two_of_three) Scenario.three_names).
  { repeat constructor; intros Hex; vm_compute in Hex; try discriminate;
      eexists; (split; [vm_compute; reflexivity|]); simpl; lia. }
  assert (Hk : Forall (λ im, keeps_both_sides default_collage_scale im = true)
                 (images_on_disk Scenario.fs_two_of_three Scenario.three_names)).
  { assert (E : images_on_disk Scenario.fs_two_of_three Scenario.three_names
                = [Scenario.art 2; Scenario.art 3]) by (vm_compute; reflexivity).
    rewrite E. repeat constructor. }
  assert (H4 : 1 ≤ Z.of_nat (length (images_on_disk Scenario.fs_two_of_three Scenario.three_names)) < 2 ^ 52)
    by (vm_compute; split; [discriminate|reflexivity]).
  split; [exact H1|]. split; [exact H2|]. split; [exact H3|].
  intros images n rows columns. split; [exact Hk|]. split; [exact H4|].
  exact (grid_and_canvas Scenario.three_names default_collage_scale (Scenario.start Scenario.fs_two_of_three)
           H1 H2 H3 Hk H4).
Defined.

Lemma paste_order_witness :
  let names := Scenario.five_names in
  let images := [Scenario.art 3; Scenario.art 1; Scenario.art 5; Scenario.art 2;
                 Scenario.art 4] in
  let scaled := [Resized (Scenario.art 3) 100 50; Resized (Scenario.art 1) 100 50;
                 Resized (Scenario.art 5) 100 50; Resized (Scenario.art 2) 100 50;
                 Resized (Scenario.art 4) 100 50] in
  let st := Scenario.start Scenario.fs_five in
  Forall (λ name, path_exists (fs st) (os_path_join "vics" name) = true) names ∧
  paste_images names scaled 300 st
  = (Ok [Paste (Resized (Scenario.art 3) 100 50) 0 0; Text 0 0 "3" WHITE;
         Paste (Resized (Scenario.art 1) 100 50) 100 0; Text 100 0 "1" WHITE;
         Paste (Resized (Scenario.art 5) 100 50) 200 0; Text 200 0 "5" WHITE;
         Paste (Resized (Scenario.art 2) 100 50) 0 50; Text 0 50 "2" WHITE;
         Paste (Resized (Scenario.art 4) 100 50) 100 50; Text 100 50 "4" WHITE], st) ∧
  Float64.is_binary64 default_collage_scale ∧
  scale_in_range default_collage_scale = true ∧
  Forall2 (λ name im, stored_image (fs st) name = Some im ∧
                      0 ≤ img_width im < 2 ^ 53 ∧ 0 ≤ img_height im < 2 ^ 53 ∧
                      keeps_both_sides default_collage_scale im = true)
          names images ∧
  1 ≤ Z.of_nat (length names) < 2 ^ 52 ∧
  ∃ scaled' collage_width collage_height,
    Forall2 (scaled_by default_collage_scale) images scaled' ∧
    compose_canvas names default_collage_scale st
    = (Ok (Some (Collage collage_width collage_height BLACK
                   (walk collage_width 0 0 (zip names scaled')))), st).
Proof.
  intros names images scaled st.
  assert (H0 : Forall (λ name, path_exists (fs st) (os_path_join "vics" name) = true) names)
    by (repeat constructor).
  assert (H1 : Float64.is_binary64 default_collage_scale) by reflexivity.
  assert (H2 : scale_in_range default_collage_scale = true) by reflexivity.
  assert (H3 : Forall2 (λ name im, stored_image (fs st) name = Some im ∧
                      0 ≤ img_width im < 2 ^ 53 ∧ 0 ≤ img_height im < 2 ^ 53 ∧
                      keeps_both_sides default_collage_scale im = true)
          names images).
  { repeat constructor; simpl; lia. }
  assert (H4 : 1 ≤ Z.of_nat (length names) < 2 ^ 52) by (simpl; lia).
  destruct (paste_order names default_collage_scale st H0) as [Hloop Hwhole].
  split; [exact H0|]. split; [exact (Hloop scaled 300)|].
  split; [exact H1|]. split; [exact H2|]. split; [exact H3|]. split; [exact H4|].
  exact (Hwhole images H1 H2 H3 H4).
Defined.

Lemma no_images_no_output_witness :
  let W := Scenario.world_of [] Scenario.all_found [] in
  (Scenario.three_names = [] ∨
   Forall (λ name, path_exists Scenario.fs_config_only (os_path_join "vics" name) = false) Scenario.three_names) ∧
  ∃ out message,
    make_vic_collage W Scenario.three_names default_collage_scale (Scenario.start Scenario.fs_config_only)
    = (Ok (), emit (out ++ [message +:+ LF]) (Scenario.start Scenario.fs_config_only)) ∧
    fs (emit (out ++ [message +:+ LF]) (Scenario.start Scenario.fs_config_only)) = Scenario.fs_config_only.
Proof.
  intros W.
  assert (H : Scenario.three_names = [] ∨
    Forall (λ name, path_exists (fs (Scenario.start Scenario.fs_config_only)) (os_path_join "vics" name) = false)
      Scenario.three_names).
  { right. repeat constructor. }
  split; [exact H|].
  exact (no_images_no_output W Scenario.three_names default_collage_scale (Scenario.start Scenario.fs_config_only) H).
Defined.

Lemma scale_is_checked_first_witness :
  let W := Scenario.world_of [1] Scenario.all_found [] in
  let args := Args ["0xA"] (Float64.literal 5 3) in
  let st := Scenario.start Scenario.fs_config_only in
  config_is_mapping W (fs st) ∧
  let '(r, st') := main_async W args st in
  ((r = Raise (SystemExit 2) ∧ stderr st' = stderr st ++ [usage_message])
   ↔ scale_in_range (collage_scale args) = false) ∧
  (scale_in_range (collage_scale args) = false → net st' = net st) ∧
  scale_in_range default_collage_scale = true.
Proof.
  intros W args st.
  assert (H : config_is_mapping W (fs st)) by (vm_compute; exact I).
  split; [exact H|]. exact (scale_is_checked_first W args st H).
Defined.

Lemma vics_wf_stale : vics_wf Scenario.fs_stale.
Proof.
  split; [reflexivity|]. intros p _ _.
  change ("vics" ∈ ({["vics"]} : gset string)). by apply elem_of_singleton.
Defined.

Lemma working_directory_lifecycle_witness :
  let W := Scenario.world_of [3; 1; 2] Scenario.all_found [] in
  let args := Args ["0xA"] default_collage_scale in
  let st := Scenario.start Scenario.fs_stale in
  vics_wf (fs st) ∧
  (main_async W args st).1 = Ok () ∧
  (∃ st2, reset_working_directory (main_async W args st).2 = (Ok (), st2) ∧
          main W args st = (Ok (), st2) ∧
          "vics" ∈ dirs (fs st2) ∧ vics_empty (fs st2)) ∧
  (∀ e st1, main_async W args st = (Raise e, st1) → main W args st = (Raise e, st1)) ∧
  (∀ self wallet st' ids st1',
     resolve_tokens W self wallet st' = (Ok ids, st1') →
     files (fs st1') = files (fs st') ∧ dirs (fs st1') = {["vics"]} ∪ dirs (fs st')).
Proof.
  intros W args st.
  assert (H1 : vics_wf (fs st)) by exact vics_wf_stale.
  assert (H2 : main_async W args st = (Ok (), (main_async W args st).2))
    by (vm_compute; reflexivity).
  split; [exact H1|]. split; [by rewrite H2|].
  destruct (working_directory_lifecycle W args st H1) as (Hok & Hraise & Hkeep).
  split; [exact (Hok _ H2)|]. split; [exact Hraise|exact Hkeep].
Defined.

Lemma vics_wf_config_only : vics_wf Scenario.fs_config_only.
Proof.
  split; [reflexivity|]. intros p Hp [Hd|[x Hx]].
  - by apply not_elem_of_empty in Hd.
  - unfold Scenario.fs_config_only in Hx. simpl in Hx.
    apply lookup_singleton_Some in Hx as [<- _]. discriminate Hp.
Defined.

Lemma zero_tokens_abort_witness :
  let W := Scenario.world_of [] Scenario.all_found [] in
  let args := Args ["0xA"] default_collage_scale in
  let st := Scenario.start Scenario.fs_config_only in
  ∃ start_time st0,
    vics_wf (fs st) ∧
    main_async_setup W args st = (Ok (start_time, Scenario.creator), st0) ∧
    target_wallet_addresses args = [] ++ "0xA" :: [] ∧
    collect_image_files W Scenario.creator [] st0 = (Ok [], st0) ∧
    resolved_ids W Scenario.creator "0xA" = Some [] ∧
    (∀ iteration prefix suffix length fill st',
       ∃ e, print_progress_bar iteration 0 prefix suffix length fill st' = (Raise e, st') ∧
            (e = ZeroDivisionError ∨
             e = OverflowError ∧ Float64.of_int iteration = Raise OverflowError)) ∧
    (∃ a st2, to_checksum_address W (JStr "0xA") = Ok a ∧
              main W args st = (Raise ZeroDivisionError, st2) ∧
              net st2 = net st0 ++ [RpcTokensOfOwner a]).
Proof.
  intros W args st.
  exists (clock W 0), (main_async_setup W args st).2.
  assert (H1 : vics_wf (fs st)) by exact vics_wf_config_only.
  assert (H2 : main_async_setup W args st
               = (Ok (clock W 0, Scenario.creator), (main_async_setup W args st).2))
    by (vm_compute; reflexivity).
  assert (H3 : target_wallet_addresses args = [] ++ "0xA" :: []) by reflexivity.
  assert (H4 : collect_image_files W Scenario.creator [] (main_async_setup W args st).2
               = (Ok [], (main_async_setup W args st).2)) by reflexivity.
  assert (H5 : resolved_ids W Scenario.creator "0xA" = Some []) by reflexivity.
  split; [exact H1|]. split; [exact H2|]. split; [exact H3|]. split; [exact H4|].
  split; [exact H5|].
  exact (zero_tokens_abort W args st _ _ _ [] "0xA" [] [] _ H1 H2 H3 H4 H5).
Defined.

Lemma composer_receives_resolved_names_witness :
  let W := Scenario.world_of [3; 1; 2] Scenario.all_found [] in
  let args := Args ["0xA"] default_collage_scale in
  let st := Scenario.start Scenario.fs_config_only in
  ∃ start_time st0 st1,
    main_async_setup W args st = (Ok (start_time, Scenario.creator), st0) ∧
    collect_image_files W Scenario.creator (target_wallet_addresses args) st0
    = (Ok Scenario.three_names, st1) ∧
    (∃ idss : list (list Z),
       Forall2 (λ wallet ids, ∃ raw, resolved_ids W Scenario.creator wallet = Some raw ∧
                                     Sorted Z.le ids ∧ ids ≡ₚ raw)
               (target_wallet_addresses args) idss ∧
       Scenario.three_names = concat ((λ ids : list Z, png_name <$> ids) <$> idss)) ∧
    ∀ composer,
      Scenario.three_names ≠ [] →
      main_async_with W composer args st
      = (composer Scenario.three_names (collage_scale args) ;;; report_elapsed W start_time) st1.
Proof.
  intros W args st.
  exists (clock W 0), (main_async_setup W args st).2,
    (collect_image_files W Scenario.creator ["0xA"] (main_async_setup W args st).2).2.
  assert (H1 : main_async_setup W args st
               = (Ok (clock W 0, Scenario.creator), (main_async_setup W args st).2))
    by (vm_compute; reflexivity).
  assert (H2 : collect_image_files W Scenario.creator (target_wallet_addresses args)
                 (main_async_setup W args st).2
               = (Ok Scenario.three_names,
                  (collect_image_files W Scenario.creator ["0xA"] (main_async_setup W args st).2).2))
    by (vm_compute; reflexivity).
  split; [exact H1|]. split; [exact H2|].
  exact (composer_receives_resolved_names W args st _ _ _ _ _ H1 H2).
Defined.

Lemma load_configuration_outcomes_witness :
  let W := Scenario.world_of [] Scenario.all_found [] in
  let st := Scenario.start Scenario.fs_config_only in
  files (fs st) !! "settings.json" = None ∧ ("settings.json" ∉ dirs (fs st)) ∧
  load_configuration W "settings.json" st
  = (Ok (JDict []), emit [("Configuration file not found: " +:+ "settings.json") +:+ LF] st).
Proof.
  intros W st.
  assert (H1 : files (fs st) !! "settings.json" = None) by reflexivity.
  assert (H2 : "settings.json" ∉ dirs (fs st)) by apply not_elem_of_empty.
  split; [exact H1|]. split; [exact H2|].
  exact (proj1 (load_configuration_outcomes W "settings.json" st) H1 H2).
Defined.

(** * Further properties *)

(** ** Strings and paths *)

Lemma length_append (a b : string) :
  String.length (a +:+ b) = (String.length a + String.length b)%nat.
Proof. induction a as [|c a IH]; simpl; [done|by rewrite IH]. Qed.

Lemma append_inv_tail (s a b : string) : a +:+ s = b +:+ s → a = b.
Proof.
  revert b. induction a as [|c a IH]; intros [|c' b] H; simpl in *.
  - done.
  - exfalso. apply (f_equal String.length) in H.
    rewrite ?length_append in H. simpl in H. rewrite ?length_append in H. lia.
  - exfalso. apply (f_equal String.length) in H.
    rewrite ?length_append in H. simpl in H. rewrite ?length_append in H. lia.
  - change (String c (a +:+ s) = String c' (b +:+ s)) in H.
    injection H as -> H. f_equal. by apply IH.
Qed.

Lemma png_name_inj a b : png_name a = png_name b → a = b.
Proof. unfold png_name. intros H. apply append_inv_tail in H. by apply pretty_Z_inj in H. Qed.

Lemma startswith_slash s : startswith "/" s = true → ∃ s', s = String "/" s'.
Proof.
  unfold startswith. destruct s as [|c s]; [done|]. rewrite prefix_cons.
  destruct (ascii_dec "/" c) as [<-|]; [eauto|done].
Qed.

Lemma os_path_join_vics_inj a b : os_path_join "vics" a = os_path_join "vics" b → a = b.
Proof.
  unfold os_path_join.
  destruct (startswith "/" a) eqn:Ea, (startswith "/" b) eqn:Eb; simpl; try done.
  - apply startswith_slash in Ea as [a' ->]. done.
  - apply startswith_slash in Eb as [b' ->]. done.
  - intros H. by simplify_eq.
Qed.

Lemma vic_path_inj a b : vic_path a = vic_path b → a = b.
Proof. intros H. by apply png_name_inj, os_path_join_vics_inj. Qed.

Lemma prefix_append s t : String.prefix s (s +:+ t) = true.
Proof.
  induction s as [|a s IH].
  - by destruct t.
  - change (String a s +:+ t) with (String a (s +:+ t)). rewrite prefix_cons.
    by destruct (ascii_dec a a).
Qed.

Lemma pretty_N_char_token n : token_char (pretty_N_char n) = true.
Proof.
  destruct n as [|p]; [done|].
  do 4 (try destruct p as [p|p|]); done.
Qed.

Lemma pretty_N_go_token x : ∀ s,
  token_chars s = true →
  token_chars (pretty_N_go x s) = true ∧
  (String.length s ≤ String.length (pretty_N_go x s))%nat.
Proof.
  induction x as [x IH] using (well_founded_induction N.lt_wf_0). intros s Hs.
  destruct (decide (0 < x)%N) as [Hpos|Hz].
  - rewrite pretty_N_go_step by done.
    destruct (IH (x `div` 10)%N (N.div_lt x 10 Hpos eq_refl)
                 (String (pretty_N_char (x `mod` 10)) s)) as [H1 H2].
    { simpl. by rewrite pretty_N_char_token. }
    split; [done|]. simpl in H2. lia.
  - assert (x = 0%N) as -> by lia. by rewrite pretty_N_go_0.
Qed.

Lemma pretty_N_token (x : N) :
  token_chars (pretty x) = true ∧ pretty x ≠ "".
Proof.
  unfold pretty, pretty_N. case_decide as Hx; [done|].
  rewrite pretty_N_go_step by lia.
  destruct (pretty_N_go_token (x `div` 10)%N (String (pretty_N_char (x `mod` 10)) ""))
    as [H1 H2].
  { simpl. by rewrite pretty_N_char_token. }
  split; [done|]. intros H. rewrite H in H2. simpl in H2. lia.
Qed.

Lemma pretty_Z_token (i : Z) : token_chars (pretty i) = true ∧ pretty i ≠ "".
Proof.
  destruct i as [|p|p].
  - done.
  - apply (pretty_N_token (N.pos p)).
  - destruct (pretty_N_token (N.pos p)) as [H1 H2]. split; [|done].
    change (pretty (Z.neg p)) with ("-" +:+ pretty (N.pos p)). simpl. exact H1.
Qed.

Lemma rfind_from_app c s t : ∀ i last,
  rfind_from c (s +:+ t) i last = rfind_from c t (i + String.length s) (rfind_from c s i last).
Proof.
  induction s as [|a s IH]; intros i last; simpl.
  - by rewrite Nat.add_0_r.
  - rewrite IH. f_equal. lia.
Qed.

Lemma rfind_from_token c s : ∀ i last,
  token_char c = false → token_chars s = true → rfind_from c s i last = last.
Proof.
  induction s as [|a s IH]; intros i last Hc Hs; simpl; [done|].
  simpl in Hs. apply andb_prop in Hs as [Ha Hs]. rewrite IH by done.
  destruct (Ascii.eqb a c) eqn:E; [|done].
  apply Ascii.eqb_eq in E as ->. congruence.
Qed.

Lemma substring_append s t : String.substring 0 (String.length s) (s +:+ t) = s.
Proof.
  induction s as [|a s IH]; simpl.
  - by destruct t.
  - by rewrite IH.
Qed.

Lemma all_dots_token s : token_chars s = true → s ≠ "" → all_dots s = false.
Proof.
  destruct s as [|a s]; [done|]. simpl. intros H _.
  apply andb_prop in H as [Ha _].
  destruct (Ascii.eqb a ".") eqn:E; [|done].
  apply Ascii.eqb_eq in E as ->. by vm_compute in Ha.
Qed.

(** X13. The label drawn on an image named [<id>.png] is the decimal token
    id: [os.path.splitext] cuts exactly the extension that the orchestrator
    appended. *)
Theorem label_is_token_id (i : Z) : splitext_root (png_name i) = pretty i.
Proof.
  destruct (pretty_Z_token i) as [Ht Hne].
  unfold splitext_root, png_name, rfind. rewrite !rfind_from_app.
  rewrite (rfind_from_token "/" (pretty i)), (rfind_from_token "." (pretty i))
    by first [reflexivity|exact Ht].
  simpl rfind_from. cbv iota beta.
  rewrite decide_True by lia. rewrite Nat.sub_0_r.
  rewrite !substring_append, all_dots_token by done. reflexivity.
Qed.

Lemma png_name_relative i : startswith "/" (png_name i) = false.
Proof.
  destruct (pretty_Z_token i) as [Ht Hne]. unfold png_name, startswith.
  destruct (pretty i) as [|a s]; [done|].
  change (String a s +:+ ".png") with (String a (s +:+ ".png")). rewrite prefix_cons.
  destruct (ascii_dec "/" a) as [<-|]; [|done]. done.
Qed.

Lemma vic_path_under token_id : under "vics" (vic_path token_id) = true.
Proof.
  unfold vic_path, os_path_join. rewrite png_name_relative.
  rewrite bool_decide_eq_false_2 by done.
  apply (prefix_append "vics/" (png_name token_id)).
Qed.

Lemma output_path_under (epoch_time : Z) :
  under "output" (os_path_join "output" ("vics_collage_" +:+ pretty epoch_time +:+ ".jpg"))
  = true.
Proof.
  unfold os_path_join.
  change (startswith "/" ("vics_collage_" +:+ pretty epoch_time +:+ ".jpg")) with false.
  rewrite bool_decide_eq_false_2 by done.
  apply (prefix_append "output/" ("vics_collage_" +:+ pretty epoch_time +:+ ".jpg")).
Qed.

Lemma collage_path_not_output epoch_time : collage_path epoch_time ≠ "output".
Proof.
  unfold collage_path, os_path_join.
  change (startswith "/" ("vics_collage_" +:+ pretty epoch_time +:+ ".jpg")) with false.
  rewrite bool_decide_eq_false_2 by done. intros H.
  apply (f_equal String.length) in H. rewrite !length_append in H.
  cbn [String.length] in H. lia.
Qed.


(** ** The progress bar *)

Lemma SFdiv_self m e :
  SFdiv 53 1024 (S754_finite false m e) (S754_finite false m e)
  = S754_finite false 4503599627370496 (-52).
Proof.
  unfold SFdiv, SFdiv_core_binary.
  replace (Zdigits2 (Z.pos m) + e - (Zdigits2 (Z.pos m) + e)) with 0 by lia.
  rewrite Z.sub_diag. change (fexp 53 1024 0) with (-53).
  change (Z.min (-53) 0) with (-53). change (0 - -53) with 53. cbv iota.
  rewrite Z.shiftl_mul_pow2 by lia.
  assert (Z.div_eucl (Z.pos m * 2 ^ 53) (Z.pos m) = (2 ^ 53, 0)) as ->.
  { assert (H1 : Z.pos m * 2 ^ 53 / Z.pos m = 2 ^ 53) by (rewrite Z.mul_comm, Z.div_mul; lia).
    assert (H2 : (Z.pos m * 2 ^ 53) mod Z.pos m = 0) by (rewrite Z.mul_comm; apply Z.mod_mul; lia).
    unfold Z.div, Z.modulo in *. destruct (Z.div_eucl _ _). simpl in *. congruence. }
  rewrite new_location_zero. reflexivity.
Qed.

Lemma of_int_nonneg n :
  0 ≤ n < 2 ^ 53 →
  Float64.of_int n = Ok (S754_zero false) ∧ n = 0 ∨
  ∃ m e, Float64.of_int n = Ok (S754_finite false m e) ∧ 0 < n.
Proof.
  intros [H0 H1]. destruct (Z.eq_dec n 0) as [->|Hne].
  - left. done.
  - right. rewrite of_int_small by lia. eexists _, _. split; [reflexivity|lia].
Qed.

Lemma run_print_progress_bar iteration total prefix suffix length fill st :
  0 < total < 2 ^ 53 → 0 ≤ iteration < 2 ^ 53 →
  ∃ percent,
    print_progress_bar iteration total prefix suffix length fill st
    = (Ok (), emit (progress_line prefix suffix fill length (length * iteration / total) percent
                    :: (if iteration =? total then [LF] else [])) st) ∧
    (iteration = 0 → percent = "0.0") ∧
    (iteration = total → percent = "100.0").
Proof.
  intros Ht Hi. unfold print_progress_bar.
  destruct (of_int_nonneg total ltac:(lia)) as [[_ ?]|(mt & et & Et & _)]; [lia|].
  unfold py_bind at 1. rewrite run_lift, Et.
  unfold py_bind at 1. rewrite run_lift. unfold Float64.int_div_float.
  assert (Hratio : ∃ ratio,
             res_bind (Float64.of_int iteration)
                      (λ x, Float64.truediv x (S754_finite false mt et)) = Ok ratio ∧
             (iteration = 0 → ratio = S754_zero false) ∧
             (iteration = total → ratio = S754_finite false 4503599627370496 (-52))).
  { destruct (of_int_nonneg iteration Hi) as [[Ei ->]|(mi & ei & Ei & Hpos)];
      rewrite Ei; simpl res_bind; unfold Float64.truediv; simpl Float64.is_zero; cbv iota.
    - eexists. split; [reflexivity|]. split; [done|lia].
    - eexists. split; [reflexivity|]. split; [lia|].
      intros ->. rewrite Et in Ei. injection Ei as <- <-. apply SFdiv_self. }
  destruct Hratio as (ratio & -> & Hzero & Hfull).
  unfold py_bind at 1. rewrite run_lift. unfold Float64.int_mul_float.
  destruct (Float64.of_int 100) as [h|] eqn:Eh; [|by vm_compute in Eh].
  vm_compute in Eh. injection Eh as <-. simpl res_bind.
  destruct (Z.eqb_spec total 0); [lia|].
  unfold py_bind at 1. rewrite run_ret.
  exists (Float64.format_f 1 (SFmul Float64.prec Float64.emax
            (S754_finite false 7036874417766400 (-46)) ratio)).
  split; [|split].
  - unfold py_bind, print_end, print, print_end, py_ret, progress_line.
    destruct (iteration =? total); [|done]. by rewrite emit_emit.
  - intros H. rewrite (Hzero H). by vm_compute.
  - intros H. rewrite (Hfull H). by vm_compute.
Qed.

Lemma filled_bounds length iteration total :
  0 < total → 0 ≤ iteration ≤ total → 0 ≤ length →
  0 ≤ length * iteration / total ≤ length.
Proof.
  intros Ht Hi Hl. split.
  - apply Z.div_pos; nia.
  - apply Z.div_le_upper_bound; nia.
Qed.

(** X6. For [0 <= iteration <= total] and a positive total,
    [print_progress_bar] returns normally and prints one line,
    [\r{prefix} |{bar}| {percent}% {suffix}\r], whose bar is [filled] copies
    of [fill] followed by [length - filled] dashes with
    [0 <= filled <= length]; a newline follows exactly when
    [iteration = total]. *)
Theorem progress_bar_line (iteration total : Z) (prefix suffix : string) (length : Z)
    (fill : string) (st : state) :
  0 < total < 2 ^ 53 → 0 ≤ iteration ≤ total → 0 ≤ length →
  let filled := length * iteration / total in
  0 ≤ filled ≤ length ∧
  ∃ percent,
    print_progress_bar iteration total prefix suffix length fill st
    = (Ok (), emit (progress_line prefix suffix fill length filled percent
                    :: (if iteration =? total then [LF] else [])) st).
Proof.
  intros Ht Hi Hl filled. split; [apply filled_bounds; lia|].
  destruct (run_print_progress_bar iteration total prefix suffix length fill st Ht
              ltac:(lia)) as (percent & E & _).
  by exists percent.
Qed.

(** X7. The two ends of the bar: at iteration 0 it is all dashes and shows
    [0.0%]; at [iteration = total] it is all [fill], shows [100.0%] and is
    followed by a newline. *)
Theorem progress_bar_endpoints (total : Z) (prefix suffix : string) (length : Z)
    (fill : string) (st : state) :
  0 < total < 2 ^ 53 →
  print_progress_bar 0 total prefix suffix length fill st
  = (Ok (), emit [progress_line prefix suffix fill length 0 "0.0"] st) ∧
  print_progress_bar total total prefix suffix length fill st
  = (Ok (), emit [progress_line prefix suffix fill length length "100.0"; LF] st).
Proof.
  intros Ht. split.
  - destruct (run_print_progress_bar 0 total prefix suffix length fill st Ht
                ltac:(lia)) as (percent & E & Hz & _).
    rewrite E, (Hz eq_refl), Z.mul_0_r, Z.div_0_l by lia.
    destruct (Z.eqb_spec 0 total); [lia|done].
  - destruct (run_print_progress_bar total total prefix suffix length fill st Ht
                ltac:(lia)) as (percent & E & _ & Hf).
    rewrite E, (Hf eq_refl), Z.div_mul, Z.eqb_refl by lia. done.
Qed.

Lemma print_progress_bar_outcome iteration total prefix suffix length fill st :
  ∃ r out, print_progress_bar iteration total prefix suffix length fill st = (r, emit out st) ∧
           match r with Ok _ => True | Raise e => is_Exception e = true end.
Proof.
  unfold print_progress_bar, py_bind, py_lift.
  destruct (Float64.of_int total) as [tf|e] eqn:E1.
  2:{ exists (Raise e), []. rewrite emit_nil. split; [done|].
      by rewrite (of_int_raises _ _ E1). }
  unfold Float64.int_div_float.
  destruct (Float64.of_int iteration) as [x|e] eqn:E2; simpl res_bind.
  2:{ exists (Raise e), []. rewrite emit_nil. split; [done|].
      by rewrite (of_int_raises _ _ E2). }
  unfold Float64.truediv. destruct (Float64.is_zero tf).
  { exists (Raise ZeroDivisionError), []. by rewrite emit_nil. }
  unfold Float64.int_mul_float.
  destruct (Float64.of_int 100) as [h|e] eqn:E3; simpl res_bind.
  2:{ exists (Raise e), []. rewrite emit_nil. split; [done|].
      by rewrite (of_int_raises _ _ E3). }
  destruct (total =? 0).
  { exists (Raise ZeroDivisionError), []. by rewrite emit_nil. }
  unfold py_ret, print_end, print, print_end.
  destruct (iteration =? total).
  - eexists (Ok ()), _. rewrite emit_emit. split; [reflexivity|done].
  - eexists (Ok ()), _. split; [reflexivity|done].
Qed.

Lemma update_progress_bar_outcome total st :
  ∃ r out, update_progress_bar total st
           = (r, State (fs st) (stdout st ++ out) (stderr st) (net st) (ticks st)
                       (progress_counter st + 1)) ∧
           match r with Ok _ => True | Raise e => is_Exception e = true end.
Proof.
  unfold update_progress_bar, progress, py_bind, get_state, set_counter. simpl.
  edestruct print_progress_bar_outcome as (r & out & E & Hr).
  rewrite E. exists r, out. split; [done|exact Hr].
Qed.


(** ** One download *)

Lemma run_send r st :
  send r st = (Ok (), State (fs st) (stdout st) (stderr st) (net st ++ [r])
                            (ticks st) (progress_counter st)).
Proof. done. Qed.

Lemma run_write_file d name content st :
  write_file d name content st =
  if negb (bool_decide (d ∈ dirs (fs st))) then (Raise FileNotFoundError, st)
  else if bool_decide (os_path_join d name ∈ dirs (fs st)) then (Raise IsADirectoryError, st)
  else (Ok (), State (Fsys (dirs (fs st)) (<[os_path_join d name := content]> (files (fs st))))
                     (stdout st) (stderr st) (net st) (ticks st) (progress_counter st)).
Proof.
  unfold write_file, py_bind, get_state.
  destruct (negb _); [done|]. by destruct (bool_decide _).
Qed.

Lemma fsys_eta f : Fsys (dirs f) (files f) = f.
Proof. by destruct f. Qed.

Ltac caught :=
  simpl; eexists; unfold print, print_end, emit;
  match goal with st : state |- _ => destruct st as [[] ? ? ? ? ?] end;
  simpl; rewrite ?Z.add_0_r; reflexivity.

Lemma download_vic_resume_spec W self total token_id st :
  ∃ out, download_vic_resume W self token_id (Some (update_progress_bar total)) st
         = (Ok (), after_exchange W self token_id out st).
Proof.
  unfold download_vic_resume, try_except, download_vic_body, after_exchange,
    completes, stored, download_vic_except.
  unfold py_bind at 1. unfold py_lift at 1.
  destruct (http_get W (vic_base_url self) token_id) as [status body|status msg|msg];
    simpl response_status.
  - (* a status and a body *)
    unfold py_bind at 1.
    destruct (status =? 200) eqn:Es; simpl andb; simpl negb; simpl orb.
    + simpl response_read. unfold py_bind at 1, py_lift at 1.
      unfold py_bind at 1. fold (png_name token_id). rewrite run_write_file.
      fold (vic_path token_id).
      destruct (bool_decide ("vics" ∈ dirs (fs st))); simpl negb; cbv iota; simpl andb.
      2:{ caught. }
      destruct (bool_decide (vic_path token_id ∈ dirs (fs st))); simpl negb; cbv iota.
      { caught. }
      rewrite bool_decide_eq_true_2 by eauto.
      unfold print at 1, print_end at 1.
      match goal with |- context [update_progress_bar total ?s] =>
        destruct (update_progress_bar_outcome total s) as (r & out & E & Hr); rewrite E end.
      simpl. destruct r as [[]|e].
      * eexists. rewrite <- app_assoc. reflexivity.
      * rewrite Hr. unfold print, print_end, emit. simpl. eexists.
        rewrite <- !app_assoc. reflexivity.
    + unfold print at 1, print_end at 1.
      match goal with |- context [update_progress_bar total ?s] =>
        destruct (update_progress_bar_outcome total s) as (r & out & E & Hr); rewrite E end.
      simpl. rewrite fsys_eta. destruct r as [[]|e].
      * eexists. rewrite <- app_assoc. reflexivity.
      * rewrite Hr. unfold print, print_end, emit. simpl. eexists.
        rewrite <- !app_assoc. reflexivity.
  - (* a status, then the body cannot be read *)
    unfold py_bind at 1.
    destruct (status =? 200) eqn:Es; simpl negb.
    + simpl response_read. unfold py_bind at 1, py_lift at 1. caught.
    + unfold print at 1, print_end at 1.
      match goal with |- context [update_progress_bar total ?s] =>
        destruct (update_progress_bar_outcome total s) as (r & out & E & Hr); rewrite E end.
      simpl. rewrite fsys_eta. destruct r as [[]|e].
      * eexists. rewrite <- app_assoc. reflexivity.
      * rewrite Hr. unfold print, print_end, emit. simpl. eexists.
        rewrite <- !app_assoc. reflexivity.
  - caught.
Qed.

Lemma download_vic_unfold W self token_id callback st :
  download_vic W self token_id callback st
  = download_vic_resume W self token_id callback
      (State (fs st) (stdout st) (stderr st)
             (net st ++ [HttpGet (vic_base_url self) token_id])
             (ticks st) (progress_counter st)).
Proof. reflexivity. Qed.

(** X1. [download_vic] with the progress callback of the batch returns
    normally for every answer of the host. It sends one GET; it writes the
    body under [vics/<id>.png] exactly when the status is 200, the body can
    be read and the file can be written, and changes no other file and no
    directory; it writes nothing to standard error; and it advances the
    counter by one exactly when the exchange reaches the callback. *)
Theorem download_vic_effect (W : world) (self : VicCollageCreator) (total token_id : Z)
    (st : state) :
  ∃ st', download_vic W self token_id (Some (update_progress_bar total)) st = (Ok (), st') ∧
         net st' = net st ++ [HttpGet (vic_base_url self) token_id] ∧
         dirs (fs st') = dirs (fs st) ∧
         stderr st' = stderr st ∧
         files (fs st')
         = match stored W self (dirs (fs st)) token_id with
           | Some body => <[vic_path token_id := body]> (files (fs st))
           | None => files (fs st)
           end ∧
         progress_counter st'
         = progress_counter st + (if completes W self (dirs (fs st)) token_id then 1 else 0).
Proof.
  rewrite download_vic_unfold.
  edestruct download_vic_resume_spec as [out E]. rewrite E.
  eexists. split; [reflexivity|]. done.
Qed.

Lemma download_vic_body_raises W self token_id callback st e st' :
  download_vic_body W self token_id callback st = (Raise e, st') →
  is_Exception e = true ∨ ∃ f st1, callback = Some f ∧ f st1 = (Raise e, st').
Proof.
  unfold download_vic_body. unfold py_bind at 1, py_lift at 1.
  destruct (http_get W (vic_base_url self) token_id) as [status body|status msg|msg];
    simpl response_status; [| |by intros [= <- _]; left].
  - unfold py_bind at 1. destruct (status =? 200).
    + simpl response_read. unfold py_bind at 1, py_lift at 1. unfold py_bind at 1.
      rewrite run_write_file. destruct (negb _); [by intros [= <- _]; left|].
      destruct (bool_decide _); [by intros [= <- _]; left|].
      rewrite run_print. destruct callback as [f|]; [|done].
      intros H. right. by eexists _, _.
    + rewrite run_print. destruct callback as [f|]; [|done].
      intros H. right. by eexists _, _.
  - unfold py_bind at 1. destruct (status =? 200).
    + simpl response_read. unfold py_bind at 1, py_lift at 1. by intros [= <- _]; left.
    + rewrite run_print. destruct callback as [f|]; [|done].
      intros H. right. by eexists _, _.
Qed.

(** X2. What escapes [download_vic] is never an [Exception]: whatever the
    request, the body read or the write raises is caught and printed, so a
    raise can only come from the callback, with a class outside [Exception]
    (such as [SystemExit]); without a callback nothing is raised. *)
Theorem download_vic_contains_errors (W : world) (self : VicCollageCreator) (token_id : Z)
    (callback : option (Py unit)) (st : state) (e : exn) (st' : state) :
  download_vic W self token_id callback st = (Raise e, st') →
  is_Exception e = false ∧ ∃ f st1, callback = Some f ∧ f st1 = (Raise e, st').
Proof.
  rewrite download_vic_unfold. unfold download_vic_resume, try_except.
  destruct (download_vic_body _ _ _ _ _) as [[u|e0] st2] eqn:Eb; [done|].
  unfold download_vic_except. destruct (is_Exception e0) eqn:Ex; [by rewrite run_print|].
  intros [= <- <-]. split; [done|].
  apply download_vic_body_raises in Eb as [Hex|H]; [congruence|done].
Qed.


(** ** The batch *)

Lemma advance_at_middle l1 t l2 :
  advance_at (l1 ++ t :: l2) (length l1) = l1 ++ advance t :: l2.
Proof.
  unfold advance_at. rewrite list_lookup_middle by done.
  replace (length l1) with (length l1 + 0)%nat at 1 by lia.
  by rewrite insert_app_r.
Qed.

Lemma lookup_split {A} (l : list A) i x :
  l !! i = Some x → ∃ l1 l2, l = l1 ++ x :: l2 ∧ length l1 = i.
Proof.
  intros H. exists (take i l), (drop (S i) l). split.
  - by rewrite take_drop_middle.
  - apply length_take_le. apply lookup_lt_Some in H. lia.
Qed.

Lemma advance_at_fst tasks i : (advance_at tasks i).*1 = tasks.*1.
Proof.
  unfold advance_at. destruct (tasks !! i) as [t|] eqn:E; [|done].
  apply lookup_split in E as (l1 & l2 & -> & <-).
  replace (length l1) with (length l1 + 0)%nat by lia.
  rewrite insert_app_r. simpl. by rewrite !fmap_app.
Qed.

Lemma foldl_advance_at_fst order : ∀ tasks, (foldl advance_at tasks order).*1 = tasks.*1.
Proof.
  induction order as [|i order IH]; intros tasks; simpl; [done|].
  by rewrite IH, advance_at_fst.
Qed.

Lemma advance_pass l2 : ∀ l1,
  foldl advance_at (l1 ++ l2) (seq (length l1) (length l2)) = l1 ++ (advance <$> l2).
Proof.
  induction l2 as [|t l2 IH]; intros l1; simpl; [done|].
  rewrite advance_at_middle.
  replace (l1 ++ advance t :: l2) with ((l1 ++ [advance t]) ++ l2) by by rewrite <- app_assoc.
  replace (S (length l1)) with (length (l1 ++ [advance t])) by (rewrite length_app; simpl; lia).
  rewrite IH. by rewrite <- app_assoc.
Qed.

Lemma advance_every l : foldl advance_at l (seq 0 (length l)) = advance <$> l.
Proof. exact (advance_pass l []). Qed.

Lemma advance_twice t : advance (advance t) = (t.1, Finished).
Proof. by destruct t as [x []]. Qed.

Lemma every_task_finishes order token_ids :
  foldl advance_at ((λ t, (t, Created)) <$> token_ids)
        (order ++ seq 0 (length token_ids) ++ seq 0 (length token_ids))
  = (λ t, (t, Finished)) <$> token_ids.
Proof.
  rewrite !foldl_app.
  set (l := foldl advance_at _ order).
  assert (Hfst : l.*1 = token_ids).
  { unfold l. rewrite foldl_advance_at_fst, <- list_fmap_compose. apply list_fmap_id. }
  assert (Hlen : length l = length token_ids) by (by rewrite <- Hfst, length_fmap).
  rewrite <- Hlen.
  rewrite advance_every.
  replace (length l) with (length (advance <$> l)) by apply length_fmap.
  rewrite advance_every.
  rewrite <- list_fmap_compose, <- Hfst, <- list_fmap_compose.
  apply list_fmap_ext. intros i t _. apply advance_twice.
Qed.

Lemma started_all token_ids : started ((λ t, (t, Finished)) <$> token_ids) = token_ids.
Proof. induction token_ids as [|t l IH]; [done|]. cbn. f_equal. exact IH. Qed.

Lemma finished_all token_ids : finished ((λ t, (t, Finished)) <$> token_ids) = token_ids.
Proof. induction token_ids as [|t l IH]; [done|]. cbn. f_equal. exact IH. Qed.

Lemma started_none token_ids : started ((λ t, (t, Created)) <$> token_ids) = [].
Proof. induction token_ids as [|t l IH]; [done|]. cbn. exact IH. Qed.

Lemma finished_none token_ids : finished ((λ t, (t, Created)) <$> token_ids) = [].
Proof. induction token_ids as [|t l IH]; [done|]. cbn. exact IH. Qed.

Lemma finished_await l1 t l2 :
  finished (l1 ++ (t, Awaiting) :: l2) = finished (l1 ++ (t, Created) :: l2).
Proof. unfold finished. by rewrite !omap_app. Qed.

Lemma started_await l1 t l2 :
  started (l1 ++ (t, Awaiting) :: l2) ≡ₚ started (l1 ++ (t, Created) :: l2) ++ [t].
Proof.
  unfold started. rewrite !omap_app. cbn. rewrite <- app_assoc.
  apply Permutation_app_head. apply Permutation_cons_append.
Qed.

Lemma started_finish l1 t l2 :
  started (l1 ++ (t, Finished) :: l2) = started (l1 ++ (t, Awaiting) :: l2).
Proof. unfold started. by rewrite !omap_app. Qed.

Lemma finished_finish l1 t l2 :
  finished (l1 ++ (t, Finished) :: l2) ≡ₚ t :: finished (l1 ++ (t, Awaiting) :: l2).
Proof. unfold finished. rewrite !omap_app. cbn. symmetry. apply Permutation_middle. Qed.

Lemma resume_task_spec W self total st0 tasks i st :
  batch_inv W self st0 tasks st →
  ∃ st', resume_task W self (Some (update_progress_bar total)) tasks i st
         = (Ok (advance_at tasks i), st') ∧
         batch_inv W self st0 (advance_at tasks i) st'.
Proof.
  intros [Hd He Ht Hc Hn Hs Ho].
  unfold resume_task. destruct (tasks !! i) as [[t ph]|] eqn:E.
  2:{ exists st. unfold advance_at, task in *. rewrite E. split; [done|by constructor]. }
  apply lookup_split in E as (l1 & l2 & -> & <-).
  rewrite advance_at_middle. unfold advance. simpl fst. simpl snd.
  replace (length l1) with (length l1 + 0)%nat by lia. rewrite !insert_app_r. simpl.
  destruct ph; simpl.
  - (* the request leaves *)
    unfold download_vic_request. rewrite (run_bind_ok _ _ _ _ _ (run_send _ _)).
    eexists. split; [reflexivity|].
    destruct Hn as (sent & Hn & Hp).
    constructor; simpl; rewrite ?finished_await; try done.
    exists (sent ++ [HttpGet (vic_base_url self) t]). split.
    + by rewrite Hn, <- app_assoc.
    + by rewrite Hp, started_await, fmap_app.
  - (* the answer is handled *)
    destruct (download_vic_resume_spec W self total t st) as [out Ex].
    rewrite (run_bind_ok _ _ _ _ _ Ex).
    eexists. split; [reflexivity|]. unfold after_exchange. rewrite Hd.
    constructor; simpl; rewrite ?started_finish; try done.
    + rewrite Hc, finished_finish, filter_cons. case_decide as Hdec.
      * rewrite Hdec. simpl length. lia.
      * apply not_true_is_false in Hdec. rewrite Hdec. lia.
    + intros t' body Hin Hst. rewrite finished_finish in Hin.
      apply elem_of_cons in Hin as [->|Hold].
      * rewrite Hst. by rewrite lookup_insert_eq.
      * specialize (Hs t' body Hold Hst).
        destruct (stored W self (dirs (fs st0)) t) as [b|] eqn:Est; [|done].
        destruct (decide (vic_path t = vic_path t')) as [Heq|Hne].
        -- apply vic_path_inj in Heq as ->. rewrite lookup_insert_eq. congruence.
        -- by rewrite lookup_insert_ne.
    + intros p Hp.
      assert (Hold : files (fs st) !! p = files (fs st0) !! p).
      { apply Ho. intros t' Hin. apply Hp. rewrite finished_finish.
        by apply list_elem_of_further. }
      destruct (stored W self (dirs (fs st0)) t) as [b|] eqn:Est; [|done].
      rewrite lookup_insert_ne; [done|]. apply Hp; [|by rewrite Est].
      rewrite finished_finish. apply list_elem_of_here.
  - exists st. split; [done|]. by constructor.
Qed.

Lemma run_tasks_spec W self total st0 order : ∀ tasks st,
  batch_inv W self st0 tasks st →
  ∃ st', run_tasks W self (Some (update_progress_bar total)) order tasks st
         = (Ok (foldl advance_at tasks order), st') ∧
         batch_inv W self st0 (foldl advance_at tasks order) st'.
Proof.
  unfold run_tasks. induction order as [|i order IH]; intros tasks st Hinv; simpl.
  - by exists st.
  - destruct (resume_task_spec W self total st0 tasks i st Hinv) as (st1 & E1 & H1).
    rewrite (run_bind_ok _ _ _ _ _ E1). by apply IH.
Qed.

Lemma download_all_spec W self token_ids st :
  token_ids ≠ [] → Z.of_nat (length token_ids) < 2 ^ 53 →
  ∃ st', download_all W self token_ids st = (Ok (), st') ∧
         batch_inv W self st ((λ t, (t, Finished)) <$> token_ids) st'.
Proof.
  intros Hne Hlen. unfold download_all, progress.
  assert (Htot : 0 < Z.of_nat (length token_ids) < 2 ^ 53).
  { split; [|done]. destruct token_ids; [done|]. simpl length. lia. }
  destruct (run_print_progress_bar 0 (Z.of_nat (length token_ids)) "Progress:" "Complete"
              50 "█" st Htot ltac:(lia)) as (percent & E & _).
  rewrite (run_bind_ok _ _ _ _ _ E).
  unfold py_bind at 1, set_counter at 1. unfold asyncio_gather.
  set (st1 := State _ _ _ _ _ _).
  destruct (run_tasks_spec W self (Z.of_nat (length token_ids)) st
              (schedule W token_ids ++ seq 0 (length token_ids) ++ seq 0 (length token_ids))
              ((λ t, (t, Created)) <$> token_ids) st1) as (st' & Erun & Hinv).
  { constructor; try done.
    - by rewrite finished_none.
    - exists []. rewrite started_none. by rewrite app_nil_r.
    - intros t body Hin. rewrite finished_none in Hin. by apply elem_of_nil in Hin. }
  rewrite (run_bind_ok _ _ _ _ _ Erun), run_ret.
  exists st'. split; [done|]. by rewrite every_task_finishes in Hinv.
Qed.

Lemma length_filter_all {A} (P : A → Prop) `{∀ x, Decision (P x)} (l : list A) :
  length (filter P l) = length l ↔ Forall P l.
Proof.
  induction l as [|x l IH]; simpl.
  - split; [constructor|done].
  - rewrite filter_cons. pose proof (length_filter P l) as Hle. case_decide as Hx; simpl.
    + rewrite Forall_cons. split; [intros Hl; split; [done|apply IH; lia]|].
      intros [_ Hall]. f_equal. by apply IH.
    + split; [lia|]. intros Hall. by apply Forall_cons in Hall as [? _].
Qed.

(** X3. A batch over a non-empty list returns normally whatever the
    exchanges do and in whatever order the event loop resumes the tasks. The
    counter ends at the number of tokens whose exchange reached the
    callback, so it equals the total exactly when every exchange did. *)
(** X. The batch returns normally whatever the exchanges do, and the
    progress counter ends at the number of tokens whose exchange ran through
    to the callback: it reaches the total exactly when every exchange does. *)
Theorem batch_counter (W : world) (self : VicCollageCreator) (token_ids : list Z)
    (st : state) :
  token_ids ≠ [] → Z.of_nat (length token_ids) < 2 ^ 53 →
  ∃ st', download_all W self token_ids st = (Ok (), st') ∧
         progress_counter st'
         = Z.of_nat (length (filter (λ t, completes W self (dirs (fs st)) t = true)
                                    token_ids)) ∧
         (progress_counter st' = Z.of_nat (length token_ids)
          ↔ Forall (λ t, completes W self (dirs (fs st)) t = true) token_ids).
Proof.
  intros Hne Hlen.
  destruct (download_all_spec W self token_ids st Hne Hlen) as (st' & E & Hinv).
  exists st'. split; [done|].
  destruct Hinv as [_ _ _ Hc _ _ _]. rewrite finished_all in Hc.
  split; [done|]. rewrite Hc, <- length_filter_all.
  split; [intros ?%Nat2Z.inj; done|by intros ->].
Qed.

Lemma download_all_returns W self token_ids st st' :
  download_all W self token_ids st = (Ok (), st') →
  batch_inv W self st ((λ t, (t, Finished)) <$> token_ids) st'.
Proof.
  unfold download_all, progress. intros H.
  apply bind_inv_ok in H as (u & st1 & Hbar & H).
  destruct (print_progress_bar_outcome 0 (Z.of_nat (length token_ids)) "Progress:" "Complete"
              50 "█" st) as (r & out & Ebar & _).
  rewrite Ebar in Hbar. injection Hbar as _ <-.
  unfold py_bind at 1, set_counter at 1 in H. unfold asyncio_gather in H.
  set (st1 := State _ _ _ _ _ _) in H.
  destruct (run_tasks_spec W self (Z.of_nat (length token_ids)) st
              (schedule W token_ids ++ seq 0 (length token_ids) ++ seq 0 (length token_ids))
              ((λ t, (t, Created)) <$> token_ids) st1) as (st2 & Erun & Hinv).
  { constructor; try done.
    - by rewrite finished_none.
    - exists []. rewrite started_none. by rewrite app_nil_r.
    - intros t body Hin. rewrite finished_none in Hin. by apply elem_of_nil in Hin. }
  rewrite (run_bind_ok _ _ _ _ _ Erun), run_ret in H. injection H as <-.
  by rewrite every_task_finishes in Hinv.
Qed.

Lemma get_the_vics_returns W self wallet st ids st' :
  get_the_vics W self wallet st = (Ok ids, st') →
  ∃ a st1,
    to_checksum_address W (JStr wallet) = Ok a ∧
    files (fs st1) = files (fs st) ∧ dirs (fs st1) = {["vics"]} ∪ dirs (fs st) ∧
    net st1 = net st ++ [RpcTokensOfOwner a] ∧
    batch_inv W self st1 ((λ t, (t, Finished)) <$> ids) st'.
Proof.
  unfold get_the_vics. intros H.
  apply bind_inv_ok in H as (ids0 & st1 & Hres & H).
  apply bind_inv_ok in H as ([] & st2 & Hdl & H). injection H as <- <-.
  pose proof (resolve_tokens_keeps_files W self wallet st ids0 st1 Hres) as [Hf Hd].
  pose proof (resolve_tokens_run W self wallet st) as Hrun.
  destruct (resolved_ids W self wallet) as [raw|].
  2:{ destruct Hrun as (e & st3 & Hrun). rewrite Hrun in Hres. done. }
  destruct Hrun as (a & Ha & Hrun). cbv zeta in Hrun. rewrite Hrun in Hres.
  apply bind_inv_ok in Hres as (u & st3 & Hmk & Hres). injection Hres as _ <-.
  exists a, st3. split; [done|]. split; [done|]. split; [done|]. split.
  - revert Hmk. unfold os_makedirs, py_bind, get_state.
    destruct (bool_decide _); [by intros [= _ <-]|].
    destruct (bool_decide _); [done|]. by intros [= _ <-].
  - by apply download_all_returns.
Qed.

(** X4. The network calls of one wallet: when [get_the_vics] returns, it
    has made the contract call first and then exactly one [session.get]
    call per returned token id, in some order, and no other call: the
    script itself never repeats a request. *)
Theorem wallet_traffic (W : world) (self : VicCollageCreator) (wallet : string)
    (st : state) (ids : list Z) (st' : state) :
  get_the_vics W self wallet st = (Ok ids, st') →
  ∃ a sent, to_checksum_address W (JStr wallet) = Ok a ∧
            net st' = net st ++ RpcTokensOfOwner a :: sent ∧
            sent ≡ₚ HttpGet (vic_base_url self) <$> ids.
Proof.
  intros H. apply get_the_vics_returns in H as (a & st1 & Ha & _ & _ & Hnet & Hinv).
  destruct Hinv as [_ _ _ _ (sent & Hn & Hp) _ _]. rewrite started_all in Hp.
  exists a, sent. split; [done|]. split; [|done].
  by rewrite Hn, Hnet, <- app_assoc.
Qed.

(** X5. When [get_the_vics] returns, the body of every token answered with
    status 200 lies under [vics/<id>.png]; the file of a token answered
    otherwise is what it was before the call (a stale file stays); no other
    path changes; and [vics] is the only directory that may have been
    added. *)
Theorem downloads_on_disk (W : world) (self : VicCollageCreator) (wallet : string)
    (st : state) (ids : list Z) (st' : state) :
  get_the_vics W self wallet st = (Ok ids, st') →
  Forall (λ t, vic_path t ∉ dirs (fs st)) ids →
  dirs (fs st') = {["vics"]} ∪ dirs (fs st) ∧
  (∀ t body, t ∈ ids →
     http_get W (vic_base_url self) t = Response 200 body →
     files (fs st') !! vic_path t = Some body) ∧
  (∀ t, t ∈ ids →
     (∀ body, http_get W (vic_base_url self) t ≠ Response 200 body) →
     files (fs st') !! vic_path t = files (fs st) !! vic_path t) ∧
  (∀ p, (∀ t, t ∈ ids → p ≠ vic_path t) →
     files (fs st') !! p = files (fs st) !! p).
Proof.
  intros H Hfree. apply get_the_vics_returns in H as (a & st1 & _ & Hf & Hd & _ & Hinv).
  destruct Hinv as [Hd' _ _ _ _ Hs Ho]. rewrite finished_all in Hs, Ho.
  rewrite Hf in Ho. rewrite Hd', Hd. split; [done|].
  assert (Hst : ∀ t, t ∈ ids →
            stored W self (dirs (fs st1)) t =
            match http_get W (vic_base_url self) t with
            | Response status body => if status =? 200 then Some body else None
            | _ => None
            end).
  { intros t Hin. unfold stored. destruct (http_get _ _ _) as [status body| |]; try done.
    rewrite Hd.
    rewrite (bool_decide_eq_true_2 ("vics" ∈ {["vics"]} ∪ dirs (fs st)))
      by (apply elem_of_union_l; by apply elem_of_singleton).
    rewrite Forall_forall in Hfree.
    rewrite (bool_decide_eq_false_2 (vic_path t ∈ {["vics"]} ∪ dirs (fs st))).
    - by destruct (status =? 200).
    - intros Hin'. apply elem_of_union in Hin' as [Hv|Hin']; [|by apply (Hfree t Hin)].
      apply elem_of_singleton in Hv. pose proof (vic_path_under t) as Hu.
      rewrite Hv in Hu. done. }
  split; [|split].
  - intros t body Hin Hget. apply Hs; [done|]. rewrite (Hst t Hin), Hget. done.
  - intros t Hin Hnot. apply Ho. intros t' Hin' Hsome Heq.
    apply vic_path_inj in Heq as ->. rewrite (Hst t Hin) in Hsome.
    destruct (http_get W (vic_base_url self) t) as [status body| |];
      try by destruct Hsome.
    destruct (Z.eqb_spec status 200) as [->|]; [|by destruct Hsome].
    by apply (Hnot body).
  - intros p Hp. apply Ho. intros t Hin _ Heq. by apply (Hp t Hin).
Qed.


(** ** The composer *)

(** X8. The grid is nearly square: for [n] images, at least one,
    [num_rows <= num_cols <= num_rows + 2]. *)
Theorem grid_nearly_square (n : Z) :
  1 ≤ n < 2 ^ 52 →
  ∃ rows cols, grid_shape n = Ok (rows, cols) ∧ 1 ≤ rows ≤ cols ∧ cols ≤ rows + 2.
Proof.
  intros Hn. exists (Z.sqrt n), (ceil_div n (Z.sqrt n)).
  split; [by apply grid_shape_spec|].
  destruct (grid_covers n ltac:(lia)) as [Hr Hc].
  pose proof (Z.sqrt_spec n ltac:(lia)) as Hs. cbv zeta in Hs.
  unfold ceil_div in *. set (r := Z.sqrt n) in *.
  assert (Hq : (n + r - 1) / r * r ≤ n + r - 1).
  { pose proof (Z.div_mod (n + r - 1) r ltac:(lia)).
    pose proof (Z.mod_pos_bound (n + r - 1) r ltac:(lia)). lia. }
  set (c := (n + r - 1) / r) in *.
  split; [split; [done|]|]; nia.
Qed.

Lemma walk_uniform w h cols items : ∀ k,
  0 < w → 0 < cols → 0 ≤ k →
  Forall (λ item : string * image, img_width item.2 = w ∧ img_height item.2 = h) items →
  walk (w * cols) (w * (k mod cols)) (h * (k / cols)) items = cells w h cols k items.
Proof.
  intros k Hw Hc. revert k.
  induction items as [|[name im] items IH]; intros k Hk Hall; cbn [walk cells]; [done|].
  apply Forall_cons in Hall as [[Hiw Hih] Hrest]. simpl in Hiw, Hih.
  f_equal. f_equal. rewrite Hiw, Hih.
  pose proof (Z.div_mod k cols ltac:(lia)) as Hdm.
  pose proof (Z.mod_pos_bound k cols Hc) as Hmb.
  destruct (Z.leb_spec (w * cols) (w * (k mod cols) + w)).
  - assert (Hlast : k mod cols = cols - 1) by nia.
    assert (Hdiv : (k + 1) / cols = k / cols + 1).
    { symmetry. apply (Z.div_unique (k + 1) cols (k / cols + 1) 0); lia. }
    assert (Hmod : (k + 1) mod cols = 0).
    { symmetry. apply (Z.mod_unique (k + 1) cols (k / cols + 1) 0); lia. }
    rewrite <- (IH (k + 1)) by (done || lia). rewrite Hdiv, Hmod. f_equal; lia.
  - assert (Hlast : k mod cols < cols - 1) by nia.
    assert (Hdiv : (k + 1) / cols = k / cols).
    { symmetry. apply (Z.div_unique (k + 1) cols (k / cols) (k mod cols + 1)); lia. }
    assert (Hmod : (k + 1) mod cols = k mod cols + 1).
    { symmetry. apply (Z.mod_unique (k + 1) cols (k / cols) (k mod cols + 1)); lia. }
    rewrite <- (IH (k + 1)) by (done || lia). rewrite Hdiv, Hmod. f_equal; lia.
Qed.

(** X9. Images of one size fill the grid cell by cell: when every name
    exists and every scaled image is [w] by [h] with [w] positive, on a
    canvas [w * cols] wide image [k] is pasted and labelled at column
    [k mod cols] of row [k / cols], that is at
    ([w * (k mod cols)], [h * (k / cols)]). *)
Theorem uniform_images_fill_cells (image_files : list string) (scaled_images : list image)
    (w h cols : Z) (st : state) :
  0 < w → 0 < cols →
  Forall (λ name, path_exists (fs st) (os_path_join "vics" name) = true) image_files →
  Forall (λ im, img_width im = w ∧ img_height im = h) scaled_images →
  paste_images image_files scaled_images (w * cols) st
  = (Ok (cells w h cols 0 (zip image_files scaled_images)), st).
Proof.
  intros Hw Hc Hex Hsz. rewrite paste_images_walk by done. do 2 f_equal.
  assert (Hzip : Forall (λ item : string * image,
                           img_width item.2 = w ∧ img_height item.2 = h)
                        (zip image_files scaled_images)).
  { clear -Hsz. revert image_files.
    induction Hsz as [|im ims Him _ IH]; intros [|name names]; simpl;
      constructor; [done|apply IH]. }
  rewrite <- (walk_uniform w h cols _ 0 Hw Hc ltac:(lia) Hzip).
  by rewrite Z.mod_0_l, Z.div_0_l, !Z.mul_0_r by lia.
Qed.

(** X10. When the scaling keeps every image that is on disk (neither side
    shrinks below one pixel, so no resize is refused), the scaling loop
    prints one warning line per missing file, in input order, and nothing
    else; it leaves the rest of the state as it is and returns one image
    per existing file. *)
Theorem one_warning_per_missing_file (image_files : list string)
    (collage_scale : spec_float) (st : state) :
  Float64.is_binary64 collage_scale → scale_in_range collage_scale = true →
  Forall (readable (fs st)) image_files →
  Forall (λ im, keeps_both_sides collage_scale im = true)
         (images_on_disk (fs st) image_files) →
  ∃ scaled,
    scale_images image_files collage_scale st
    = (Ok scaled, emit (warnings (fs st) image_files) st) ∧
    length scaled
    = length (filter (λ name, path_exists (fs st) (os_path_join "vics" name) = true)
                     image_files).
Proof.
  intros Hv Hr Hall Hkeep.
  destruct (scale_images_acc collage_scale image_files [] st Hv Hr Hall Hkeep)
    as (scaled & E & Hf2).
  exists scaled. split; [exact E|].
  rewrite <- (Forall2_length _ _ _ Hf2). clear E Hf2 Hkeep.
  unfold images_on_disk.
  induction Hall as [|name names Hname _ IH]; [done|].
  simpl omap. rewrite filter_cons.
  destruct (path_exists (fs st) (os_path_join "vics" name)) eqn:Ex.
  - destruct (Hname Ex) as (im & -> & _). rewrite decide_True by done. cbn [length]. f_equal. exact IH.
  - assert (stored_image (fs st) name = None) as ->.
    { destruct (stored_image (fs st) name) eqn:E; [|done].
      apply stored_image_exists in E. congruence. }
    rewrite decide_False by done. exact IH.
Qed.

Lemma scale_one_refused collage_scale acc name st im w h :
  stored_image (fs st) name = Some im →
  scaled_size im collage_scale = Ok (w, h) →
  w < 1 ∨ h < 1 →
  scale_one collage_scale acc name st = (Raise ValueError, st).
Proof.
  intros Him Hsz Hsmall. unfold scale_one.
  rewrite (run_bind_ok _ _ _ _ _ (run_os_path_exists _ _)).
  rewrite (stored_image_exists _ _ _ Him).
  unfold stored_image in Him.
  destruct (files (fs st) !! os_path_join "vics" name) as [[im'|]|] eqn:Ef; try done.
  injection Him as ->.
  rewrite (run_bind_ok _ _ _ _ _ (run_Image_open _ _ _ Ef)).
  unfold py_bind, py_lift. rewrite Hsz. unfold Image_resize. cbn [fst snd].
  destruct (Z.ltb_spec w 1); [done|]. destruct (Z.ltb_spec h 1); [done|]. lia.
Qed.

(** X23. An image on disk that the scaling does not keep (a side shrinks
    below one pixel) stops the composer: [img.resize] raises [ValueError]
    at the first such image, after the warnings for the missing names before
    it; nothing is composed or saved, and the file system is what it was. *)
Theorem refused_resize_aborts (W : world) (pre post : list string) (name : string)
    (collage_scale : spec_float) (st : state) (im : image) :
  Float64.is_binary64 collage_scale → scale_in_range collage_scale = true →
  Forall (readable (fs st)) pre →
  Forall (λ im, keeps_both_sides collage_scale im = true) (images_on_disk (fs st) pre) →
  stored_image (fs st) name = Some im →
  0 ≤ img_width im < 2 ^ 53 → 0 ≤ img_height im < 2 ^ 53 →
  keeps_both_sides collage_scale im = false →
  make_vic_collage W (pre ++ name :: post) collage_scale st
  = (Raise ValueError, emit (warnings (fs st) pre) st).
Proof.
  intros Hv Hr Hread Hkeep Him Hw Hh Hsmall.
  destruct (scaled_size_spec im collage_scale Hv Hr Hw Hh) as (w & h & E1 & E2 & E3).
  assert (Hwh : w < 1 ∨ h < 1).
  { unfold keeps_both_sides in Hsmall. rewrite E1, E2 in Hsmall.
    apply andb_false_iff in Hsmall as [H|H]; apply Z.leb_gt in H; lia. }
  destruct (scale_images_acc collage_scale pre [] st Hv Hr Hread Hkeep)
    as (scaled & Erun & _).
  unfold make_vic_collage. apply run_bind_raise.
  unfold compose_canvas.
  destruct (pre ++ name :: post) as [|n0 l0] eqn:El; [by destruct pre|]. rewrite <- El.
  apply run_bind_raise. unfold scale_images. rewrite for_each_app.
  rewrite (run_bind_ok _ _ _ _ _ Erun). cbn [for_each].
  apply run_bind_raise.
  by apply (scale_one_refused _ _ _ _ im w h).
Qed.

Lemma leb_same_exponent m1 m2 e :
  SFleb (S754_finite false m1 e) (S754_finite false m2 e) = true → (m1 ≤ m2)%positive.
Proof.
  unfold SFleb, SFcompare. rewrite Z.compare_refl. unfold Pos.le, Pos.compare.
  by destruct (Pos.compare_cont Eq m1 m2).
Qed.

Lemma scale_in_range_upper ms es :
  scale_in_range (S754_finite false ms es) = true →
  Float64.leb (S754_finite false ms es) (Float64.literal 10 1) = true.
Proof. unfold scale_in_range. intros Hr. by apply andb_prop in Hr as [_ Hhi]. Qed.

Lemma mantissa_below_one ms :
  Float64.leb (S754_finite false ms (-52)) (Float64.literal 10 1) = true →
  Z.pos ms ≤ 2 ^ 52.
Proof.
  intros Hhi.
  assert (Hle : (ms ≤ 4503599627370496)%positive).
  { apply leb_same_exponent with (e := -52). rewrite <- Hhi. unfold Float64.leb. f_equal. }
  apply Pos2Z.pos_le_pos in Hle. exact Hle.
Qed.

Lemma scale_at_most_one s :
  Float64.is_binary64 s → scale_in_range s = true →
  ∃ ms es, s = S754_finite false ms es ∧ -59 ≤ es ≤ -52 ∧ 2 ^ 52 ≤ Z.pos ms < 2 ^ 53 ∧
           (es = -52 → Z.pos ms = 2 ^ 52).
Proof.
  intros Hv Hr.
  destruct (scale_in_range_inv s Hv Hr) as (ms & es & -> & Hes & Hms).
  exists ms, es. split; [done|]. split; [lia|]. split; [lia|]. intros ->.
  apply scale_in_range_upper, mantissa_below_one in Hr. lia.
Qed.

Lemma int_mul_to_int_le w s :
  Float64.is_binary64 s → scale_in_range s = true → 0 ≤ w < 2 ^ 53 →
  ∃ z, res_bind (Float64.int_mul_float w s) Float64.to_int = Ok z ∧ 0 ≤ z ≤ w.
Proof.
  intros Hv Hr [Hw0 Hw].
  destruct (scale_at_most_one s Hv Hr) as (ms & es & -> & Hes & Hms & Hone).
  revert Hone. unfold Float64.int_mul_float.
  destruct (Z.eq_dec w 0) as [->|Hnz].
  { intros _. change (Float64.of_int 0) with (Ok (S754_zero false)).
    exists 0. split; [done|lia]. }
  rewrite of_int_small by lia. simpl res_bind.
  pose proof (Zdigits2_bounds w ltac:(lia)) as [Hlo Hhi].
  set (d := Zdigits2 w) in *.
  assert (Hd : 0 < d ≤ 53).
  { split.
    - destruct w as [|p|p]; try lia. unfold d. simpl. lia.
    - destruct (Z.le_gt_cases d 53) as [|Hgt]; [done|].
      assert (2 ^ 53 ≤ 2 ^ (d - 1)) by (apply Z.pow_le_mono_r; lia). lia. }
  set (mw := w * 2 ^ (53 - d)).
  assert (Hmw : 2 ^ 52 ≤ mw < 2 ^ 53).
  { unfold mw. split.
    - replace 52 with ((d - 1) + (53 - d)) by lia. rewrite Z.pow_add_r by lia.
      apply Z.mul_le_mono_nonneg_r; [apply Z.pow_nonneg|]; lia.
    - replace 53 with (d + (53 - d)) at 2 by lia. rewrite Z.pow_add_r by lia.
      apply Z.mul_lt_mono_pos_r; [apply Z.pow_pos_nonneg|]; lia. }
  unfold SFmul. simpl xorb. rewrite Pos2Z.inj_mul, Z2Pos.id by lia.
  set (M := mw * Z.pos ms).
  assert (HM : 2 ^ 104 ≤ M < 2 ^ 106).
  { unfold M. change (2 ^ 104) with (2 ^ 52 * 2 ^ 52). change (2 ^ 106) with (2 ^ 53 * 2 ^ 53).
    assert (0 < 2 ^ 52) by done. nia. }
  set (sh := Z.max 0 (Zdigits2 M - 53)).
  assert (Hsh : (M < 2 ^ 105 ∧ sh = 52) ∨ (2 ^ 105 ≤ M ∧ sh = 53)).
  { unfold sh. destruct (Z.lt_ge_cases M (2 ^ 105)).
    - left. rewrite (Zdigits2_unique M 105); lia.
    - right. rewrite (Zdigits2_unique M 106); lia. }
  assert (HD : 105 ≤ Zdigits2 M ≤ 106).
  { destruct Hsh as [[? ?]|[? ?]].
    - rewrite (Zdigits2_unique M 105); lia.
    - rewrite (Zdigits2_unique M 106); lia. }
  destruct (binary_round_aux_rounded false M (d - 53 + es) loc_Exact) as (m' & B & Bp & Bex & E);
    [lia|lia|lia|].
  fold sh in B, Bex, E.
  unfold Float64.prec, Float64.emax. rewrite E.
  rewrite rounded_to_int by done. simpl cond_Zopp.
  intros Hone. eexists. split; [reflexivity|].
  (* the exponent is not positive, and the mantissa is at most [w] scaled *)
  assert (Hk : 0 ≤ - (es + sh) ∧ m' ≤ mw * 2 ^ (- (es + sh))).
  { destruct (Z.eq_dec es (-52)) as [->|Hne].
    - specialize (Hone eq_refl). unfold M in *. rewrite Hone in *.
      destruct Hsh as [[_ Hs]|[Hbig _]]; [|lia].
      rewrite Hs in *. split; [lia|]. change (- (-52 + 52)) with 0.
      rewrite Z.pow_0_r, Z.mul_1_r.
      rewrite (Bex eq_refl); [by rewrite Z.div_mul by lia|by apply Z.mod_mul].
    - clear Hone. destruct Hsh as [[_ Hs]|[_ Hs]]; rewrite Hs in *.
      + split; [lia|].
        assert (2 ^ 1 ≤ 2 ^ (- (es + 52))) by (apply Z.pow_le_mono_r; lia).
        change (2 ^ 1) with 2 in *. nia.
      + split; [lia|].
        assert (1 ≤ 2 ^ (- (es + 53))) by (change 1 with (2 ^ 0); apply Z.pow_le_mono_r; lia).
        assert (M / 2 ^ 53 < mw).
        { apply Z.div_lt_upper_bound; [lia|]. unfold M. nia. }
        nia. }
  destruct Hk as [Hk0 Hm'].
  set (k := - (d - 53 + es + sh)).
  assert (Hk : 0 ≤ k) by (unfold k; lia).
  replace (d - 53 + es + sh) with (- k) by (unfold k; lia).
  rewrite Z.shiftl_div_pow2 by lia. rewrite Z.opp_involutive.
  assert (H2k : 0 < 2 ^ k) by (apply Z.pow_pos_nonneg; lia).
  split; [apply Z.div_pos; lia|].
  apply Z.div_le_upper_bound; [lia|].
  replace k with ((53 - d) + (- (es + sh))) by (unfold k; lia).
  rewrite Z.pow_add_r by lia. unfold mw in Hm'. lia.
Qed.

(** X11. Scaling never enlarges: for an accepted scale, each side of the
    resized image lies between 0 and the side of the source image. *)
Theorem scaling_never_enlarges (img : image) (collage_scale : spec_float) :
  Float64.is_binary64 collage_scale → scale_in_range collage_scale = true →
  0 ≤ img_width img < 2 ^ 53 → 0 ≤ img_height img < 2 ^ 53 →
  ∃ w h, scaled_size img collage_scale = Ok (w, h) ∧
         0 ≤ w ≤ img_width img ∧ 0 ≤ h ≤ img_height img.
Proof.
  intros Hv Hr Hw Hh.
  destruct (int_mul_to_int_le _ collage_scale Hv Hr Hw) as (w & Ew & Bw).
  destruct (int_mul_to_int_le _ collage_scale Hv Hr Hh) as (h & Eh & Bh).
  exists w, h. split; [|done]. unfold scaled_size.
  apply res_bind_Ok in Ew as (wf & -> & Ew). simpl res_bind at 1. rewrite Ew.
  simpl res_bind at 1.
  apply res_bind_Ok in Eh as (hf & -> & Eh). simpl res_bind at 1. rewrite Eh. done.
Qed.

Lemma mantissa_above_hundredth ms :
  Float64.leb (Float64.literal 10 3) (S754_finite false ms (-59)) = true →
  5764607523034235 ≤ Z.pos ms.
Proof.
  intros Hlo.
  assert (Hle : (5764607523034235 ≤ ms)%positive).
  { apply leb_same_exponent with (e := -59). rewrite <- Hlo. unfold Float64.leb. f_equal. }
  apply Pos2Z.pos_le_pos in Hle. exact Hle.
Qed.

Lemma scale_in_range_lower ms es :
  scale_in_range (S754_finite false ms es) = true →
  Float64.leb (Float64.literal 10 3) (S754_finite false ms es) = true.
Proof. unfold scale_in_range. intros Hr. by apply andb_prop in Hr as [Hlo _]. Qed.

Lemma round_to_53_bits_ge n k :
  0 ≤ k → 2 ^ k ≤ n → 2 ^ k ≤ round_to_53_bits n.
Proof.
  intros Hk Hn. unfold round_to_53_bits. cbv zeta.
  assert (Hpos : 0 < n) by (pose proof (Z.pow_pos_nonneg 2 k); lia).
  set (x := Z.log2 n - 52).
  destruct (Z.leb_spec x 0) as [|Hx]; [done|].
  assert (H2x : 0 < 2 ^ x) by (apply Z.pow_pos_nonneg; lia).
  pose proof (round_half_even_bounds n (2 ^ x)) as [Hb _].
  destruct (Z.le_gt_cases x k) as [Hxk|Hxk].
  - assert (2 ^ (k - x) ≤ n / 2 ^ x).
    { apply Z.div_le_lower_bound; [lia|]. rewrite <- Z.pow_add_r by lia.
      replace (x + (k - x)) with k by lia. done. }
    replace (2 ^ k) with (2 ^ (k - x) * 2 ^ x)
      by (rewrite <- Z.pow_add_r by lia; f_equal; lia).
    apply Z.mul_le_mono_nonneg_r; lia.
  - pose proof (Z.log2_spec n Hpos) as [Hl _].
    assert (2 ^ 52 ≤ n / 2 ^ x).
    { apply Z.div_le_lower_bound; [lia|]. rewrite <- Z.pow_add_r by lia.
      replace (x + 52) with (Z.log2 n) by (unfold x; lia). done. }
    assert (2 ^ k ≤ 2 ^ 52 * 2 ^ x).
    { rewrite <- Z.pow_add_r by lia. apply Z.pow_le_mono_r; lia. }
    assert (2 ^ 52 * 2 ^ x ≤ Float64.round_half_even n (2 ^ x) * 2 ^ x)
      by (apply Z.mul_le_mono_nonneg_r; lia).
    lia.
Qed.

Lemma floor_of_product_large side s :
  Float64.is_binary64 s → scale_in_range s = true → 100 ≤ side →
  ∃ z, floor_of_product side s = Some z ∧ 1 ≤ z.
Proof.
  intros Hv Hr Hside.
  destruct (scale_in_range_inv s Hv Hr) as (ms & es & -> & Hes & Hms).
  unfold floor_of_product. cbv zeta.
  destruct (Z.leb_spec 0 es) as [|_]; [lia|].
  eexists. split; [reflexivity|].
  assert (H2 : 0 < 2 ^ (- es)) by (apply Z.pow_pos_nonneg; lia).
  apply Z.div_le_lower_bound; [done|]. rewrite Z.mul_1_r.
  apply round_to_53_bits_ge; [lia|].
  destruct (Z.eq_dec es (-59)) as [->|Hne].
  - apply scale_in_range_lower, mantissa_above_hundredth in Hr.
    change (2 ^ (- (-59))) with 576460752303423488. nia.
  - assert (2 ^ (- es) ≤ 2 ^ 58) by (apply Z.pow_le_mono_r; lia).
    change (2 ^ 58) with (64 * 2 ^ 52) in *. nia.
Qed.

(** X24. For an accepted scale an image whose sides are both at least 100
    pixels is always kept: neither scaled side is below one pixel, so the
    resize is not refused. *)
Theorem large_images_are_kept (im : image) (collage_scale : spec_float) :
  Float64.is_binary64 collage_scale → scale_in_range collage_scale = true →
  100 ≤ img_width im < 2 ^ 53 → 100 ≤ img_height im < 2 ^ 53 →
  keeps_both_sides collage_scale im = true ∧
  ∃ w h, scaled_size im collage_scale = Ok (w, h) ∧ 1 ≤ w ∧ 1 ≤ h ∧
         Image_resize im (w, h) = Ok (Resized im w h).
Proof.
  intros Hv Hr Hw Hh.
  destruct (floor_of_product_large _ collage_scale Hv Hr (proj1 Hw)) as (w & Ew & Hw1).
  destruct (floor_of_product_large _ collage_scale Hv Hr (proj1 Hh)) as (h & Eh & Hh1).
  split.
  - unfold keeps_both_sides. rewrite Ew, Eh.
    apply andb_true_intro. split; by apply Z.leb_le.
  - destruct (scaled_size_spec im collage_scale Hv Hr) as (w' & h' & Ew' & Eh' & Es);
      [lia|lia|].
    rewrite Ew in Ew'. rewrite Eh in Eh'. injection Ew' as <-. injection Eh' as <-.
    exists w, h. split; [done|]. split; [done|]. split; [done|].
    unfold Image_resize. cbn [fst snd].
    destruct (Z.ltb_spec w 1); [lia|]. destruct (Z.ltb_spec h 1); [lia|]. done.
Qed.

Lemma int_truediv_small a b :
  0 ≤ a < 2 ^ 52 → 1 ≤ b < 2 ^ 52 → ∃ x, Float64.int_truediv a b = Ok x.
Proof.
  intros Ha Hb. destruct (Z.eq_dec a 0) as [->|Hne].
  - unfold Float64.int_truediv. destruct (Z.eqb_spec b 0); [lia|]. by eexists.
  - pose proof (truediv_ceil a b ltac:(lia) Hb) as H.
    apply res_bind_Ok in H as (x & Hx & _). by exists x.
Qed.

Lemma run_os_makedirs d st :
  files (fs st) !! d = None →
  os_makedirs d st
  = (Ok (), State (Fsys ({[d]} ∪ dirs (fs st)) (files (fs st)))
                  (stdout st) (stderr st) (net st) (ticks st) (progress_counter st)).
Proof.
  intros Hf. unfold os_makedirs, py_bind, get_state.
  destruct (decide (d ∈ dirs (fs st))) as [Hin|Hout].
  - rewrite (bool_decide_eq_true_2 _ Hin). unfold py_ret. f_equal.
    replace ({[d]} ∪ dirs (fs st)) with (dirs (fs st)).
    + by destruct st as [[] ? ? ? ? ?].
    + symmetry. apply subseteq_union_1_L. by apply singleton_subseteq_l.
  - rewrite (bool_decide_eq_false_2 _ Hout).
    rewrite bool_decide_eq_false_2; [done|]. by rewrite not_elem_of_dom.
Qed.

Lemma jpeg_encodes_ok im :
  1 ≤ img_width im ≤ JPEG_MAX_DIMENSION → 1 ≤ img_height im ≤ JPEG_MAX_DIMENSION →
  jpeg_encodes im = Ok ().
Proof.
  intros Hw Hh. unfold jpeg_encodes.
  destruct (Z.ltb_spec (img_width im) 1); [lia|].
  destruct (Z.ltb_spec (img_height im) 1); [lia|].
  destruct (Z.ltb_spec JPEG_MAX_DIMENSION (img_width im)); [lia|].
  destruct (Z.ltb_spec JPEG_MAX_DIMENSION (img_height im)); [lia|]. done.
Qed.

Lemma run_Image_save_ok W d name im st :
  d ∈ dirs (fs st) → os_path_join d name ∉ dirs (fs st) → jpeg_encodes im = Ok () →
  Image_save W d name im st
  = (Ok (), State (Fsys (dirs (fs st)) (<[os_path_join d name := ImageFile im]> (files (fs st))))
                  (stdout st) (stderr st) (net st) (ticks st) (progress_counter st)).
Proof.
  intros Hd Hp Henc. unfold Image_save, py_bind, get_state.
  rewrite (bool_decide_eq_true_2 _ Hd), (bool_decide_eq_false_2 _ Hp), Henc. done.
Qed.

(** X12. Once the canvas is composed, with sides the JPEG encoder takes
    (from 1 to 65500 pixels), [make_vic_collage] saves it as
    [output/vics_collage_<epoch>.jpg], creating [output] if needed and
    replacing whatever file had that name; it changes nothing else on disk
    and reports the number of names it was given (missing files included),
    the resolution and the path. It needs [output] not to be a regular file
    and the path not to be a directory. *)
Theorem collage_is_saved (W : world) (image_files : list string) (collage_scale : spec_float)
    (collage : image) (st st1 : state) (epoch_time : Z) :
  compose_canvas image_files collage_scale st = (Ok (Some collage), st1) →
  1 ≤ img_width collage ≤ JPEG_MAX_DIMENSION →
  1 ≤ img_height collage ≤ JPEG_MAX_DIMENSION →
  files (fs st1) !! "output" = None →
  Float64.to_int (clock W (ticks st1)) = Ok epoch_time →
  collage_path epoch_time ∉ dirs (fs st1) →
  0 ≤ encoded_size W collage < 2 ^ 52 →
  ∃ st', make_vic_collage W image_files collage_scale st = (Ok (), st') ∧
         files (fs st') = <[collage_path epoch_time := ImageFile collage]> (files (fs st1)) ∧
         dirs (fs st') = {["output"]} ∪ dirs (fs st1) ∧
         ∃ scale_line size_line,
           stdout st' = stdout st1 ++
             [LF;
              ("Total number of images: " +:+ pretty (Z.of_nat (length image_files))) +:+ LF;
              scale_line;
              ("Total resolution: " +:+ pretty (img_width collage) +:+ "x"
                 +:+ pretty (img_height collage) +:+ " pixels") +:+ LF;
              size_line;
              ("Collage saved to " +:+ collage_path epoch_time) +:+ LF;
              LF].
Proof.
  intros Hc Hcw Hch Hout Hclock Hpath Hsize.
  unfold make_vic_collage. rewrite (run_bind_ok _ _ _ _ _ Hc).
  unfold save_and_report.
  rewrite (run_bind_ok _ _ _ _ _ (run_os_makedirs "output" st1 Hout)).
  set (st2 := State _ _ _ _ _ _).
  unfold py_bind at 1, time_time at 1.
  change (clock W (ticks st2)) with (clock W (ticks st1)).
  unfold py_bind at 1. rewrite run_lift, Hclock.
  fold (collage_path epoch_time).
  set (st3 := State _ _ _ _ _ _).
  assert (Hd3 : "output" ∈ dirs (fs st3)).
  { unfold st3. cbn [fs dirs]. apply elem_of_union_l. by apply elem_of_singleton. }
  assert (Hp3 : os_path_join "output" ("vics_collage_" +:+ pretty epoch_time +:+ ".jpg")
                ∉ dirs (fs st3)).
  { unfold st3. cbn [fs dirs]. fold (collage_path epoch_time).
    intros Hin. apply elem_of_union in Hin as [Hin|Hin]; [|done].
    apply elem_of_singleton in Hin. by apply collage_path_not_output in Hin. }
  rewrite (run_bind_ok _ _ _ _ _
             (run_Image_save_ok W _ _ collage st3 Hd3 Hp3 (jpeg_encodes_ok _ Hcw Hch))).
  fold (collage_path epoch_time).
  change (fs st3) with (Fsys ({["output"]} ∪ dirs (fs st1)) (files (fs st1))).
  cbn [dirs files].
  set (st4 := State _ _ _ _ _ _).
  destruct (int_truediv_small (encoded_size W collage) 1024 Hsize ltac:(lia)) as [kb Ekb].
  rewrite (run_bind_ok _ _ _ _ _ (run_print _ _)).
  rewrite (run_bind_ok _ _ _ _ _ (run_print _ _)).
  unfold py_bind at 1. rewrite run_lift.
  change (Float64.of_int 100) with (Ok (S754_finite false 7036874417766400 (-46))).
  cbv iota beta.
  rewrite (run_bind_ok _ _ _ _ _ (run_print _ _)).
  rewrite (run_bind_ok _ _ _ _ _ (run_print _ _)).
  unfold py_bind at 1. rewrite run_lift, Ekb.
  rewrite (run_bind_ok _ _ _ _ _ (run_print _ _)).
  rewrite (run_bind_ok _ _ _ _ _ (run_print _ _)).
  rewrite run_print, !emit_emit.
  eexists. split; [reflexivity|].
  split; [done|]. split; [done|].
  eexists _, _. reflexivity.
Qed.





(** ** The orchestrator *)

Lemma load_configuration_decoded W file_path st text config :
  files (fs st) !! file_path = Some (OtherFile text) →
  json_loads W text = Ok config →
  load_configuration W file_path st = (Ok config, st).
Proof.
  intros Hfile Hjson.
  unfold load_configuration, try_except, open_and_load, py_bind, get_state.
  rewrite Hfile. unfold py_lift. by rewrite Hjson.
Qed.

Lemma setup_non_mapping W args st text config :
  files (fs st) !! "config.json" = Some (OtherFile text) →
  json_loads W text = Ok config →
  (∀ items, config ≠ JDict items) →
  ∃ st', main_async_setup W args st = (Raise AttributeError, st') ∧
         fs st' = fs st ∧ net st' = net st ∧ stderr st' = stderr st.
Proof.
  intros Hfile Hjson Hnd. unfold main_async_setup.
  unfold py_bind at 1. unfold time_time at 1.
  unfold py_bind at 1. unfold print_ascii_vic at 1. rewrite run_print.
  set (st2 := emit _ _).
  pose proof (load_configuration_decoded W "config.json" st2 text config Hfile Hjson) as Hok.
  unfold py_bind at 1. rewrite Hok.
  unfold py_bind at 1, py_lift at 1.
  destruct config; try (by exists st2).
  by destruct (Hnd items).
Qed.

(** X14. A configuration file that decodes to anything but a JSON object
    ends the run with [AttributeError] at the first [config.get], whatever
    the scale: before the scale check and before any request, with nothing
    written to disk or to standard error. *)
Theorem non_mapping_config_aborts (W : world) (args : Namespace) (st : state)
    (text : string) (config : json) :
  files (fs st) !! "config.json" = Some (OtherFile text) →
  json_loads W text = Ok config →
  (∀ items, config ≠ JDict items) →
  ∃ st', main_async W args st = (Raise AttributeError, st') ∧
         fs st' = fs st ∧ net st' = net st ∧ stderr st' = stderr st.
Proof.
  intros Hfile Hjson Hnd.
  destruct (setup_non_mapping W args st text config Hfile Hjson Hnd) as (st' & E & H).
  exists st'. split; [|done].
  unfold main_async, main_async_with. by rewrite (run_bind_raise _ _ _ _ _ E).
Qed.

Lemma get_the_vics_nonempty W self wallet st ids st' :
  get_the_vics W self wallet st = (Ok ids, st') → ids ≠ [].
Proof.
  unfold get_the_vics. intros H.
  apply bind_inv_ok in H as (ids0 & st1 & _ & H).
  apply bind_inv_ok in H as (u & st2 & Hdl & H). injection H as <- <-.
  intros ->. unfold download_all, progress in Hdl. simpl length in Hdl.
  destruct (print_progress_bar_zero 0 "Progress:" "Complete" 50 "█" st1) as (e & E & _).
  by rewrite (run_bind_raise _ _ _ _ _ E) in Hdl.
Qed.

Lemma collect_grows W creator wallets : ∀ (acc : list string) st names st',
  for_each wallets acc (λ (all_image_files : list string) wallet_address,
    print ("Processing wallet: " +:+ wallet_address) ;;;
    token_ids <- get_the_vics W creator wallet_address ;;
    py_ret (all_image_files ++ (png_name <$> (token_ids : list Z)))) st = (Ok names, st') →
  (length acc + length wallets ≤ length names)%nat.
Proof.
  induction wallets as [|w wallets IH]; intros acc st names st' H; cbn [for_each] in H.
  - injection H as <- <-. simpl. lia.
  - apply bind_inv_ok in H as (acc' & st1 & Hstep & H).
    apply bind_inv_ok in Hstep as (u & st2 & _ & Hstep).
    apply bind_inv_ok in Hstep as (ids & st3 & Hget & Hstep). injection Hstep as <- <-.
    apply get_the_vics_nonempty in Hget. apply IH in H.
    rewrite length_app, length_fmap in H. destruct ids; [done|]. simpl in *. lia.
Qed.

(** X15. Whenever the wallet loop completes, every wallet has contributed
    at least one name (a wallet without tokens aborts the run). With the
    non-empty wallet list that [nargs='+'] guarantees, the list handed on is
    never empty: the [else] branch of lines 257-258 cannot run. *)
Theorem every_wallet_contributes (W : world) (creator : VicCollageCreator)
    (wallets : list string) (st : state) (names : list string) (st' : state) :
  collect_image_files W creator wallets st = (Ok names, st') →
  (length wallets ≤ length names)%nat ∧ (wallets ≠ [] → names ≠ []).
Proof.
  intros H. apply collect_grows in H. simpl in H. split; [done|].
  intros Hw ->. destruct wallets; [done|]. simpl in H. lia.
Qed.

Lemma inv_untouched_makedirs f0 d :
  d = "vics" ∨ d = "output" → inv (untouched_state f0) (os_makedirs d).
Proof.
  intros Hd st [H1 H2]. unfold os_makedirs, py_bind, get_state.
  destruct (bool_decide _); [done|]. destruct (bool_decide _); [done|].
  split; simpl; [done|]. intros p Hv Ho Hu. rewrite <- (H2 p Hv Ho Hu).
  rewrite elem_of_union, elem_of_singleton.
  split; [intros [Heq|Hin]; [subst p; destruct Hd; congruence|done]|by right].
Qed.

Lemma inv_untouched_write f0 d name content :
  under "vics" (os_path_join d name) = true ∨ under "output" (os_path_join d name) = true →
  inv (untouched_state f0) (write_file d name content).
Proof.
  intros Hd st [H1 H2]. rewrite (surjective_pairing (write_file d name content st)).
  rewrite run_write_file. destruct (negb _); [done|]. destruct (bool_decide _); [done|].
  split; simpl; [|done]. intros p Hv Ho. rewrite <- (H1 p Hv Ho).
  apply lookup_insert_ne. intros <-. destruct Hd; congruence.
Qed.

Lemma inv_untouched_save f0 W name im :
  under "output" (os_path_join "output" name) = true →
  inv (untouched_state f0) (Image_save W "output" name im).
Proof.
  intros Hu st [H1 H2]. unfold Image_save, py_bind, get_state.
  destruct (negb _); [done|]. destruct (bool_decide _); [done|].
  assert (Hkeep : ∀ x p, under "vics" p = false → under "output" p = false →
            partial_alter (λ _, x) (os_path_join "output" name) (files (fs st)) !! p
            = files f0 !! p).
  { intros x p Hv Ho. rewrite <- (H1 p Hv Ho).
    apply lookup_partial_alter_ne. intros <-. congruence. }
  destruct (jpeg_encodes im); simpl; split; simpl; eauto.
Qed.

Lemma inv_untouched_rmtree f0 : inv (untouched_state f0) (shutil_rmtree "vics").
Proof.
  intros st [H1 H2]. unfold shutil_rmtree, py_bind, get_state.
  destruct (bool_decide _); [|done]. split; simpl.
  - intros p Hv Ho. rewrite <- (H1 p Hv Ho).
    destruct (files (fs st) !! p) as [x|] eqn:E.
    + apply map_lookup_filter_Some. done.
    + apply map_lookup_filter_None. by left.
  - intros p Hv Ho Hu. rewrite <- (H2 p Hv Ho Hu). rewrite elem_of_filter. tauto.
Qed.

Lemma inv_untouched_mkdir f0 : inv (untouched_state f0) (os_mkdir "vics").
Proof.
  intros st [H1 H2]. unfold os_mkdir, py_bind, get_state.
  destruct (path_exists _ _); [done|]. split; simpl; [done|].
  intros p Hv Ho Hu. rewrite <- (H2 p Hv Ho Hu).
  rewrite elem_of_union, elem_of_singleton.
  split; [intros [Heq|Hin]; [congruence|done]|by right].
Qed.

Lemma inv_untouched_main W args f0 : inv (untouched_state f0) (main W args).
Proof.
  assert (Hmv : inv (untouched_state f0) (os_makedirs "vics"))
    by (apply inv_untouched_makedirs; by left).
  assert (Hmo : inv (untouched_state f0) (os_makedirs "output"))
    by (apply inv_untouched_makedirs; by right).
  assert (Hwv : ∀ (token_id : Z) content,
            inv (untouched_state f0) (write_file "vics" (pretty token_id +:+ ".png") content)).
  { intros t c. apply inv_untouched_write. left. apply (vic_path_under t). }
  assert (Hwo : ∀ W' (epoch_time : Z) collage,
            inv (untouched_state f0)
                (Image_save W' "output" ("vics_collage_" +:+ pretty epoch_time +:+ ".jpg")
                            collage)).
  { intros W' t c. apply inv_untouched_save. apply output_path_under. }
  pose proof (inv_untouched_rmtree f0) as Hrm.
  pose proof (inv_untouched_mkdir f0) as Hmd.
  assert (Hpe : ∀ A msg, inv (untouched_state f0) (@parser_error A msg))
    by (intros A msg s Hs; exact Hs).
  pose proof (inv_load_configuration (λ f _, untouched f0 f) W "config.json") as Hlc.
  unfold untouched_state in *.
  unfold main, reset_working_directory, main_async, main_async_with.
  apply inv_bind; [|intros; inv_tac].
  apply inv_bind.
  { unfold main_async_setup, print_ascii_vic. inv_tac. }
  intros [t0 creator].
  apply inv_bind; [by apply inv_collect_image_files|]. intros names.
  by apply inv_main_async_finish.
Qed.

(** X16. [main] touches nothing outside its two directories: whatever the
    outcome of the run, every file that lies neither below [vics/] nor below
    [output/] is what it was, the configuration file among them, and so is
    every directory other than [vics], [output] and those below [vics/]. *)
Theorem only_vics_and_output_change (W : world) (args : Namespace) (st : state) :
  let st' := (main W args st).2 in
  (∀ p, under "vics" p = false → under "output" p = false →
        files (fs st') !! p = files (fs st) !! p) ∧
  (∀ p, p ≠ "vics" → p ≠ "output" → under "vics" p = false →
        (p ∈ dirs (fs st') ↔ p ∈ dirs (fs st))).
Proof.
  apply (inv_untouched_main W args (fs st) st). split; done.
Qed.



(** ** The two halves together *)

Lemma stored_when_free W self d t :
  "vics" ∈ d → vic_path t ∉ d →
  stored W self d t =
  match http_get W (vic_base_url self) t with
  | Response status body => if status =? 200 then Some body else None
  | _ => None
  end.
Proof.
  intros Hv Hfree. unfold stored. destruct (http_get _ _ _) as [status body| |]; try done.
  rewrite (bool_decide_eq_true_2 _ Hv), (bool_decide_eq_false_2 _ Hfree).
  by destruct (status =? 200).
Qed.

Lemma vic_path_not_vics t : vic_path t ≠ "vics".
Proof. intros H. pose proof (vic_path_under t) as Hu. rewrite H in Hu. done. Qed.

Lemma get_the_vics_stores W self wallet st ids st' t body :
  get_the_vics W self wallet st = (Ok ids, st') →
  Forall (λ t, vic_path t ∉ dirs (fs st)) ids →
  t ∈ ids → http_get W (vic_base_url self) t = Response 200 body →
  files (fs st') !! vic_path t = Some body.
Proof.
  intros H Hfree Hin Hget.
  apply get_the_vics_returns in H as (a & st1 & _ & Hf & Hd & _ & Hinv).
  destruct Hinv as [_ _ _ _ _ Hs _]. rewrite finished_all in Hs.
  apply Hs; [done|]. rewrite stored_when_free, Hget; [done| |].
  - rewrite Hd. apply elem_of_union_l. by apply elem_of_singleton.
  - rewrite Hd. intros Hin'. apply elem_of_union in Hin' as [Hv|Hin'].
    + apply elem_of_singleton in Hv. by apply vic_path_not_vics in Hv.
    + rewrite Forall_forall in Hfree. by apply (Hfree t Hin).
Qed.

(** X18. The downloader and the composer agree on the file names: when
    every token of a wallet is answered with status 200 and an image that
    the scaling keeps (neither side shrinks below one pixel), and no
    [vics/<id>.png] is a directory, the composer run on [<id>.png] for the
    returned ids finds every image, prints no warning and pastes all of
    them, in ascending order of the ids. *)
Theorem downloaded_images_are_composed (W : world) (self : VicCollageCreator)
    (wallet : string) (st : state) (ids : list Z) (st' : state)
    (collage_scale : spec_float) :
  get_the_vics W self wallet st = (Ok ids, st') →
  Forall (λ t, vic_path t ∉ dirs (fs st)) ids →
  Forall (λ t, ∃ im, http_get W (vic_base_url self) t = Response 200 (ImageFile im) ∧
                     0 ≤ img_width im < 2 ^ 53 ∧ 0 ≤ img_height im < 2 ^ 53 ∧
                     keeps_both_sides collage_scale im = true) ids →
  Float64.is_binary64 collage_scale → scale_in_range collage_scale = true →
  Z.of_nat (length ids) < 2 ^ 52 →
  ∃ images scaled collage_width collage_height,
    Forall2 (λ t im, http_get W (vic_base_url self) t = Response 200 (ImageFile im))
            ids images ∧
    Forall2 (scaled_by collage_scale) images scaled ∧
    compose_canvas (png_name <$> ids) collage_scale st'
    = (Ok (Some (Collage collage_width collage_height BLACK
                   (walk collage_width 0 0 (zip (png_name <$> ids) scaled)))), st').
Proof.
  intros Hrun Hfree Hserved Hv Hr Hlen.
  pose proof (get_the_vics_nonempty _ _ _ _ _ _ Hrun) as Hne.
  assert (Hone : ∀ t, t ∈ ids →
            ∃ im, http_get W (vic_base_url self) t = Response 200 (ImageFile im) ∧
                  stored_image (fs st') (png_name t) = Some im ∧
                  0 ≤ img_width im < 2 ^ 53 ∧ 0 ≤ img_height im < 2 ^ 53 ∧
                  keeps_both_sides collage_scale im = true).
  { intros t Hin. rewrite Forall_forall in Hserved.
    destruct (Hserved t Hin) as (im & Hget & Hw & Hh & Hk). exists im. split; [done|].
    split; [|done]. unfold stored_image. fold (vic_path t).
    by rewrite (get_the_vics_stores _ _ _ _ _ _ _ _ Hrun Hfree Hin Hget). }
  assert (Himages : ∃ images,
            Forall2 (λ t im, http_get W (vic_base_url self) t = Response 200 (ImageFile im) ∧
                             stored_image (fs st') (png_name t) = Some im ∧
                             0 ≤ img_width im < 2 ^ 53 ∧ 0 ≤ img_height im < 2 ^ 53 ∧
                             keeps_both_sides collage_scale im = true)
                    ids images).
  { clear -Hone. induction ids as [|t ids IH]; [by exists []|].
    destruct (Hone t) as (im & H); [apply list_elem_of_here|].
    destruct IH as [images IH]; [intros t' Hin; apply Hone; by apply list_elem_of_further|].
    exists (im :: images). by constructor. }
  destruct Himages as [images Hall].
  set (names := png_name <$> ids).
  assert (Hread : Forall (readable (fs st')) names).
  { unfold names. clear -Hall.
    induction Hall as [|t im ts ims (H0 & H1 & H2 & H3 & H4) _ IH]; constructor; [|done].
    intros _. eauto. }
  assert (Hdisk : images_on_disk (fs st') names = images).
  { unfold names, images_on_disk. clear -Hall.
    induction Hall as [|t im ts ims (H0 & H1 & H2 & H3 & H4) _ IH]; [done|].
    rewrite fmap_cons. cbn [omap list_omap]. rewrite H1. f_equal. exact IH. }
  assert (Hkeep : Forall (λ im, keeps_both_sides collage_scale im = true) images).
  { clear -Hall.
    induction Hall as [|t im ts ims (H0 & H1 & H2 & H3 & H4) _ IH]; by constructor. }
  assert (Hex : Forall (λ name, path_exists (fs st') (os_path_join "vics" name) = true) names).
  { unfold names. clear -Hall.
    induction Hall as [|t im ts ims (H0 & H1 & H2 & H3 & H4) _ IH]; constructor; [|done].
    by eapply stored_image_exists. }
  assert (Hwarn : warnings (fs st') names = []).
  { clear -Hex. unfold warnings. induction Hex as [|name l H _ IH]; [done|].
    rewrite filter_cons, decide_False by congruence. done. }
  assert (Hcount : length images = length ids) by (symmetry; by eapply Forall2_length).
  destruct (compose_canvas_spec names collage_scale st' Hv Hr Hread)
    as (scaled & max_w & max_h & ops & H1 & H2 & H3 & H4 & H5 & H6).
  { by rewrite Hdisk. }
  { rewrite Hdisk, Hcount. split; [|done]. destruct ids; [done|]. simpl length. lia. }
  rewrite Hdisk in *. rewrite Hwarn, emit_nil in *.
  rewrite paste_images_walk in H5 by done. injection H5 as <-.
  exists images, scaled. eexists _, _. split; [|split; [done|exact H6]].
  clear -Hall. induction Hall as [|t im ts ims (H0 & _) _ IH]; by constructor.
Qed.

(** X19. A square number of images gets a square grid: [k * k] images are
    laid out in [k] rows of [k] columns. *)
Theorem square_count_square_grid (k : Z) :
  1 ≤ k → k * k < 2 ^ 52 → grid_shape (k * k) = Ok (k, k).
Proof.
  intros Hk Hlt. rewrite grid_shape_spec by nia.
  rewrite Z.sqrt_square by lia. do 2 f_equal. unfold ceil_div.
  replace (k * k + k - 1) with (k * k + (k - 1)) by lia.
  rewrite Z.div_add_l by lia. rewrite Z.div_small by lia. lia.
Qed.


(** ** The end of a run *)

Lemma elem_of_cleared (X : gset string) p :
  p ∈ filter (λ p, p ≠ "vics" ∧ under "vics" p = false) X
  ↔ (p ≠ "vics" ∧ under "vics" p = false) ∧ p ∈ X.
Proof. apply (elem_of_filter (λ p, p ≠ "vics" ∧ under "vics" p = false)). Qed.

Lemma path_exists_vics_cleared f :
  path_exists (Fsys (filter (λ p, p ≠ "vics" ∧ under "vics" p = false) (dirs f))
                    (filter (λ kv : string * file, under "vics" kv.1 = false) (files f)))
              "vics"
  = bool_decide (is_Some (files f !! "vics")).
Proof.
  unfold path_exists. cbn [dirs files].
  assert (Hno : "vics" ∉ filter (λ p, p ≠ "vics" ∧ under "vics" p = false) (dirs f))
    by (rewrite elem_of_cleared; tauto).
  rewrite (bool_decide_eq_false_2 _ Hno).
  cbn [orb]. apply bool_decide_ext. rewrite elem_of_dom.
  unfold is_Some. setoid_rewrite map_lookup_filter_Some. cbn [fst]. split.
  - intros (x & Hx & _). eauto.
  - intros (x & Hx). exists x. done.
Qed.

(** X20. The reset that ends the script fails with [FileExistsError]
    exactly when [vics] is a regular file (then [rmtree] ignored its own
    error and [mkdir] finds the name taken) and succeeds otherwise; either
    way it changes no file and no directory other than [vics] and what lies
    below it. *)
Theorem reset_changes_only_vics (st : state) :
  let '(r, st') := reset_working_directory st in
  (r = Ok () ∨ r = Raise FileExistsError) ∧
  (r = Raise FileExistsError ↔ is_Some (files (fs st) !! "vics")) ∧
  (∀ p, under "vics" p = false → files (fs st') !! p = files (fs st) !! p) ∧
  (∀ p, p ≠ "vics" → under "vics" p = false → (p ∈ dirs (fs st') ↔ p ∈ dirs (fs st))).
Proof.
  unfold reset_working_directory.
  assert (Hkeep : ∀ p, under "vics" p = false →
            filter (λ kv : string * file, under "vics" kv.1 = false) (files (fs st)) !! p
            = files (fs st) !! p).
  { intros p Hp. destruct (files (fs st) !! p) as [x|] eqn:E.
    - by apply map_lookup_filter_Some.
    - apply map_lookup_filter_None. by left. }
  destruct (decide ("vics" ∈ dirs (fs st))) as [Hin|Hout].
  - rewrite (run_bind_ok _ _ _ _ _ (run_rmtree_in _ _ Hin)).
    unfold os_mkdir, py_bind, get_state. cbn [fs].
    rewrite path_exists_vics_cleared.
    destruct (files (fs st) !! "vics") as [x|] eqn:Ef.
    + rewrite bool_decide_eq_true_2 by eauto. cbn [fs dirs files].
      split; [by right|]. split; [split; eauto|]. split; [done|].
      intros p Hne Hp. cbn [fs dirs files]. rewrite elem_of_cleared. tauto.
    + rewrite bool_decide_eq_false_2 by (by intros [? ?]). cbn [fs dirs files].
      split; [by left|]. split; [split; [done|by intros [? ?]]|]. split; [done|].
      intros p Hne Hp. cbn [fs dirs files].
      rewrite elem_of_union, elem_of_singleton, elem_of_cleared. tauto.
  - rewrite (run_bind_ok _ _ _ _ _ (run_rmtree_out _ _ Hout)).
    unfold os_mkdir, py_bind, get_state, path_exists.
    rewrite (bool_decide_eq_false_2 _ Hout). cbn [orb].
    destruct (files (fs st) !! "vics") as [x|] eqn:Ef.
    + rewrite bool_decide_eq_true_2 by (apply elem_of_dom; eauto).
      split; [by right|]. split; [split; eauto|]. done.
    + rewrite bool_decide_eq_false_2 by (by rewrite not_elem_of_dom).
      cbn [fs dirs files]. split; [by left|].
      split; [split; [done|by intros [? ?]]|]. split; [done|].
      intros p Hne Hp. cbn [fs dirs files].
      rewrite elem_of_union, elem_of_singleton. tauto.
Qed.

(** X21. With an accepted scale the script writes nothing to standard
    error, however the run ends: every problem it reports goes to standard
    output (or leaves as an exception). *)
Theorem accepted_scale_keeps_stderr_silent (W : world) (args : Namespace) (st : state) :
  scale_in_range (collage_scale args) = true →
  stderr (main W args st).2 = stderr st.
Proof.
  intros Hs.
  assert (Hmain : inv (stderr_is (stderr st)) (main W args)).
  { unfold main, reset_working_directory.
    apply inv_bind; [by apply inv_stderr_main_async|]. intros _.
    apply inv_bind; [|intros _].
    - intros s H. unfold shutil_rmtree, py_bind, get_state. by destruct (bool_decide _).
    - intros s H. unfold os_mkdir, py_bind, get_state. by destruct (path_exists _ _). }
  exact (Hmain st eq_refl).
Qed.

Lemma setup_start_time W args st start_time creator st0 :
  main_async_setup W args st = (Ok (start_time, creator), st0) →
  start_time = clock W (ticks st).
Proof.
  unfold main_async_setup. intros H.
  apply bind_inv_ok in H as (t0 & st1 & Ht & H). injection Ht as <- _.
  repeat (apply bind_inv_ok in H as (? & ? & _ & H)).
  by injection H as <- _.
Qed.

(** X22. A run of [main_async] that returns ends its output with the
    timing line, which shows, with two decimals, the last reading of the
    clock minus the reading taken on entry. *)
Theorem timing_line_is_last (W : world) (args : Namespace) (st st' : state) :
  main_async W args st = (Ok (), st') →
  last (stdout st')
  = Some (("Total execution time: "
           +:+ Float64.format_f 2 (Float64.sub (clock W (Nat.pred (ticks st')))
                                               (clock W (ticks st)))
           +:+ " seconds") +:+ LF).
Proof.
  unfold main_async, main_async_with. intros H.
  apply bind_inv_ok in H as ([start_time creator] & st0 & Hsetup & H).
  apply setup_start_time in Hsetup as ->.
  apply bind_inv_ok in H as (names & st1 & _ & H).
  unfold main_async_finish in H.
  apply bind_inv_ok in H as (u & st2 & _ & H).
  unfold report_elapsed, py_bind, time_time, print, print_end in H.
  injection H as <-. cbn [stdout ticks emit Nat.pred]. by rewrite last_snoc.
Qed.


(** ** Instances *)

Lemma download_vic_contains_errors_witness :
  let W := Scenario.world_of [2] Scenario.two_not_found [] in
  let callback : option (Py unit) := Some (py_raise (SystemExit 1)) in
  let st := Scenario.start Scenario.fs_three in
  let st' := (download_vic W Scenario.creator 2 callback st).2 in
  download_vic W Scenario.creator 2 callback st = (Raise (SystemExit 1), st') ∧
  is_Exception (SystemExit 1) = false ∧
  ∃ f st1, callback = Some f ∧ f st1 = (Raise (SystemExit 1), st').
Proof.
  intros W callback st st'.
  assert (H : download_vic W Scenario.creator 2 callback st = (Raise (SystemExit 1), st'))
    by (vm_compute; reflexivity).
  split; [exact H|].
  exact (download_vic_contains_errors W Scenario.creator 2 callback st (SystemExit 1) st' H).
Defined.

Lemma batch_counter_witness :
  let W := Scenario.world_of [7; 8] Scenario.seven_unreachable [1%nat; 0%nat] in
  let st := Scenario.start Scenario.fs_three in
  [7; 8] ≠ [] ∧ Z.of_nat (length [7; 8]) < 2 ^ 53 ∧
  ∃ st', download_all W Scenario.creator [7; 8] st = (Ok (), st') ∧
         progress_counter st'
         = Z.of_nat (length (filter (λ t, completes W Scenario.creator (dirs (fs st)) t = true)
                                    [7; 8])) ∧
         (progress_counter st' = Z.of_nat (length [7; 8])
          ↔ Forall (λ t, completes W Scenario.creator (dirs (fs st)) t = true) [7; 8]).
Proof.
  intros W st.
  assert (H1 : [7; 8] ≠ ([] : list Z)) by discriminate.
  assert (H2 : Z.of_nat (length [7; 8]) < 2 ^ 53) by (simpl; lia).
  split; [exact H1|]. split; [exact H2|].
  exact (batch_counter W Scenario.creator [7; 8] st H1 H2).
Defined.

Lemma wallet_traffic_witness :
  let W := Scenario.world_of [3; 1; 2] Scenario.two_not_found [2%nat; 0%nat; 1%nat] in
  let st := Scenario.start Scenario.fs_config_only in
  let st' := (get_the_vics W Scenario.creator "0xA" st).2 in
  get_the_vics W Scenario.creator "0xA" st = (Ok [1; 2; 3], st') ∧
  ∃ a sent, to_checksum_address W (JStr "0xA") = Ok a ∧
            net st' = net st ++ RpcTokensOfOwner a :: sent ∧
            sent ≡ₚ HttpGet (vic_base_url Scenario.creator) <$> [1; 2; 3].
Proof.
  intros W st st'.
  assert (H : get_the_vics W Scenario.creator "0xA" st = (Ok [1; 2; 3], st'))
    by (vm_compute; reflexivity).
  split; [exact H|].
  exact (wallet_traffic W Scenario.creator "0xA" st [1; 2; 3] st' H).
Defined.

Lemma downloads_on_disk_witness :
  let W := Scenario.world_of [3; 1; 2] Scenario.two_not_found [2%nat; 0%nat; 1%nat] in
  let self := Scenario.creator in
  let st := Scenario.start Scenario.fs_stale in
  let st' := (get_the_vics W self "0xA" st).2 in
  get_the_vics W self "0xA" st = (Ok [1; 2; 3], st') ∧
  Forall (λ t, vic_path t ∉ dirs (fs st)) [1; 2; 3] ∧
  dirs (fs st') = {["vics"]} ∪ dirs (fs st) ∧
  (∀ t body, t ∈ [1; 2; 3] →
     http_get W (vic_base_url self) t = Response 200 body →
     files (fs st') !! vic_path t = Some body) ∧
  (∀ t, t ∈ [1; 2; 3] →
     (∀ body, http_get W (vic_base_url self) t ≠ Response 200 body) →
     files (fs st') !! vic_path t = files (fs st) !! vic_path t) ∧
  (∀ p, (∀ t, t ∈ [1; 2; 3] → p ≠ vic_path t) →
     files (fs st') !! p = files (fs st) !! p).
Proof.
  intros W self st st'.
  assert (H : get_the_vics W self "0xA" st = (Ok [1; 2; 3], st'))
    by (vm_compute; reflexivity).
  assert (Hfree : Forall (λ t, vic_path t ∉ dirs (fs st)) [1; 2; 3]).
  { assert (Hd : dirs (fs st) = {["vics"]}) by reflexivity. rewrite Hd.
    repeat constructor; intros Hin; apply elem_of_singleton in Hin;
      vm_compute in Hin; discriminate Hin. }
  split; [exact H|]. split; [exact Hfree|].
  exact (downloads_on_disk W self "0xA" st [1; 2; 3] st' H Hfree).
Defined.

Lemma progress_bar_line_witness :
  let st := Scenario.start Scenario.fs_config_only in
  0 < 3 < 2 ^ 53 ∧ 0 ≤ 2 ≤ 3 ∧ 0 ≤ 50 ∧
  let filled := 50 * 2 / 3 in
  0 ≤ filled ≤ 50 ∧
  ∃ percent,
    print_progress_bar 2 3 "Progress:" "Complete" 50 "█" st
    = (Ok (), emit (progress_line "Progress:" "Complete" "█" 50 filled percent
                    :: (if 2 =? 3 then [LF] else [])) st).
Proof.
  intros st.
  assert (H1 : 0 < 3 < 2 ^ 53) by lia.
  assert (H2 : 0 ≤ 2 ≤ 3) by lia.
  assert (H3 : 0 ≤ 50) by lia.
  split; [exact H1|]. split; [exact H2|]. split; [exact H3|].
  exact (progress_bar_line 2 3 "Progress:" "Complete" 50 "█" st H1 H2 H3).
Defined.

Lemma progress_bar_endpoints_witness :
  let st := Scenario.start Scenario.fs_config_only in
  0 < 3 < 2 ^ 53 ∧
  print_progress_bar 0 3 "Progress:" "Complete" 50 "█" st
  = (Ok (), emit [progress_line "Progress:" "Complete" "█" 50 0 "0.0"] st) ∧
  print_progress_bar 3 3 "Progress:" "Complete" 50 "█" st
  = (Ok (), emit [progress_line "Progress:" "Complete" "█" 50 50 "100.0"; LF] st).
Proof.
  intros st. assert (H : 0 < 3 < 2 ^ 53) by lia.
  split; [exact H|].
  exact (progress_bar_endpoints 3 "Progress:" "Complete" 50 "█" st H).
Defined.

Lemma grid_nearly_square_witness :
  1 ≤ 8 < 2 ^ 52 ∧
  ∃ rows cols, grid_shape 8 = Ok (rows, cols) ∧ 1 ≤ rows ≤ cols ∧ cols ≤ rows + 2.
Proof.
  assert (H : 1 ≤ 8 < 2 ^ 52) by lia.
  split; [exact H|]. exact (grid_nearly_square 8 H).
Defined.

Lemma uniform_images_fill_cells_witness :
  let st := Scenario.start Scenario.fs_three in
  let scaled := [Resized (Scenario.art 1) 100 50; Resized (Scenario.art 2) 100 50;
                 Resized (Scenario.art 3) 100 50] in
  0 < 100 ∧ 0 < 2 ∧
  Forall (λ name, path_exists (fs st) (os_path_join "vics" name) = true)
         Scenario.three_names ∧
  Forall (λ im, img_width im = 100 ∧ img_height im = 50) scaled ∧
  paste_images Scenario.three_names scaled (100 * 2) st
  = (Ok (cells 100 50 2 0 (zip Scenario.three_names scaled)), st).
Proof.
  intros st scaled.
  assert (H1 : 0 < 100) by lia.
  assert (H2 : 0 < 2) by lia.
  assert (H3 : Forall (λ name, path_exists (fs st) (os_path_join "vics" name) = true)
                      Scenario.three_names)
    by (repeat constructor).
  assert (H4 : Forall (λ im, img_width im = 100 ∧ img_height im = 50) scaled)
    by (repeat constructor).
  split; [exact H1|]. split; [exact H2|]. split; [exact H3|]. split; [exact H4|].
  exact (uniform_images_fill_cells Scenario.three_names scaled 100 50 2 st H1 H2 H3 H4).
Defined.

Lemma one_warning_per_missing_file_witness :
  let st := Scenario.start Scenario.fs_two_of_three in
  Float64.is_binary64 default_collage_scale ∧
  scale_in_range default_collage_scale = true ∧
  Forall (readable (fs st)) Scenario.three_names ∧
  Forall (λ im, keeps_both_sides default_collage_scale im = true)
         (images_on_disk (fs st) Scenario.three_names) ∧
  ∃ scaled,
    scale_images Scenario.three_names default_collage_scale st
    = (Ok scaled, emit (warnings (fs st) Scenario.three_names) st) ∧
    length scaled
    = length (filter (λ name, path_exists (fs st) (os_path_join "vics" name) = true)
                     Scenario.three_names).
Proof.
  intros st.
  assert (H1 : Float64.is_binary64 default_collage_scale) by reflexivity.
  assert (H2 : scale_in_range default_collage_scale = true) by reflexivity.
  assert (H3 : Forall (readable (fs st)) Scenario.three_names).
  { repeat constructor; intros Hex; vm_compute in Hex; try discriminate;
      eexists; (split; [vm_compute; reflexivity|]); simpl; lia. }
  assert (H4 : Forall (λ im, keeps_both_sides default_collage_scale im = true)
                 (images_on_disk (fs st) Scenario.three_names)).
  { assert (E : images_on_disk (fs st) Scenario.three_names
                = [Scenario.art 2; Scenario.art 3]) by (vm_compute; reflexivity).
    rewrite E. repeat constructor. }
  split; [exact H1|]. split; [exact H2|]. split; [exact H3|]. split; [exact H4|].
  exact (one_warning_per_missing_file Scenario.three_names default_collage_scale st
           H1 H2 H3 H4).
Defined.

Lemma scaling_never_enlarges_witness :
  let img := Scenario.art 3 in
  Float64.is_binary64 default_collage_scale ∧
  scale_in_range default_collage_scale = true ∧
  0 ≤ img_width img < 2 ^ 53 ∧ 0 ≤ img_height img < 2 ^ 53 ∧
  ∃ w h, scaled_size img default_collage_scale = Ok (w, h) ∧
         0 ≤ w ≤ img_width img ∧ 0 ≤ h ≤ img_height img.
Proof.
  intros img.
  assert (H1 : Float64.is_binary64 default_collage_scale) by reflexivity.
  assert (H2 : scale_in_range default_collage_scale = true) by reflexivity.
  assert (H3 : 0 ≤ img_width img < 2 ^ 53) by (simpl; lia).
  assert (H4 : 0 ≤ img_height img < 2 ^ 53) by (simpl; lia).
  split; [exact H1|]. split; [exact H2|]. split; [exact H3|]. split; [exact H4|].
  exact (scaling_never_enlarges img default_collage_scale H1 H2 H3 H4).
Defined.

Lemma collage_is_saved_witness :
  let W := Scenario.world_of [1; 2; 3] Scenario.all_found [] in
  let st := Scenario.start Scenario.fs_three in
  let run := compose_canvas Scenario.three_names default_collage_scale st in
  let collage := Collage 300 50 BLACK
                   (walk 300 0 0 (zip Scenario.three_names
                      [Resized (Scenario.art 1) 100 50; Resized (Scenario.art 2) 100 50;
                       Resized (Scenario.art 3) 100 50])) in
  run = (Ok (Some collage), run.2) ∧
  1 ≤ img_width collage ≤ JPEG_MAX_DIMENSION ∧
  1 ≤ img_height collage ≤ JPEG_MAX_DIMENSION ∧
  files (fs run.2) !! "output" = None ∧
  Float64.to_int (clock W (ticks run.2)) = Ok 1700000000 ∧
  (collage_path 1700000000 ∉ dirs (fs run.2)) ∧
  0 ≤ encoded_size W collage < 2 ^ 52 ∧
  ∃ st', make_vic_collage W Scenario.three_names default_collage_scale st = (Ok (), st') ∧
         files (fs st') = <[collage_path 1700000000 := ImageFile collage]> (files (fs run.2)) ∧
         dirs (fs st') = {["output"]} ∪ dirs (fs run.2) ∧
         ∃ scale_line size_line,
           stdout st' = stdout run.2 ++
             [LF;
              ("Total number of images: " +:+ pretty (Z.of_nat (length Scenario.three_names)))
                +:+ LF;
              scale_line;
              ("Total resolution: " +:+ pretty (img_width collage) +:+ "x"
                 +:+ pretty (img_height collage) +:+ " pixels") +:+ LF;
              size_line;
              ("Collage saved to " +:+ collage_path 1700000000) +:+ LF;
              LF].
Proof.
  intros W st run collage.
  assert (H1 : run = (Ok (Some collage), run.2)) by (vm_compute; reflexivity).
  assert (H2 : files (fs run.2) !! "output" = None) by (vm_compute; reflexivity).
  assert (H3 : Float64.to_int (clock W (ticks run.2)) = Ok 1700000000)
    by (vm_compute; reflexivity).
  assert (H4 : collage_path 1700000000 ∉ dirs (fs run.2)).
  { assert (Hd : dirs (fs run.2) = {["vics"]}) by (vm_compute; reflexivity). rewrite Hd.
    intros Hin. apply elem_of_singleton in Hin. vm_compute in Hin. discriminate Hin. }
  assert (H5 : 0 ≤ encoded_size W collage < 2 ^ 52) by (simpl; lia).
  assert (Hw : 1 ≤ img_width collage ≤ JPEG_MAX_DIMENSION) by (vm_compute; split; discriminate).
  assert (Hh : 1 ≤ img_height collage ≤ JPEG_MAX_DIMENSION) by (vm_compute; split; discriminate).
  split; [exact H1|]. split; [exact Hw|]. split; [exact Hh|].
  split; [exact H2|]. split; [exact H3|]. split; [exact H4|].
  split; [exact H5|].
  exact (collage_is_saved W Scenario.three_names default_collage_scale collage st run.2
           1700000000 H1 Hw Hh H2 H3 H4 H5).
Defined.

Lemma non_mapping_config_aborts_witness :
  let W := world_decoding (JList [JInt 1]) in
  let args := Args ["0xA"] default_collage_scale in
  let st := Scenario.start Scenario.fs_config_only in
  files (fs st) !! "config.json" = Some (OtherFile "{...}") ∧
  json_loads W "{...}" = Ok (JList [JInt 1]) ∧
  (∀ items, JList [JInt 1] ≠ JDict items) ∧
  ∃ st', main_async W args st = (Raise AttributeError, st') ∧
         fs st' = fs st ∧ net st' = net st ∧ stderr st' = stderr st.
Proof.
  intros W args st.
  assert (H1 : files (fs st) !! "config.json" = Some (OtherFile "{...}")) by reflexivity.
  assert (H2 : json_loads W "{...}" = Ok (JList [JInt 1])) by reflexivity.
  assert (H3 : ∀ items, JList [JInt 1] ≠ JDict items) by discriminate.
  split; [exact H1|]. split; [exact H2|]. split; [exact H3|].
  exact (non_mapping_config_aborts W args st "{...}" (JList [JInt 1]) H1 H2 H3).
Defined.

Lemma every_wallet_contributes_witness :
  let W := Scenario.world_of [3; 1; 2] Scenario.all_found [] in
  let st := Scenario.start Scenario.fs_config_only in
  let run := collect_image_files W Scenario.creator ["0xA"; "0xB"] st in
  run = (Ok (Scenario.three_names ++ Scenario.three_names), run.2) ∧
  (length ["0xA"; "0xB"] ≤ length (Scenario.three_names ++ Scenario.three_names))%nat ∧
  (["0xA"; "0xB"] ≠ [] → Scenario.three_names ++ Scenario.three_names ≠ []).
Proof.
  intros W st run.
  assert (H : run = (Ok (Scenario.three_names ++ Scenario.three_names), run.2))
    by (vm_compute; reflexivity).
  split; [exact H|].
  exact (every_wallet_contributes W Scenario.creator ["0xA"; "0xB"] st _ run.2 H).
Defined.

Lemma downloaded_images_are_composed_witness :
  let W := Scenario.world_of [3; 1; 2] Scenario.all_found [2%nat; 0%nat; 1%nat] in
  let self := Scenario.creator in
  let st := Scenario.start Scenario.fs_config_only in
  let st' := (get_the_vics W self "0xA" st).2 in
  let ids := [1; 2; 3] in
  get_the_vics W self "0xA" st = (Ok ids, st') ∧
  Forall (λ t, vic_path t ∉ dirs (fs st)) ids ∧
  Forall (λ t, ∃ im, http_get W (vic_base_url self) t = Response 200 (ImageFile im) ∧
                     0 ≤ img_width im < 2 ^ 53 ∧ 0 ≤ img_height im < 2 ^ 53 ∧
                     keeps_both_sides default_collage_scale im = true) ids ∧
  Float64.is_binary64 default_collage_scale ∧
  scale_in_range default_collage_scale = true ∧
  Z.of_nat (length ids) < 2 ^ 52 ∧
  ∃ images scaled collage_width collage_height,
    Forall2 (λ t im, http_get W (vic_base_url self) t = Response 200 (ImageFile im))
            ids images ∧
    Forall2 (scaled_by default_collage_scale) images scaled ∧
    compose_canvas (png_name <$> ids) default_collage_scale st'
    = (Ok (Some (Collage collage_width collage_height BLACK
                   (walk collage_width 0 0 (zip (png_name <$> ids) scaled)))), st').
Proof.
  intros W self st st' ids.
  assert (H1 : get_the_vics W self "0xA" st = (Ok ids, st')) by (vm_compute; reflexivity).
  assert (H2 : Forall (λ t, vic_path t ∉ dirs (fs st)) ids)
    by (repeat constructor; apply not_elem_of_empty).
  assert (H3 : Forall (λ t, ∃ im,
                  http_get W (vic_base_url self) t = Response 200 (ImageFile im) ∧
                  0 ≤ img_width im < 2 ^ 53 ∧ 0 ≤ img_height im < 2 ^ 53 ∧
                  keeps_both_sides default_collage_scale im = true) ids).
  { repeat constructor; eexists; (split; [reflexivity|]);
      (split; [simpl; lia|]); (split; [simpl; lia|]); reflexivity. }
  assert (H4 : Float64.is_binary64 default_collage_scale) by reflexivity.
  assert (H5 : scale_in_range default_collage_scale = true) by reflexivity.
  assert (H6 : Z.of_nat (length ids) < 2 ^ 52) by (simpl; lia).
  split; [exact H1|]. split; [exact H2|]. split; [exact H3|]. split; [exact H4|].
  split; [exact H5|]. split; [exact H6|].
  exact (downloaded_images_are_composed W self "0xA" st ids st' default_collage_scale
           H1 H2 H3 H4 H5 H6).
Defined.

Lemma square_count_square_grid_witness :
  1 ≤ 3 ∧ 3 * 3 < 2 ^ 52 ∧ grid_shape (3 * 3) = Ok (3, 3).
Proof.
  assert (H1 : 1 ≤ 3) by lia.
  assert (H2 : 3 * 3 < 2 ^ 52) by lia.
  split; [exact H1|]. split; [exact H2|]. exact (square_count_square_grid 3 H1 H2).
Defined.

Lemma accepted_scale_keeps_stderr_silent_witness :
  let W := Scenario.world_of [] Scenario.all_found [] in
  let args := Args ["0xA"] default_collage_scale in
  let st := Scenario.start Scenario.fs_config_only in
  scale_in_range (collage_scale args) = true ∧
  stderr (main W args st).2 = stderr st.
Proof.
  intros W args st.
  assert (H : scale_in_range (collage_scale args) = true) by reflexivity.
  split; [exact H|]. exact (accepted_scale_keeps_stderr_silent W args st H).
Defined.

Lemma timing_line_is_last_witness :
  let W := Scenario.world_of [3; 1; 2] Scenario.all_found [] in
  let args := Args ["0xA"] default_collage_scale in
  let st := Scenario.start Scenario.fs_config_only in
  let st' := (main_async W args st).2 in
  main_async W args st = (Ok (), st') ∧
  last (stdout st')
  = Some (("Total execution time: "
           +:+ Float64.format_f 2 (Float64.sub (clock W (Nat.pred (ticks st')))
                                               (clock W (ticks st)))
           +:+ " seconds") +:+ LF).
Proof.
  intros W args st st'.
  assert (H : main_async W args st = (Ok (), st')) by (vm_compute; reflexivity).
  split; [exact H|]. exact (timing_line_is_last W args st st' H).
Defined.

Lemma refused_resize_aborts_witness :
  let W := Scenario.world_of [] Scenario.all_found [] in
  let im := Bitmap 1 50 50 in
  let st := Scenario.start (Fsys {["vics"]} {["vics/1.png" := ImageFile im]}) in
  let collage_scale := Float64.literal 10 3 in
  Float64.is_binary64 collage_scale ∧
  scale_in_range collage_scale = true ∧
  Forall (readable (fs st)) ["9.png"] ∧
  Forall (λ im, keeps_both_sides collage_scale im = true) (images_on_disk (fs st) ["9.png"]) ∧
  stored_image (fs st) "1.png" = Some im ∧
  0 ≤ img_width im < 2 ^ 53 ∧ 0 ≤ img_height im < 2 ^ 53 ∧
  keeps_both_sides collage_scale im = false ∧
  make_vic_collage W (["9.png"] ++ "1.png" :: []) collage_scale st
  = (Raise ValueError, emit (warnings (fs st) ["9.png"]) st).
Proof.
  intros W im st collage_scale.
  assert (H1 : Float64.is_binary64 collage_scale) by reflexivity.
  assert (H2 : scale_in_range collage_scale = true) by reflexivity.
  assert (H3 : Forall (readable (fs st)) ["9.png"]).
  { repeat constructor. intros Hex. vm_compute in Hex. discriminate Hex. }
  assert (H4 : Forall (λ im, keeps_both_sides collage_scale im = true)
                 (images_on_disk (fs st) ["9.png"])).
  { assert (E : images_on_disk (fs st) ["9.png"] = []) by (vm_compute; reflexivity).
    rewrite E. constructor. }
  assert (H5 : stored_image (fs st) "1.png" = Some im) by (vm_compute; reflexivity).
  assert (H6 : 0 ≤ img_width im < 2 ^ 53) by (simpl; lia).
  assert (H7 : 0 ≤ img_height im < 2 ^ 53) by (simpl; lia).
  assert (H8 : keeps_both_sides collage_scale im = false) by (vm_compute; reflexivity).
  split; [exact H1|]. split; [exact H2|]. split; [exact H3|]. split; [exact H4|].
  split; [exact H5|]. split; [exact H6|]. split; [exact H7|]. split; [exact H8|].
  exact (refused_resize_aborts W ["9.png"] [] "1.png" collage_scale st im
           H1 H2 H3 H4 H5 H6 H7 H8).
Defined.

Lemma large_images_are_kept_witness :
  let im := Scenario.art 3 in
  Float64.is_binary64 default_collage_scale ∧
  scale_in_range default_collage_scale = true ∧
  100 ≤ img_width im < 2 ^ 53 ∧ 100 ≤ img_height im < 2 ^ 53 ∧
  keeps_both_sides default_collage_scale im = true ∧
  ∃ w h, scaled_size im default_collage_scale = Ok (w, h) ∧ 1 ≤ w ∧ 1 ≤ h ∧
         Image_resize im (w, h) = Ok (Resized im w h).
Proof.
  intros im.
  assert (H1 : Float64.is_binary64 default_collage_scale) by reflexivity.
  assert (H2 : scale_in_range default_collage_scale = true) by reflexivity.
  assert (H3 : 100 ≤ img_width im < 2 ^ 53) by (simpl; lia).
  assert (H4 : 100 ≤ img_height im < 2 ^ 53) by (simpl; lia).
  split; [exact H1|]. split; [exact H2|]. split; [exact H3|]. split; [exact H4|].
  exact (large_images_are_kept im default_collage_scale H1 H2 H3 H4).
Defined.

